(** * Edge search worker: a shallow embedding of [script/src/main.ts]

    The worker script answers boolean term queries from a key-value store
    with the help of a WebAssembly query runner.  This development embeds the
    host side of that script: the sequential memory walker, the printf-style
    message decoder, query parsing, and the request handler, and states the
    properties of the documentation against the embedding.  The module
    [Acquire] embeds the functions of the data acquisition script that
    fetch, cache and de-duplicate the listings the index is built from.

    Conventions.
    - A JavaScript string is a [string] read as its UTF-8 bytes, so that
      [TextEncoder.encode] is the identity on the byte sequence.
    - An [ArrayBuffer] is a [list byte]; typed-array and [DataView] accesses
      carry the range checks of the platform.
    - A thrown exception is the [Throw] outcome; state is threaded explicitly
      and survives a throw, as it does in the script. *)

From Stdlib Require Import ZArith List Bool Ascii String Lia Strings.Byte.
Import ListNotations.

Local Open Scope string_scope.
Local Open Scope list_scope.
Local Open Scope Z_scope.

Set Implicit Arguments.

(** ** Exceptions and the state-and-exception monad *)

Inductive jsError : Type :=
| RangeError
| URIError
| TypeError
| JsError (msg : string)
| SyntaxError (msg : string)
| HostFailure (what : string).

Inductive outcome (A : Type) : Type :=
| Ok (a : A)
| Throw (e : jsError).

Arguments Ok {A} a.
Arguments Throw {A} e.

Definition SE (S A : Type) : Type := S -> outcome A * S.

Definition ret {S A} (a : A) : SE S A := fun s => (Ok a, s).

Definition throw {S A} (e : jsError) : SE S A := fun s => (Throw e, s).

Definition bind {S A B} (m : SE S A) (f : A -> SE S B) : SE S B :=
  fun s => match m s with
           | (Ok a, s') => f a s'
           | (Throw e, s') => (Throw e, s')
           end.

Definition get {S} : SE S S := fun s => (Ok s, s).

Definition put {S} (s : S) : SE S unit := fun _ => (Ok tt, s).

Definition lift_outcome {S A} (o : outcome A) : SE S A := fun s => (o, s).

Declare Scope se_scope.
Delimit Scope se_scope with se.
Notation "x <- m ;; k" := (bind m (fun x => k))
  (at level 61, m at next level, right associativity) : se_scope.
Notation "m ;;; k" := (bind m (fun _ => k))
  (at level 61, right associativity) : se_scope.
Local Open Scope se_scope.

Fixpoint mapM {S A B} (f : A -> SE S B) (xs : list A) : SE S (list B) :=
  match xs with
  | [] => ret []
  | x :: xs' => y <- f x ;; ys <- mapM f xs' ;; ret (y :: ys)
  end.

(** ** Bytes and fixed-width integers *)

Definition b2z (b : byte) : Z := Z.of_N (Byte.to_N b).

Definition z2b (z : Z) : byte :=
  match Byte.of_N (Z.to_N (z mod 256)) with
  | Some b => b
  | None => x00
  end.

(** Little-endian value of a byte sequence. *)
Fixpoint le_value (bs : list byte) : Z :=
  match bs with
  | [] => 0
  | b :: bs' => b2z b + 256 * le_value bs'
  end.

Definition be_value (bs : list byte) : Z := le_value (rev bs).

(** The [n] low bytes of [z], least significant first. *)
Fixpoint le_bytes (n : nat) (z : Z) : list byte :=
  match n with
  | O => []
  | S n' => z2b z :: le_bytes n' (z / 256)
  end.

Definition toSigned (bits : Z) (z : Z) : Z :=
  if z <? 2 ^ (bits - 1) then z else z - 2 ^ bits.

Definition toUint32 (z : Z) : Z := z mod 2 ^ 32.

(** ** MemoryWalker *)

Record MemoryWalker : Type := mkWalker {
  buffer : list byte;
  next : Z
}.

Definition byteLength (buf : list byte) : Z := Z.of_nat (List.length buf).

(** [DataView.prototype.get*]: the index must be a valid index and the whole
    element must lie inside the view, otherwise a RangeError is thrown. *)
Definition dataViewGet (buf : list byte) (idx : Z) (size : nat)
  : outcome (list byte) :=
  if (0 <=? idx) && (idx + Z.of_nat size <=? byteLength buf)
  then Ok (firstn size (skipn (Z.to_nat idx) buf))
  else Throw RangeError.

Definition overwrite (buf : list byte) (idx : Z) (src : list byte) : list byte :=
  firstn (Z.to_nat idx) buf ++ src
    ++ skipn (Z.to_nat idx + List.length src) buf.

(** [DataView.prototype.set*]. *)
Definition dataViewSet (buf : list byte) (idx : Z) (src : list byte)
  : outcome (list byte) :=
  if (0 <=? idx) && (idx + Z.of_nat (List.length src) <=? byteLength buf)
  then Ok (overwrite buf idx src)
  else Throw RangeError.

(** [ArrayBuffer.prototype.slice] and [TypedArray.prototype.slice]: both
    bounds are clamped to the buffer, negative ones count from the end. *)
Definition clampIndex (len rel : Z) : Z :=
  if rel <? 0 then Z.max (len + rel) 0 else Z.min rel len.

Definition slice (buf : list byte) (start stop : Z) : list byte :=
  let len := byteLength buf in
  let first := clampIndex len start in
  let final := clampIndex len stop in
  firstn (Z.to_nat (Z.max (final - first) 0)) (skipn (Z.to_nat first) buf).

(** [uint8Array[i]]: [undefined] outside the array. *)
Definition u8at (buf : list byte) (i : Z) : option byte :=
  if (0 <=? i) && (i <? byteLength buf) then nth_error buf (Z.to_nat i) else None.

(** Truthiness of [uint8Array[i]]: a non-zero element. *)
Definition truthyAt (buf : list byte) (i : Z) : bool :=
  match u8at buf i with
  | Some b => negb (b2z b =? 0)
  | None => false
  end.

(** [TypedArray.prototype.set(src, offset)]. *)
Definition typedArraySet (buf : list byte) (offset : Z) (src : list byte)
  : outcome (list byte) :=
  if offset <? 0 then Throw RangeError
  else if byteLength buf <? Z.of_nat (List.length src) + offset then Throw RangeError
  else Ok (overwrite buf offset src).

Module Walker.

Definition W (A : Type) : Type := SE MemoryWalker A.

Definition setNext (p : Z) : W unit :=
  fun w => (Ok tt, mkWalker (buffer w) p).

Definition setBuffer (b : list byte) : W unit :=
  fun w => (Ok tt, mkWalker b (next w)).

Definition jumpTo (ptr : Z) : W unit := setNext ptr.

Definition forkAndJump (w : MemoryWalker) (ptr : Z) : MemoryWalker :=
  mkWalker (buffer w) ptr.

Definition skip (bytes : Z) : W unit :=
  w <- get ;; setNext (next w + bytes).

(** [this.buffer.slice(this.next, this.next += len)] *)
Definition readSlice (len : Z) : W (list byte) :=
  w <- get ;;
  let start := next w in
  setNext (next w + len) ;;;
  ret (slice (buffer w) start (start + len)).

(** [this.dataView.getUint8(this.next++)]: the position moves before the
    access is checked. *)
Definition readUInt8 : W Z :=
  w <- get ;;
  setNext (next w + 1) ;;;
  bs <- lift_outcome (dataViewGet (buffer w) (next w) 1) ;;
  ret (le_value bs).

Definition readBoolean : W bool :=
  v <- readUInt8 ;; ret (negb (v =? 0)).

(** The multi-byte readers access first and move afterwards. *)
Definition readFixed (size : nat) (decode : list byte -> Z) : W Z :=
  w <- get ;;
  bs <- lift_outcome (dataViewGet (buffer w) (next w) size) ;;
  setNext (next w + Z.of_nat size) ;;;
  ret (decode bs).

Definition readInt32LE : W Z := readFixed 4 (fun bs => toSigned 32 (le_value bs)).
Definition readInt32BE : W Z := readFixed 4 (fun bs => toSigned 32 (be_value bs)).
Definition readUInt32LE : W Z := readFixed 4 le_value.
Definition readUInt32BE : W Z := readFixed 4 be_value.
Definition readInt64LE : W Z := readFixed 8 (fun bs => toSigned 64 (le_value bs)).
Definition readUInt64LE : W Z := readFixed 8 le_value.

(** The double is kept as its 64-bit pattern: its numeric value is not
    interpreted here. *)
Definition readDoubleLE : W Z := readFixed 8 le_value.

(** [new MemoryWalker(this.buffer, this.readUInt32LE())] *)
Definition readAndDereferencePointer : W MemoryWalker :=
  p <- readUInt32LE ;;
  w <- get ;;
  ret (mkWalker (buffer w) p).

(** The loop [while (this.uint8Array[end]) end++]. *)
Fixpoint scanToNul (fuel : nat) (buf : list byte) (end_ : Z) : Z :=
  match fuel with
  | O => end_
  | S fuel' =>
      if truthyAt buf end_ then scanToNul fuel' buf (end_ + 1) else end_
  end.

Definition stringEnd (buf : list byte) (start : Z) : Z :=
  scanToNul (List.length buf) buf start.

Section Decoder.
(** [TextDecoder.decode], a platform function. *)
Variable textDecoder_decode : list byte -> string.

Definition readNullTerminatedString : W string :=
  w <- get ;;
  let end_ := stringEnd (buffer w) (next w) in
  let val := textDecoder_decode (slice (buffer w) (next w) end_) in
  setNext (end_ + 1) ;;;
  ret val.
End Decoder.

Definition writeUInt32LE (val : Z) : W unit :=
  w <- get ;;
  b <- lift_outcome (dataViewSet (buffer w) (next w) (le_bytes 4 (toUint32 val))) ;;
  setBuffer b ;;;
  setNext (next w + 4).

Definition writeAll (src : list byte) : W unit :=
  w <- get ;;
  b <- lift_outcome (typedArraySet (buffer w) (next w) src) ;;
  setBuffer b ;;;
  setNext (next w + byteLength src).

End Walker.

(** ** Regular expressions, as the script's two patterns need them

    A backtracking matcher in continuation-passing style: alternatives are
    tried left to right, the star is greedy and gives characters back when
    the rest fails, and an iteration of the star that consumes nothing is
    refused, which is how the language keeps such loops finite. *)

Module Regex.

Inductive re : Type :=
| Chr (accept : ascii -> bool)
| Eps
| Seq (a b : re)
| Alt (a b : re)
| Star (a : re)
| Group (n : nat) (a : re)
| EndOfInput.

Definition captures : Type := list (nat * string).

Definition consumed (before after : string) : string :=
  substring 0 (String.length before - String.length after) before.

(** The star: as many iterations of [step] as possible, then the rest [k];
    an iteration must consume something, so the length of the text bounds
    their number. *)
Fixpoint iterate {A : Type}
         (step : string -> captures -> (string -> captures -> option A) -> option A)
         (k : string -> captures -> option A)
         (fuel : nat) (s : string) (caps : captures) : option A :=
  match fuel with
  | O => k s caps
  | S fuel' =>
      match step s caps
              (fun s' caps' =>
                 if (String.length s' <? String.length s)%nat
                 then iterate step k fuel' s' caps'
                 else None) with
      | Some x => Some x
      | None => k s caps
      end
  end.

Fixpoint run {A : Type} (r : re) (s : string) (caps : captures)
         (k : string -> captures -> option A) {struct r} : option A :=
  match r with
  | Chr accept =>
      match s with
      | String c s' => if accept c then k s' caps else None
      | EmptyString => None
      end
  | Eps => k s caps
  | Seq a b => run a s caps (fun s' caps' => run b s' caps' k)
  | Alt a b =>
      match run a s caps k with
      | Some x => Some x
      | None => run b s caps k
      end
  | Star a =>
      iterate (fun s' caps' k' => run a s' caps' k') k (String.length s) s caps
  | Group n a =>
      run a s caps (fun s' caps' => k s' ((n, consumed s s') :: caps'))
  | EndOfInput =>
      match s with
      | EmptyString => k s caps
      | String _ _ => None
      end
  end.

Definition Plus (a : re) : re := Seq a (Star a).
Definition Opt (a : re) : re := Alt a Eps.

Fixpoint Lit (s : string) : re :=
  match s with
  | EmptyString => Eps
  | String c s' => Seq (Chr (Ascii.eqb c)) (Lit s')
  end.

Fixpoint Alts (rs : list re) : re :=
  match rs with
  | [] => Chr (fun _ => false)
  | [r] => r
  | r :: rs' => Alt r (Alts rs')
  end.

Fixpoint inString (cs : string) (c : ascii) : bool :=
  match cs with
  | EmptyString => false
  | String d cs' => Ascii.eqb c d || inString cs' c
  end.

Definition OneOf (cs : string) : re := Chr (inString cs).
Definition NoneOf (cs : string) : re := Chr (fun c => negb (inString cs c)).

(** The text of capture group [n]. *)
Fixpoint group (n : nat) (caps : captures) : string :=
  match caps with
  | [] => ""
  | (m, txt) :: caps' => if Nat.eqb m n then txt else group n caps'
  end.

(** A match attempt at the start of [s]: the captures and what follows
    the match. *)
Definition matchHere (r : re) (s : string) : option (captures * string) :=
  run r s [] (fun rest caps => Some (caps, rest)).

End Regex.

(** ** Global functions of the language *)

Definition hexValue (c : ascii) : option Z :=
  let n := Z.of_nat (nat_of_ascii c) in
  if (48 <=? n) && (n <=? 57) then Some (n - 48)
  else if (65 <=? n) && (n <=? 70) then Some (n - 55)
  else if (97 <=? n) && (n <=? 102) then Some (n - 87)
  else None.

(** One escape [%XY] at the head of the text. *)
Definition readEscape (s : string) : option (Z * string) :=
  match s with
  | String "%" (String h (String l rest)) =>
      match hexValue h, hexValue l with
      | Some a, Some b => Some (16 * a + b, rest)
      | _, _ => None
      end
  | _ => None
  end.

(** The [n] escapes that continue a multi-byte sequence. *)
Fixpoint readEscapes (n : nat) (s : string) : option (list Z * string) :=
  match n with
  | O => Some ([], s)
  | S n' =>
      match readEscape s with
      | Some (b, rest) =>
          match readEscapes n' rest with
          | Some (bs, rest') => Some (b :: bs, rest')
          | None => None
          end
      | None => None
      end
  end.

(** Number of leading one bits of an octet. *)
Definition leadingOnes (b : Z) : nat :=
  if b <? 128 then 0
  else if b <? 192 then 1
  else if b <? 224 then 2
  else if b <? 240 then 3
  else if b <? 248 then 4
  else 5.

Definition isContinuation (b : Z) : bool := (128 <=? b) && (b <? 192).

(** Whether the octets are the UTF-8 encoding of one code point: the
    shortest form, no surrogate, at most U+10FFFF. *)
Definition validUtf8 (octets : list Z) : bool :=
  match octets with
  | [b0; b1] =>
      isContinuation b1 && (128 <=? (b0 - 192) * 64 + (b1 - 128))
  | [b0; b1; b2] =>
      let v := (b0 - 224) * 4096 + (b1 - 128) * 64 + (b2 - 128) in
      isContinuation b1 && isContinuation b2 && (2048 <=? v)
      && negb ((55296 <=? v) && (v <=? 57343))
  | [b0; b1; b2; b3] =>
      let v := (b0 - 240) * 262144 + (b1 - 128) * 4096 + (b2 - 128) * 64
               + (b3 - 128) in
      isContinuation b1 && isContinuation b2 && isContinuation b3
      && (65536 <=? v) && (v <=? 1114111)
  | _ => false
  end.

Definition stringOfOctets (octets : list Z) : string :=
  string_of_list_ascii (map (fun b => ascii_of_nat (Z.to_nat b)) octets).

(** [decodeURIComponent]: every [%XY] must be complete, and the octets of a
    multi-byte sequence must all be escaped and form valid UTF-8; anything
    else is a URIError. *)
Fixpoint decodeLoop (fuel : nat) (s : string) : outcome string :=
  match fuel with
  | O => Ok ""
  | S fuel' =>
      match s with
      | EmptyString => Ok ""
      | String c rest =>
          if Ascii.eqb c "%" then
            match readEscape s with
            | None => Throw URIError
            | Some (b, after) =>
                match leadingOnes b with
                | O =>
                    match decodeLoop fuel' after with
                    | Ok r => Ok (String (ascii_of_nat (Z.to_nat b)) r)
                    | Throw e => Throw e
                    end
                | S O => Throw URIError
                | S n' =>
                    if (4 <? S n')%nat then Throw URIError
                    else
                      match readEscapes n' after with
                      | None => Throw URIError
                      | Some (bs, after') =>
                          if validUtf8 (b :: bs) then
                            match decodeLoop fuel' after' with
                            | Ok r => Ok (stringOfOctets (b :: bs) ++ r)%string
                            | Throw e => Throw e
                            end
                          else Throw URIError
                      end
                end
            end
          else
            match decodeLoop fuel' rest with
            | Ok r => Ok (String c r)
            | Throw e => Throw e
            end
      end
  end.

Definition decodeURIComponent (s : string) : outcome string :=
  decodeLoop (String.length s) s.

(** White space that [parseInt] skips, in the UTF-8 reading of the text:
    the ASCII controls and space, then the no-break space, the byte order
    mark, the line and paragraph separators and the space separators. *)
Definition asciiWhite (c : ascii) : bool :=
  let n := nat_of_ascii c in
  ((9 <=? n) && (n <=? 13))%nat || (n =? 32)%nat.

Definition codes (s : string) : list Z :=
  map (fun c => Z.of_nat (nat_of_ascii c)) (list_ascii_of_string s).

Fixpoint trimStart (fuel : nat) (s : string) : string :=
  match fuel with
  | O => s
  | S fuel' =>
      match s with
      | String c rest =>
          if asciiWhite c then trimStart fuel' rest
          else
            match codes (substring 0 3 s) with
            | [194; 160; _] | [194; 160] => trimStart fuel' (substring 2 (String.length s) s)
            | [239; 187; 191] | [225; 154; 128] | [226; 128; 168]
            | [226; 128; 169] | [226; 128; 175] | [226; 129; 159]
            | [227; 128; 128] => trimStart fuel' (substring 3 (String.length s) s)
            | [226; 128; n] =>
                if (128 <=? n) && (n <=? 138)
                then trimStart fuel' (substring 3 (String.length s) s)
                else s
            | _ => s
            end
      | EmptyString => s
      end
  end.

Definition digitValue (c : ascii) : option Z :=
  let n := Z.of_nat (nat_of_ascii c) in
  if (48 <=? n) && (n <=? 57) then Some (n - 48) else None.

(** The longest prefix of decimal digits, read as a number; [None] when
    there is no digit. *)
Fixpoint readDigits (s : string) (acc : option Z) : option Z :=
  match s with
  | String c rest =>
      match digitValue c with
      | Some d =>
          readDigits rest (Some (10 * match acc with Some a => a | None => 0 end + d))
      | None => acc
      end
  | EmptyString => acc
  end.

(** [Number.parseInt(s, 10)]; [None] is NaN.  Numbers are exact integers
    here, which is what the script's doubles hold up to 2^53 in absolute
    value: there the result is the one of the script.  Beyond, the script
    has the nearest double, and this function the exact integer. *)
Definition parseInt10 (s : string) : option Z :=
  match trimStart (String.length s) s with
  | String "-" rest =>
      match readDigits rest None with Some v => Some (- v) | None => None end
  | String "+" rest => readDigits rest None
  | t => readDigits t None
  end.

(** [x || 0] on a number: NaN and zero give zero. *)
Definition orZero (x : option Z) : Z :=
  match x with Some v => v | None => 0 end.

Definition digitChar (d : Z) : ascii :=
  ascii_of_nat (Z.to_nat (if d <? 10 then 48 + d else 87 + d)).

Fixpoint digitsOf (radix : Z) (fuel : nat) (n : Z) (acc : string) : string :=
  match fuel with
  | O => acc
  | S fuel' =>
      let acc' := String (digitChar (n mod radix)) acc in
      if n <? radix then acc' else digitsOf radix fuel' (n / radix) acc'
  end.

(** [toString(radix)] on an integer, a number or a bigint.  For a
    number these are the digits the script prints as long as the number is
    an integer that a double holds exactly and, in decimal, is below
    10^21, from where the script prints an exponent. *)
Definition integerToString (radix : Z) (n : Z) : string :=
  if n <? 0
  then String "-" (digitsOf radix (S (Z.to_nat (Z.log2 (- n)))) (- n) "")
  else digitsOf radix (S (Z.to_nat (Z.log2 n))) n "".

(** An integer as a template literal interpolates it. *)
Definition numberToString (n : Z) : string := integerToString 10 n.

Definition upperChar (c : ascii) : ascii :=
  let n := nat_of_ascii c in
  if ((97 <=? n) && (n <=? 122))%nat then ascii_of_nat (n - 32) else c.

Fixpoint toUpperCase (s : string) : string :=
  match s with
  | EmptyString => ""
  | String c rest => String (upperChar c) (toUpperCase rest)
  end.

(** The double quote, written by its code. *)
Definition dq : string := String (ascii_of_nat 34) "".

(** [JSON.stringify] on a string. *)
Fixpoint jsonEscape (s : string) : string :=
  match s with
  | EmptyString => ""
  | String c rest =>
      let n := Z.of_nat (nat_of_ascii c) in
      let out :=
        if n =? 34 then String "\" dq
        else if n =? 92 then "\\"
        else if n =? 8 then "\b"
        else if n =? 12 then "\f"
        else if n =? 10 then "\n"
        else if n =? 13 then "\r"
        else if n =? 9 then "\t"
        else if n <? 32 then
          ("\u00" ++ String (digitChar (n / 16)) (String (digitChar (n mod 16)) ""))%string
        else String c "" in
      (out ++ jsonEscape rest)%string
  end.

Definition jsonString (s : string) : string := (dq ++ jsonEscape s ++ dq)%string.

(** [TextEncoder.encode] and the script's [getAsciiBytes]: on the UTF-8
    reading of a string both give its bytes. *)
Definition textEncoder_encode (s : string) : list byte := list_byte_of_string s.
Definition getAsciiBytes (s : string) : list byte := list_byte_of_string s.

(** The bytes of a response body, written as the text that they are the
    UTF-8 reading of: nothing is decoded. *)
Definition textOfBytes (bs : list byte) : string := string_of_list_byte bs.

(** *** UTF-8 decoding

    [TextDecoder.decode] and a [KV.get] of type text decode UTF-8 as the
    Encoding standard says: a byte order mark at the start is dropped, a
    well-formed sequence is kept, and every ill-formed one gives U+FFFD.
    On the UTF-8 reading of strings a well-formed sequence is kept as its
    bytes. *)
Definition replacementBytes : list byte := [xef; xbf; xbd].

Inductive utf8State : Type :=
| Idle
| Within (needed : nat) (seen : list byte) (lower upper : Z).

(** A byte met while no sequence is under way: what it gives at once, and
    the sequence it opens, with the number of bytes still needed and the
    bounds of the next byte. *)
Definition utf8Lead (b : byte) : list byte * option (nat * Z * Z) :=
  let n := b2z b in
  if n <=? 127 then ([b], None)
  else if (194 <=? n) && (n <=? 223) then ([], Some (1%nat, 128, 191))
  else if (224 <=? n) && (n <=? 239)
       then ([], Some (2%nat, if n =? 224 then 160 else 128,
                              if n =? 237 then 159 else 191))
  else if (240 <=? n) && (n <=? 244)
       then ([], Some (3%nat, if n =? 240 then 144 else 128,
                              if n =? 244 then 143 else 191))
  else (replacementBytes, None).

(** A byte outside the bounds ends the sequence under way with an error
    and is read again as the start of the next; the end of the input
    inside a sequence is an error too. *)
Fixpoint utf8Loop (bs : list byte) (st : utf8State) : list byte :=
  match bs with
  | [] =>
      match st with
      | Idle => []
      | Within _ _ _ _ => replacementBytes
      end
  | b :: rest =>
      let start :=
        match utf8Lead b with
        | (out, None) => out ++ utf8Loop rest Idle
        | (_, Some (needed, lower, upper)) =>
            utf8Loop rest (Within needed [b] lower upper)
        end in
      match st with
      | Idle => start
      | Within needed seen lower upper =>
          if (lower <=? b2z b) && (b2z b <=? upper)
          then
            match needed with
            | S (S needed') =>
                utf8Loop rest (Within (S needed') (seen ++ [b]) 128 191)
            | _ => seen ++ [b] ++ utf8Loop rest Idle
            end
          else replacementBytes ++ start
      end
  end.

Definition utf8Decode (bs : list byte) : string :=
  string_of_list_byte
    (utf8Loop match bs with
              | xef :: xbb :: xbf :: rest => rest
              | _ => bs
              end Idle).

(** ** parseQuery *)

Definition ParsedQuery : Type := list (list string).

(** [/^([012])_([^&]+)(?:&|$)/] *)
Definition termPattern : Regex.re :=
  Regex.Seq (Regex.Group 1 (Regex.OneOf "012"))
    (Regex.Seq (Regex.Lit "_")
       (Regex.Seq (Regex.Group 2 (Regex.Plus (Regex.NoneOf "&")))
          (Regex.Alt (Regex.Lit "&") Regex.EndOfInput))).

(** [modeTerms[mode].push(term)] *)
Fixpoint pushAt (mode : nat) (term : string) (modeTerms : ParsedQuery)
  : ParsedQuery :=
  match modeTerms, mode with
  | [], _ => []
  | l :: ls, O => (l ++ [term]) :: ls
  | l :: ls, S m => l :: pushAt m term ls
  end.

Fixpoint parseLoop (termsRaw : list string) (modeTerms : ParsedQuery)
  : outcome (option ParsedQuery) :=
  match termsRaw with
  | [] => Ok (Some modeTerms)
  | value :: rest =>
      match Regex.matchHere termPattern value with
      | None => Ok None
      | Some (matches, _) =>
          let mode := Z.to_nat (orZero (parseInt10 (Regex.group 1 matches))) in
          match decodeURIComponent (Regex.group 2 matches) with
          | Throw e => Throw e
          | Ok term => parseLoop rest (pushAt mode term modeTerms)
          end
      end
  end.

(** [None] is the script's [undefined]: some value did not match. *)
Definition parseQuery (termsRaw : list string) : outcome (option ParsedQuery) :=
  parseLoop termsRaw [[]; []; []].

Definition termCountOf {A} (query : list (list A)) : Z :=
  fold_left (fun count modeTerms => count + Z.of_nat (List.length modeTerms)) query 0.

(** ** Responses *)

Record Response : Type := mkResponse {
  status : Z;
  headers : list (string * string);
  body : option string
}.

Definition CORS_HEADERS : list (string * string) :=
  [("Access-Control-Allow-Origin", "*");
   ("Access-Control-Allow-Methods", "GET, HEAD, POST, OPTIONS");
   ("Access-Control-Allow-Headers", "Content-Type")].

Definition jsonHeaders : list (string * string) :=
  ("Content-Type", "application/json") :: CORS_HEADERS.

Definition responsePreflight : Response := mkResponse 200 CORS_HEADERS None.

(** [JSON.stringify({error})] *)
Definition errorEnvelope (error : string) : string :=
  ("{" ++ dq ++ "error" ++ dq ++ ":" ++ jsonString error ++ "}")%string.

Definition responseError (error : string) (status : Z) : Response :=
  mkResponse status jsonHeaders (Some (errorEnvelope error)).

Definition responseRawJson (json : string) : Response :=
  mkResponse 200 jsonHeaders (Some json).

Definition resultsEnvelope (results : string) : string :=
  ("{" ++ dq ++ "results" ++ dq ++ ":" ++ results ++ ","
       ++ dq ++ "continuation" ++ dq ++ ":null,"
       ++ dq ++ "total" ++ dq ++ ":0}")%string.

Definition noResultsBody : string := resultsEnvelope "[]".

(** ** The query runner, the store and the request handler *)

(** Exports of the WebAssembly instance, as the script declares them. *)
Inductive call : Type :=
| CReset
| CMalloc (size : Z)
| CIndexQueryMalloc
| CIndexQuery (input : Z)
| CFindChunkContainingTerm (termPtr termLen : Z)
| CFindChunkContainingDoc (doc : Z)
| CSearchBstChunkForTerm (chunkPtr midPos termPtr termLen : Z)
| CSearchBstChunkForDoc (chunkPtr midPos doc : Z).

(** What a request does to the outside, in order. *)
Inductive event : Type :=
| EvCall (c : call)
| EvKV (key : string)
| EvLog (msg : string).

Definition isKV (e : event) : bool :=
  match e with EvKV _ => true | _ => false end.

Definition isChunkFetch (e : event) : bool :=
  match e with
  | EvKV key => negb (String.eqb key "default")
  | _ => false
  end.

Definition isEvaluatorCall (e : event) : bool :=
  match e with
  | EvCall CIndexQueryMalloc | EvCall (CIndexQuery _) => true
  | _ => false
  end.

Definition isReset (e : event) : bool :=
  match e with EvCall CReset => true | _ => false end.

Definition isCall (e : event) : bool :=
  match e with EvCall _ => true | _ => false end.

Inductive key : Type :=
| TermKey (term : string)
| DocKey (doc : Z).

Inductive chunkKey : Type :=
| CTerm (ptr len : Z)
| CDoc (doc : Z).

(** A lookup that waits for its chunk. *)
Record Pending : Type := mkPending {
  cKey : chunkKey;
  storeKey : string;
  chunkMidPos : Z
}.

Record QueryResult : Type := mkQueryResult {
  continuation : option Z;
  total : Z;
  documents : list Z
}.

(** The two limits the build writes into the script. *)
Record Limits : Type := mkLimits {
  MAX_QUERY_BYTES : Z;
  MAX_QUERY_TERMS : Z
}.

(** What the request carries: the values of [t] and the value of [c]. *)
Record SearchParams : Type := mkParams {
  t_values : list string;
  c_value : option string
}.

Section Worker.

(** State of the instance besides its linear memory. *)
Variable G : Type.

Record Instance : Type := mkInstance {
  memory : list byte;
  globals : G
}.

(** The instance's exports act on its own state and can trap or raise
    through the imported error function. *)
Record QueryRunner : Type := mkRunner {
  reset : SE Instance Z;
  malloc : Z -> SE Instance Z;
  index_query_malloc : SE Instance Z;
  index_query : Z -> SE Instance Z;
  find_chunk_containing_term : Z -> Z -> SE Instance Z;
  find_chunk_containing_doc : Z -> SE Instance Z;
  search_bst_chunk_for_term : Z -> Z -> Z -> Z -> SE Instance Z;
  search_bst_chunk_for_doc : Z -> Z -> Z -> SE Instance Z
}.

Variable queryRunner : QueryRunner.

(** [KV.get(key, ...)]: the stored bytes, or a rejection. *)
Variable KV_get : string -> outcome (list byte).

Variable limits : Limits.

Record World : Type := mkWorld {
  instance : Instance;
  trace : list event
}.

Definition M (A : Type) : Type := SE World A.

Definition emit (e : event) : M unit :=
  fun w => (Ok tt, mkWorld (instance w) (trace w ++ [e])).

Definition console_log (msg : string) : M unit := emit (EvLog msg).

Definition dispatch (c : call) : SE Instance Z :=
  match c with
  | CReset => reset queryRunner
  | CMalloc size => malloc queryRunner size
  | CIndexQueryMalloc => index_query_malloc queryRunner
  | CIndexQuery input => index_query queryRunner input
  | CFindChunkContainingTerm p l => find_chunk_containing_term queryRunner p l
  | CFindChunkContainingDoc d => find_chunk_containing_doc queryRunner d
  | CSearchBstChunkForTerm c m p l => search_bst_chunk_for_term queryRunner c m p l
  | CSearchBstChunkForDoc c m d => search_bst_chunk_for_doc queryRunner c m d
  end.

(** A call of an export: recorded, then run on the one instance. *)
Definition invoke (c : call) : M Z :=
  emit (EvCall c) ;;;
  fun w => let '(r, i) := dispatch c (instance w) in (r, mkWorld i (trace w)).

(** [queryRunnerMemory.forkAndJump(ptr)] followed by walker operations:
    the walker is a view of the instance's memory, so its writes land
    there. *)
Definition onMemory {A} (ptr : Z) (op : Walker.W A) : M A :=
  fun w =>
    let '(r, wk) := op (mkWalker (memory (instance w)) ptr) in
    (r, mkWorld (mkInstance (buffer wk) (globals (instance w))) (trace w)).

(** [KV.get]: the request is recorded when it is issued. *)
Definition KV_issue (k : string) : M unit := emit (EvKV k).
Definition KV_await (k : string) : M (list byte) := lift_outcome (KV_get k).

(** *** findInChunks, up to its [await] *)
Definition findInChunks_locate (k : key) (chunksIdPrefix : string)
  : M (option Pending) :=
  located <-
    match k with
    | TermKey term =>
        let encoded := textEncoder_encode term in
        let len := byteLength encoded in
        ptr <- invoke (CMalloc len) ;;
        onMemory ptr (Walker.writeAll encoded) ;;;
        chunkRefPtr <- invoke (CFindChunkContainingTerm ptr len) ;;
        ret (CTerm ptr len, chunkRefPtr)
    | DocKey doc =>
        chunkRefPtr <- invoke (CFindChunkContainingDoc doc) ;;
        ret (CDoc doc, chunkRefPtr)
    end ;;
  console_log "Found chunk" ;;;
  if snd located =? 0 then ret None
  else
    ref <- onMemory (snd located)
             (chunkId <- Walker.readUInt32LE ;;
              mid <- Walker.readUInt32LE ;;
              ret (chunkId, mid)) ;;
    let k := (chunksIdPrefix ++ numberToString (fst ref))%string in
    KV_issue k ;;;
    ret (Some (mkPending (fst located) k (snd ref))).

(** *** findInChunks, from its [await] on *)
Definition findInChunks_search (p : Pending) : M (option (list byte)) :=
  chunkData <- KV_await (storeKey p) ;;
  console_log "Fetched chunk from KV" ;;;
  chunkPtr <- invoke (CMalloc (byteLength chunkData)) ;;
  onMemory chunkPtr (Walker.writeAll chunkData) ;;;
  entryPtr <-
    match cKey p with
    | CDoc doc => invoke (CSearchBstChunkForDoc chunkPtr (chunkMidPos p) doc)
    | CTerm ptr len =>
        invoke (CSearchBstChunkForTerm chunkPtr (chunkMidPos p) ptr len)
    end ;;
  console_log "Found entry in chunk" ;;;
  if entryPtr =? 0 then ret None
  else
    payload <- onMemory entryPtr
                 (entryLen <- Walker.readUInt32LE ;;
                  target <- Walker.readAndDereferencePointer ;;
                  lift_outcome (fst (Walker.readSlice entryLen target))) ;;
    ret (Some payload).

Definition resume (p : option Pending) : M (option (list byte)) :=
  match p with
  | None => ret None
  | Some p' => findInChunks_search p'
  end.

(** One lookup run alone. *)
Definition findInChunks (k : key) (chunksIdPrefix : string)
  : M (option (list byte)) :=
  p <- findInChunks_locate k chunksIdPrefix ;; resume p.

(** *** findSerialisedTermBitmaps

    [Promise.all] over [map]: every lookup runs to its [await] when it is
    created, in the order of the query; the lookups continue once their
    chunks have arrived, taken here in the same order.  A lookup that
    raises ends the run here, where the script rejects the request and
    lets the lookups already created go on: both end in an exception
    then.  The two agree on the result and on the trace in every run in
    which no lookup raises, as in every request that is answered. *)
Definition locateTerms (query : ParsedQuery)
  : M (list (list (option Pending))) :=
  mapM (mapM (fun term => findInChunks_locate (TermKey term) "terms_")) query.

Definition collectTerms (pendings : list (list (option Pending)))
  : M (list (list (option (list byte)))) :=
  mapM (mapM resume) pendings.

Definition findSerialisedTermBitmaps (query : ParsedQuery)
  : M (list (list (option (list byte)))) :=
  pendings <- locateTerms query ;; collectTerms pendings.

(** *** readResult *)
Fixpoint readDocuments (count : nat) : Walker.W (list Z) :=
  match count with
  | O => ret []
  | S count' =>
      docId <- Walker.readUInt32LE ;;
      rest <- readDocuments count' ;;
      ret (docId :: rest)
  end.

Definition readResult : Walker.W QueryResult :=
  continuation <- Walker.readInt32LE ;;
  total <- Walker.readUInt32LE ;;
  count <- Walker.readUInt8 ;;
  Walker.skip 3 ;;;
  documents <- readDocuments (Z.to_nat count) ;;
  ret (mkQueryResult (if continuation =? -1 then None else Some continuation)
                     total documents).

(** *** buildIndexQuery *)

(** An operation on the walker of the local input buffer. *)
Definition onInput (op : Walker.W unit) (input : MemoryWalker) : M MemoryWalker :=
  fun w => match op input with
           | (Ok _, input') => (Ok input', w)
           | (Throw e, _) => (Throw e, w)
           end.

Definition writeBitmap (input : MemoryWalker) (bitmap : list byte)
  : M MemoryWalker :=
  ptr <- invoke (CMalloc (byteLength bitmap)) ;;
  onMemory ptr (Walker.writeAll bitmap) ;;;
  onInput (Walker.writeUInt32LE (byteLength bitmap) ;;;
           Walker.writeUInt32LE ptr) input.

Fixpoint writeMode (input : MemoryWalker) (mode : list (list byte))
  : M MemoryWalker :=
  match mode with
  | [] => onInput (Walker.writeUInt32LE 0) input
  | bitmap :: mode' =>
      input' <- writeBitmap input bitmap ;; writeMode input' mode'
  end.

Fixpoint writeModes (input : MemoryWalker) (modes : list (list (list byte)))
  : M MemoryWalker :=
  match modes with
  | [] => ret input
  | mode :: modes' =>
      input' <- writeMode input mode ;; writeModes input' modes'
  end.

Definition indexQuerySize (bitmapCount : Z) : Z := 4 + (bitmapCount * 2 + 3) * 4.

Definition buildIndexQuery (firstRank : Z) (modeTermBitmaps : list (list (list byte)))
  : M (list byte) :=
  let bitmapCount := termCountOf modeTermBitmaps in
  let input := mkWalker (repeat x00 (Z.to_nat (indexQuerySize bitmapCount))) 0 in
  input1 <- onInput (Walker.writeUInt32LE firstRank) input ;;
  input2 <- writeModes input1 modeTermBitmaps ;;
  ret (buffer input2).

(** *** executePostingsListQuery *)
Definition executePostingsListQuery (queryData : list byte)
  : M (option QueryResult) :=
  inputPtr <- invoke CIndexQueryMalloc ;;
  onMemory inputPtr (Walker.writeAll queryData) ;;;
  outputPtr <- invoke (CIndexQuery inputPtr) ;;
  if outputPtr =? 0 then ret None
  else result <- onMemory outputPtr readResult ;; ret (Some result).

(** *** handleSearch *)

Definition isNone {A} (x : option A) : bool :=
  match x with None => true | Some _ => false end.

Definition isSome {A} (x : option A) : bool := negb (isNone x).

(** [xs.filter(x => x)] on values that are buffers or [undefined]; the
    result holds the buffers. *)
Fixpoint defined {A} (xs : list (option A)) : list A :=
  match xs with
  | [] => []
  | Some x :: xs' => x :: defined xs'
  | None :: xs' => defined xs'
  end.

Fixpoint joinWith (sep : list byte) (parts : list (list byte)) : list byte :=
  match parts with
  | [] => []
  | [d] => d
  | d :: parts' => d ++ sep ++ joinWith sep parts'
  end.

Definition COMMA : list byte := getAsciiBytes ",".

Definition jsonResPrefix (total continuation : Z) : string :=
  ("{" ++ dq ++ "total" ++ dq ++ ":" ++ numberToString total ++ ","
       ++ dq ++ "continuation" ++ dq ++ ":" ++ numberToString continuation ++ ","
       ++ dq ++ "results" ++ dq ++ ":[")%string.

Definition jsonResSuffix : string := "]}".

Definition responseNoResults : Response := responseRawJson noResultsBody.

(** The handler waits twice: for the term chunks, then either for the
    default listing or for the document chunks.  While it waits for the
    documents it holds the evaluator's result, the first bytes of the
    response, and the lookups under way. *)
Inductive Waiting : Type :=
| WaitDefault
| WaitDocuments (result : QueryResult) (prefix : list byte)
                (pendings : list (option Pending)).

Definition evaluatorResultOf (waiting : Waiting) : option QueryResult :=
  match waiting with
  | WaitDefault => None
  | WaitDocuments result _ _ => Some result
  end.

(** From the start to the first wait. *)
Definition handleSearch_start (url : SearchParams)
  : M (Response + Z * list (list (option Pending))) :=
  invoke CReset ;;;
  query <- lift_outcome (parseQuery (t_values url)) ;;
  match query with
  | None => ret (inl (responseError "Malformed query" 400))
  | Some query =>
      let continuation :=
        Z.max 0 (orZero (parseInt10
                           (match c_value url with Some c => c | None => "" end))) in
      let termCount := termCountOf query in
      if termCount >? MAX_QUERY_TERMS limits
      then ret (inl (responseError "Too many terms" 413))
      else
        pendings <- locateTerms query ;;
        ret (inr (continuation, pendings))
  end.

(** From the arrival of the term chunks to the second wait. *)
Definition handleSearch_terms (continuation : Z)
           (pendings : list (list (option Pending)))
  : M (Response + Waiting) :=
  modeTermBitmaps <- collectTerms pendings ;;
  console_log "Bit sets retrieved" ;;;
  if existsb isNone (nth 0 modeTermBitmaps [])
  then ret (inl responseNoResults)
  else
    let require := defined (nth 0 modeTermBitmaps []) in
    let contain := defined (nth 1 modeTermBitmaps []) in
    let exclude := defined (nth 2 modeTermBitmaps []) in
    let modeTermBitmaps' := [require; contain; exclude] in
    if forallb (fun modeTerms => (List.length modeTerms =? 0)%nat) modeTermBitmaps'
    then KV_issue "default" ;;; ret (inr WaitDefault)
    else
      indexQueryData <- buildIndexQuery continuation modeTermBitmaps' ;;
      console_log "Query built" ;;;
      result <- executePostingsListQuery indexQueryData ;;
      match result with
      | None => throw (JsError "Failed to execute query")
      | Some result =>
          console_log "Query executed" ;;;
          let prefix := getAsciiBytes (jsonResPrefix (total result) continuation) in
          docs <- mapM (fun docId => findInChunks_locate (DocKey docId) "doc_")
                       (documents result) ;;
          ret (inr (WaitDocuments result prefix docs))
      end.

(** From the second wait to the response. *)
Definition handleSearch_finish (wt : Waiting) : M Response :=
  match wt with
  | WaitDefault =>
      listing <- KV_await "default" ;;
      ret (responseRawJson (resultsEnvelope (utf8Decode listing)))
  | WaitDocuments _ prefix pendings =>
      found <- mapM resume pendings ;;
      let documents := defined found in
      console_log "Documents fetched" ;;;
      ret (mkResponse 200 jsonHeaders
             (Some (textOfBytes
                      (prefix ++ joinWith COMMA documents
                              ++ getAsciiBytes jsonResSuffix))))
  end.

Definition handleSearch (url : SearchParams) : M Response :=
  started <- handleSearch_start url ;;
  match started with
  | inl response => ret response
  | inr (continuation, pendings) =>
      resolved <- handleSearch_terms continuation pendings ;;
      match resolved with
      | inl response => ret response
      | inr waiting => handleSearch_finish waiting
      end
  end.

Record Request : Type := mkRequest {
  method : string;
  pathname : string;
  searchParams : SearchParams
}.

Definition requestHandler (request : Request) : M Response :=
  if String.eqb (method request) "OPTIONS" then ret responsePreflight
  else if String.eqb (pathname request) "/search"
       then handleSearch (searchParams request)
       else ret (mkResponse 404 [] None).

End Worker.

(** ** The message decoder: formatFromVarargs *)

Module Format.

Import Regex.

Definition digits : re := OneOf "0123456789".

(** The pattern of [formatFromVarargs], group by group: a percent sign;
    (1) any number of the flag characters; (2) an optional width, digits
    or a star; (3) an optional precision, a dot and then digits or a
    star; (4) an optional length, the alternatives in the order of the
    script; (5) the conversion character. *)
Definition specifierPattern : re :=
  Seq (Lit "%")
    (Seq (Group 1 (Star (OneOf "-+ 0'#")))
       (Seq (Group 2 (Opt (Alt (Plus digits) (Lit "*"))))
          (Seq (Group 3 (Opt (Seq (Lit ".") (Alt (Plus digits) (Lit "*")))))
             (Seq (Group 4
                     (Opt (Alts [Lit "hh"; Lit "h"; Lit "l"; Lit "ll"; Lit "L";
                                 Lit "z"; Lit "j"; Lit "t"; Lit "I"; Lit "I32";
                                 Lit "I64"; Lit "q"])))
                (Group 5 (OneOf "%diufFeEgGxXoscpaA")))))).

(** One match of the pattern, with the arguments the replacer receives. *)
Record Specifier : Type := mkSpecifier {
  spec : string;
  flags : string;
  width : string;
  precision : string;
  length : string;
  type : string
}.

Inductive piece : Type :=
| Text (c : ascii)
| Conversion (sp : Specifier).

(** The matches of the global pattern, left to right and not overlapping,
    with the text between them. *)
Fixpoint pieces (fuel : nat) (s : string) : list piece :=
  match fuel with
  | O => []
  | S fuel' =>
      match s with
      | EmptyString => []
      | String c rest =>
          match matchHere specifierPattern s with
          | Some (caps, after) =>
              Conversion (mkSpecifier (consumed s after) (group 1 caps)
                            (group 2 caps) (group 3 caps) (group 4 caps)
                            (group 5 caps))
                :: pieces fuel' after
          | None => Text c :: pieces fuel' rest
          end
      end
  end.

Definition piecesOf (s : string) : list piece := pieces (String.length s) s.

(** What a parser reads from the argument buffer. *)
Inductive rawValue : Type :=
| RInteger (v : Z)
| RDouble (bits : Z)
| RString (v : string).

Definition nonEmpty (s : string) : bool := negb (String.eqb s "").

Fixpoint has (set : list string) (x : string) : bool :=
  match set with
  | [] => false
  | y :: set' => String.eqb x y || has set' x
  end.

(** [new Set('dic')]: the characters of the text. *)
Fixpoint charSet (s : string) : list string :=
  match s with
  | EmptyString => []
  | String c rest => String c "" :: charSet rest
  end.

Section Host.

(** Platform functions: text decoding, the renderings of a double that
    the formatters of [fFeEgGaA] use, and [String.fromCharCode]. *)
Variable textDecoder_decode : list byte -> string.
Variable formatDouble : string -> Z -> string.
Variable fromCharCode : Z -> string.

Record Parser : Type := mkParser {
  p_length : list string;
  p_type : list string;
  parse : Walker.W rawValue
}.

Definition readStringArgument : Walker.W rawValue :=
  target <- Walker.readAndDereferencePointer ;;
  v <- lift_outcome (fst (Walker.readNullTerminatedString textDecoder_decode target)) ;;
  ret (RString v).

Definition integerParser (read : Walker.W Z) : Walker.W rawValue :=
  v <- read ;; ret (RInteger v).

Definition SPECIFIER_PARSERS : list Parser :=
  [ mkParser ["hh"; "h"; "l"; "z"; "t"; ""] (charSet "dic")
             (integerParser Walker.readInt32LE);
    mkParser ["hh"; "h"; "l"; "z"; "t"; ""] (charSet "uxXop")
             (integerParser Walker.readUInt32LE);
    mkParser ["ll"; "j"] (charSet "di") (integerParser Walker.readInt64LE);
    mkParser ["ll"; "j"] (charSet "uxXop") (integerParser Walker.readUInt64LE);
    mkParser ["L"; ""] (charSet "fFeEgGaA")
             (v <- Walker.readDoubleLE ;; ret (RDouble v));
    mkParser [] (charSet "s") readStringArgument;
    mkParser [] (charSet "%") (ret (RString "%")) ].

(** [toString(radix)] of whatever the parser produced. *)
Definition render (radix : Z) (ty : string) (v : rawValue) : string :=
  match v with
  | RInteger n => integerToString radix n
  | RDouble bits => formatDouble ty bits
  | RString s => s
  end.

(** [SPECIFIER_FORMATTERS[type](rawValue)] *)
Definition SPECIFIER_FORMATTERS (ty : string) (v : rawValue) : string :=
  if String.eqb ty "%" then "%"
  else if has ["d"; "i"; "u"; "g"] ty then render 10 ty v
  else if has ["G"] ty then toUpperCase (render 10 ty v)
  else if has ["x"; "p"; "a"] ty then render 16 ty v
  else if has ["X"; "A"] ty then toUpperCase (render 16 ty v)
  else if String.eqb ty "o" then render 8 ty v
  else if String.eqb ty "c" then
         match v with
         | RInteger n => fromCharCode n
         | RDouble bits => formatDouble ty bits
         | RString s => s
         end
  else if has ["F"; "E"] ty then toUpperCase (render 10 ty v)
  else render 10 ty v.

Definition quoted (s : string) : string := (dq ++ s ++ dq)%string.

(** The replacer function. *)
Definition replacer (sp : Specifier) : Walker.W string :=
  if nonEmpty (flags sp) || nonEmpty (width sp) || nonEmpty (precision sp)
  then throw (JsError ("Unsupported format specifier " ++ quoted (spec sp)))
  else
    match find (fun p => has (p_length p) (length sp) && has (p_type p) (type sp))
               SPECIFIER_PARSERS with
    | None => throw (SyntaxError ("Invalid format specifier " ++ quoted (spec sp)))
    | Some parser =>
        rawValue <- parse parser ;;
        ret (SPECIFIER_FORMATTERS (type sp) rawValue)
    end.

Fixpoint replaceAll (ps : list piece) : Walker.W string :=
  match ps with
  | [] => ret ""
  | Text c :: ps' => rest <- replaceAll ps' ;; ret (String c rest)
  | Conversion sp :: ps' =>
      out <- replacer sp ;;
      rest <- replaceAll ps' ;;
      ret (out ++ rest)%string
  end.

(** The format text of a message, then its replacement; [mem] goes on
    reading the arguments after the pointer to the text. *)
Definition readFormat : Walker.W string :=
  target <- Walker.readAndDereferencePointer ;;
  lift_outcome (fst (Walker.readNullTerminatedString textDecoder_decode target)).

Definition formatFromVarargs : Walker.W string :=
  format <- readFormat ;; replaceAll (piecesOf format).

(** The two imports the instance calls: the text logged, and the error
    raised. *)
Definition _wasm_import_log (memory : list byte) (argsPtr : Z) : outcome string :=
  fst (formatFromVarargs (mkWalker memory argsPtr)).

Definition _wasm_import_error (memory : list byte) (argsPtr : Z) : jsError :=
  match fst (formatFromVarargs (mkWalker memory argsPtr)) with
  | Ok text => JsError ("[fprintf] " ++ text)
  | Throw e => e
  end.

End Host.

End Format.

(** ** Requests in flight together

    The script creates one instance when it is loaded, and every request
    handler calls that instance.  A handler runs without interruption from
    one [await] to the next; at an [await] the host may run a part of any
    other request that is ready.  A schedule names, step by step, the
    request that runs its next part. *)

Section Concurrency.

Variable G : Type.
Variable queryRunner : QueryRunner G.
Variable KV_get : string -> outcome (list byte).
Variable limits : Limits.

Inductive Task : Type :=
| TStart (url : SearchParams)
| TTerms (continuation : Z) (pendings : list (list (option Pending)))
| TFinish (waiting : Waiting)
| TDone (result : outcome Response).

(** The next part of a handler, as a computation on the shared world. *)
Definition taskPart (t : Task) : M G Task :=
  match t with
  | TStart url =>
      r <- handleSearch_start queryRunner limits url ;;
      ret (match r with
           | inl response => TDone (Ok response)
           | inr (continuation, pendings) => TTerms continuation pendings
           end)
  | TTerms continuation pendings =>
      r <- handleSearch_terms queryRunner KV_get continuation pendings ;;
      ret (match r with
           | inl response => TDone (Ok response)
           | inr waiting => TFinish waiting
           end)
  | TFinish waiting =>
      r <- handleSearch_finish queryRunner KV_get waiting ;;
      ret (TDone (Ok r))
  | TDone result => ret (TDone result)
  end.

Record Shared : Type := mkShared {
  sharedInstance : Instance G;
  log : list (nat * event);
  tasks : list Task
}.

Fixpoint setTask (id : nat) (t : Task) (ts : list Task) : list Task :=
  match ts, id with
  | [], _ => []
  | _ :: ts', O => t :: ts'
  | t0 :: ts', S id' => t0 :: setTask id' t ts'
  end.

(** Request [id] runs its next part on the one instance; what it does is
    logged under its number; an exception ends the request. *)
Definition runPart (id : nat) (st : Shared) : Shared :=
  match nth_error (tasks st) id with
  | None => st
  | Some t =>
      let '(r, w) := taskPart t (mkWorld (sharedInstance st) []) in
      let t' := match r with Ok t' => t' | Throw e => TDone (Throw e) end in
      mkShared (instance w)
               (log st ++ map (pair id) (trace w))
               (setTask id t' (tasks st))
  end.

Definition runSchedule (schedule : list nat) (st : Shared) : Shared :=
  fold_left (fun st id => runPart id st) schedule st.

Definition arrive (i : Instance G) (urls : list SearchParams) : Shared :=
  mkShared i [] (map TStart urls).

End Concurrency.

(** The calls of the instance in a log, each with the request that made it. *)
Fixpoint callsOf (lg : list (nat * event)) : list (nat * call) :=
  match lg with
  | [] => []
  | (id, EvCall c) :: lg' => (id, c) :: callsOf lg'
  | _ :: lg' => callsOf lg'
  end.

Definition callsBy (id : nat) (lg : list (nat * event)) : list call :=
  map snd (filter (fun p => Nat.eqb (fst p) id) (callsOf lg)).

(** A request has the instance to itself when no call of another request
    falls between two of its own. *)
Fixpoint noneBy (id : nat) (cs : list (nat * call)) : bool :=
  match cs with
  | [] => true
  | (id', _) :: cs' => negb (Nat.eqb id' id) && noneBy id cs'
  end.

Fixpoint undisturbed (cs : list (nat * call)) : bool :=
  match cs with
  | [] => true
  | (id, _) :: cs' =>
      match cs' with
      | (id', _) :: _ =>
          if Nat.eqb id' id then undisturbed cs'
          else noneBy id cs' && undisturbed cs'
      | [] => true
      end
  end.

Definition isolated (lg : list (nat * event)) : bool := undisturbed (callsOf lg).

(** The first call of a request, if it made one, is [reset]. *)
Definition resetFirst (id : nat) (lg : list (nat * event)) : bool :=
  match callsBy id lg with
  | [] => true
  | CReset :: _ => true
  | _ :: _ => false
  end.

(** ** A small query runner and store to run the handler against *)

Module Fixture.

(** The query runner is the WebAssembly module of the repository, whose C
    sources are not among the sources of the script; the script reaches it
    through [QueryRunner] only.  To run the handler on concrete requests
    this module supplies a small runner that follows the documentation of
    the boundary, and a store with three terms and four documents. *)

Definition HEAP_START : Z := 32.
Definition PAGE_SIZE : Z := 2.
Definition ALL_DOCUMENTS : list Z := [1; 2; 3; 4].
Definition TERM_CHUNK_REF : Z := 8.
Definition DOC_CHUNK_REF : Z := 16.

Definition State : Type := Instance Z.

(** Modelled from the spec: the runner's allocator, which is missing with
    the C sources.  A bump allocator without individual deallocation, that a
    [reset] call reclaims wholesale. *)
Definition reset : SE State Z :=
  fun i => (Ok 0, mkInstance (memory i) HEAP_START).

Definition malloc (size : Z) : SE State Z :=
  fun i => (Ok (globals i), mkInstance (memory i) (globals i + size)).

Definition u8 (mem : list byte) (pos : Z) : Z := le_value (slice mem pos (pos + 1)).
Definition u32 (mem : list byte) (pos : Z) : Z := le_value (slice mem pos (pos + 4)).

Fixpoint bytes_eqb (a b : list byte) : bool :=
  match a, b with
  | [], [] => true
  | x :: a', y :: b' => Byte.eqb x y && bytes_eqb a' b'
  | _, _ => false
  end.

(** Modelled from the spec: the chunk search, which is missing with the C
    sources.  It returns the payload of the entry whose key is exactly the
    one searched, or nothing.  The chunk is searched entry by entry here,
    not as a tree: key length, key, payload length, payload, and a zero key
    length at the end; this encoding is private to the runner. *)
Fixpoint searchChunk (fuel : nat) (mem : list byte) (pos : Z) (k : list byte)
  : option (Z * Z) :=
  match fuel with
  | O => None
  | S fuel' =>
      let keyLen := u8 mem pos in
      if keyLen =? 0 then None
      else
        let payloadLen := u8 mem (pos + 1 + keyLen) in
        let payloadPtr := pos + 2 + keyLen in
        if bytes_eqb (slice mem (pos + 1) (pos + 1 + keyLen)) k
        then Some (payloadLen, payloadPtr)
        else searchChunk fuel' mem (payloadPtr + payloadLen) k
  end.

(** Allocate and fill a block. *)
Definition store (bs : list byte) : SE State Z :=
  fun i =>
    let ptr := globals i in
    (Ok ptr, mkInstance (overwrite (memory i) ptr bs) (ptr + byteLength bs)).

(** The entry handed back to the script: the length of the payload and a
    reference to it. *)
Definition search (chunkPtr : Z) (k : list byte) : SE State Z :=
  fun i =>
    match searchChunk (List.length (memory i)) (memory i) chunkPtr k with
    | None => (Ok 0, i)
    | Some (len, ptr) => store (le_bytes 4 len ++ le_bytes 4 ptr) i
    end.

Definition search_bst_chunk_for_term (chunkPtr midPos termPtr termLen : Z)
  : SE State Z :=
  fun i => search chunkPtr (slice (memory i) termPtr (termPtr + termLen)) i.

Definition search_bst_chunk_for_doc (chunkPtr midPos doc : Z) : SE State Z :=
  search chunkPtr (le_bytes 4 doc).

(** A mode's list of (length, reference) pairs, ended by a zero length. *)
Fixpoint readMode (fuel : nat) (mem : list byte) (pos : Z)
  : list (list Z) * Z :=
  match fuel with
  | O => ([], pos)
  | S fuel' =>
      let len := u32 mem pos in
      if len =? 0 then ([], pos + 4)
      else
        let ptr := u32 mem (pos + 4) in
        let '(rest, pos') := readMode fuel' mem (pos + 8) in
        (map b2z (slice mem ptr (ptr + len)) :: rest, pos')
  end.

Definition member (d : Z) (bitmap : list Z) : bool := existsb (Z.eqb d) bitmap.

Definition matches (require contain exclude : list (list Z)) (d : Z) : bool :=
  forallb (member d) require
  && (match contain with [] => true | _ => existsb (member d) contain end)
  && negb (existsb (member d) exclude).

(** Modelled from the spec: the evaluator, which is missing with the C
    sources.  With R the intersection of the Require bitmaps, C the union of
    the Contain bitmaps (no restriction when there is none) and X the union
    of the Exclude bitmaps, the result is (R and C) without X in ascending
    document order; the total is its size, the page the [PAGE_SIZE] results
    from the cursor on, and the next cursor is the cursor plus [PAGE_SIZE]
    when that is still inside the result, else -1.  A bitmap lists one
    document id per byte here; this encoding is private to the runner. *)
Definition evaluate (mem : list byte) (input : Z) : list byte :=
  let firstRank := toSigned 32 (u32 mem input) in
  let '(require, p1) := readMode (List.length mem) mem (input + 4) in
  let '(contain, p2) := readMode (List.length mem) mem p1 in
  let '(exclude, _) := readMode (List.length mem) mem p2 in
  let results := filter (matches require contain exclude) ALL_DOCUMENTS in
  let total := Z.of_nat (List.length results) in
  let page := firstn (Z.to_nat PAGE_SIZE) (skipn (Z.to_nat firstRank) results) in
  let nextCursor :=
    if firstRank + PAGE_SIZE <? total then firstRank + PAGE_SIZE else -1 in
  le_bytes 4 nextCursor ++ le_bytes 4 total
    ++ [z2b (Z.of_nat (List.length page)); x00; x00; x00]
    ++ flat_map (le_bytes 4) page.

Definition index_query (input : Z) : SE State Z :=
  fun i => store (evaluate (memory i) input) i.

(** Modelled from the spec: the exports of the runner.  One chunk of terms
    and one chunk of documents cover every key, so that locating a key
    always gives a reference to the pair (chunk 0, root offset 0). *)
Definition queryRunner : QueryRunner Z :=
  mkRunner reset malloc (malloc 64) index_query
           (fun _ _ => ret TERM_CHUNK_REF) (fun _ => ret DOC_CHUNK_REF)
           search_bst_chunk_for_term search_bst_chunk_for_doc.

(** The instance when the script is loaded: zeroed memory, so that both
    chunk references read (0, 0). *)
Definition loaded : State := mkInstance (repeat x00 1024) HEAP_START.

(** The store: the chunk of terms under [terms_0], the chunk of documents
    under [doc_0], the default listing under [default]. *)
Fixpoint encodeChunk (entries : list (list byte * list byte)) : list byte :=
  match entries with
  | [] => [x00]
  | (k, payload) :: entries' =>
      z2b (byteLength k) :: k ++ z2b (byteLength payload) :: payload
        ++ encodeChunk entries'
  end.

Definition termEntry (term : string) (docs : list Z) : list byte * list byte :=
  (textEncoder_encode term, map z2b docs).

Definition document (id : Z) : string :=
  ("{" ++ dq ++ "ID" ++ dq ++ ":" ++ numberToString id ++ "}")%string.

Definition docEntry (id : Z) : list byte * list byte :=
  (le_bytes 4 id, getAsciiBytes (document id)).

Definition termChunk : list byte :=
  encodeChunk [termEntry "engineer" [1; 2; 3]; termEntry "intern" [2];
               termEntry "manager" [1; 2; 3; 4]].

Definition docChunk : list byte := encodeChunk (map docEntry ALL_DOCUMENTS).

Definition defaultListing : string := ("[" ++ document 4 ++ "]")%string.

Definition KV_get (k : string) : outcome (list byte) :=
  if String.eqb k "terms_0" then Ok termChunk
  else if String.eqb k "doc_0" then Ok docChunk
  else if String.eqb k "default" then Ok (getAsciiBytes defaultListing)
  else Throw (HostFailure "KV").

Definition limits : Limits := mkLimits 24 3.

Definition fresh : World Z := mkWorld loaded [].

Definition search_of (ts : list string) (c : option string)
  : outcome Response * World Z :=
  handleSearch queryRunner KV_get limits (mkParams ts c) fresh.

End Fixture.

(** ** The walker's reading and writing operations, enumerated *)

Inductive primitive : Type :=
| PReadSlice (len : Z)
| PReadBoolean
| PReadUInt8
| PReadInt32LE
| PReadInt32BE
| PReadUInt32LE
| PReadUInt32BE
| PReadInt64LE
| PReadUInt64LE
| PReadDoubleLE
| PReadNullTerminatedString
| PReadAndDereferencePointer
| PWriteUInt32LE (val : Z)
| PWriteAll (src : list byte).

Definition discard {A} (m : Walker.W A) : Walker.W unit := _ <- m ;; ret tt.

Definition perform (decode : list byte -> string) (p : primitive) : Walker.W unit :=
  match p with
  | PReadSlice len => discard (Walker.readSlice len)
  | PReadBoolean => discard Walker.readBoolean
  | PReadUInt8 => discard Walker.readUInt8
  | PReadInt32LE => discard Walker.readInt32LE
  | PReadInt32BE => discard Walker.readInt32BE
  | PReadUInt32LE => discard Walker.readUInt32LE
  | PReadUInt32BE => discard Walker.readUInt32BE
  | PReadInt64LE => discard Walker.readInt64LE
  | PReadUInt64LE => discard Walker.readUInt64LE
  | PReadDoubleLE => discard Walker.readDoubleLE
  | PReadNullTerminatedString => discard (Walker.readNullTerminatedString decode)
  | PReadAndDereferencePointer => discard Walker.readAndDereferencePointer
  | PWriteUInt32LE val => Walker.writeUInt32LE val
  | PWriteAll src => Walker.writeAll src
  end.

(** Where the operation leaves (or would leave) the walker. *)
Definition resultingPosition (p : primitive) (w : MemoryWalker) : Z :=
  match p with
  | PReadSlice len => next w + len
  | PReadBoolean | PReadUInt8 => next w + 1
  | PReadInt32LE | PReadInt32BE | PReadUInt32LE | PReadUInt32BE
  | PReadAndDereferencePointer | PWriteUInt32LE _ => next w + 4
  | PReadInt64LE | PReadUInt64LE | PReadDoubleLE => next w + 8
  | PReadNullTerminatedString => Walker.stringEnd (buffer w) (next w) + 1
  | PWriteAll src => next w + byteLength src
  end.

Definition rejects {A} (r : outcome A * MemoryWalker) : bool :=
  match fst r with Throw _ => true | Ok _ => false end.

(** The operations that go through a [DataView] accessor or
    [TypedArray.prototype.set], which check the range. *)
Definition rangeChecked (p : primitive) : bool :=
  match p with
  | PReadSlice _ | PReadNullTerminatedString => false
  | _ => true
  end.

(** ** The shape of a [t] value *)

(** The shape as the documentation words it: a digit from 0 to 2, an
    underscore, and a term that is not empty. *)
Definition specShape (v : string) : bool :=
  match v with
  | String d (String u term) =>
      Regex.inString "012" d && Ascii.eqb u "_" && negb (String.eqb term "")
  | _ => false
  end.

(** The shape [termPattern] accepts: a digit from 0 to 2, an underscore,
    and a first character of the term that is not an ampersand. *)
Definition patternShape (v : string) : bool :=
  match v with
  | String d (String u (String c _)) =>
      Regex.inString "012" d && Ascii.eqb u "_" && negb (Ascii.eqb c "&")
  | _ => false
  end.

(** The longest prefix without an ampersand, and what follows it. *)
Fixpoint termOf (s : string) : string :=
  match s with
  | EmptyString => ""
  | String c rest => if Ascii.eqb c "&" then "" else String c (termOf rest)
  end.

Fixpoint afterTerm (s : string) : string :=
  match s with
  | EmptyString => ""
  | String c rest => if Ascii.eqb c "&" then s else afterTerm rest
  end.

Definition malformedResponse : Response := responseError "Malformed query" 400.
Definition tooManyTermsResponse : Response := responseError "Too many terms" 413.

(** The size of the query as it is written for the runner, known from the
    number of terms. *)
Definition serialisedQuerySize (query : ParsedQuery) : Z :=
  indexQuerySize (termCountOf query).

(** The world once [reset] has returned to a request that started in [w]:
    the instance as [reset] left it, and the call of [reset] as the only
    new effect. *)
Definition afterReset {G} (w : World G) (i : Instance G) : World G :=
  mkWorld i (trace w ++ [EvCall CReset]).

(** ** What a computation adds to the trace *)

(** Every run of [m] only appends events, and each of them satisfies [P]. *)
Definition appends {G A} (P : event -> bool) (m : M G A) : Prop :=
  forall w r w',
    m w = (r, w') ->
    exists evs, trace w' = trace w ++ evs /\ forallb P evs = true.

Definition notEvaluatorCall (e : event) : bool := negb (isEvaluatorCall e).

(** The events of a lookup: it never calls the evaluator. *)
Definition lookupEvent (e : event) : bool :=
  match e with
  | EvCall CReset | EvCall CIndexQueryMalloc | EvCall (CIndexQuery _) => false
  | _ => true
  end.

(** ** Conversions the message decoder refuses *)

(** A conversion that carries a flag, a width or a precision. *)
Definition carriesModifier (sp : Format.Specifier) : bool :=
  Format.nonEmpty (Format.flags sp) || Format.nonEmpty (Format.width sp)
  || Format.nonEmpty (Format.precision sp).

(** The combinations of length and conversion the documentation lists:
    signed and unsigned 32-bit integers, the character and the pointer;
    signed and unsigned 64-bit integers in the long long and intmax_t
    forms; doubles; the string by reference; the literal percent. *)
Definition specSupported (length type : string) : bool :=
  (Format.has ["hh"; "h"; "l"; "z"; "t"; ""] length
   && Format.has (Format.charSet "dicuxXop") type)
  || (Format.has ["ll"; "j"] length && Format.has (Format.charSet "diuxXop") type)
  || (Format.has ["L"; ""] length && Format.has (Format.charSet "fFeEgGaA") type)
  || (String.eqb length "" && Format.has (Format.charSet "s%") type).

Definition refused (sp : Format.Specifier) : bool :=
  carriesModifier sp || negb (specSupported (Format.length sp) (Format.type sp)).

Definition refusedPiece (p : Format.piece) : bool :=
  match p with
  | Format.Conversion sp => refused sp
  | Format.Text _ => false
  end.

(** ** Order of the calls of requests in flight *)

Definition started (t : Task) : bool :=
  match t with TStart _ => false | _ => true end.

(** A request that has not started has made no call; one that has started
    made [reset] its first call. *)
Definition orderly {G} (st : Shared G) : Prop :=
  forall id,
    match nth_error (tasks st) id with
    | Some t =>
        if started t
        then exists rest, callsBy id (log st) = CReset :: rest
        else callsBy id (log st) = []
    | None => callsBy id (log st) = []
    end.

(** The bytes of the terms of a query. *)
Definition queryTextBytes (query : ParsedQuery) : Z :=
  fold_left (fun n term => n + byteLength (textEncoder_encode term))
            (List.concat query) 0.

(** The text a piece stands for, and the text of a sequence of pieces. *)
Definition pieceText (p : Format.piece) : string :=
  match p with
  | Format.Text c => String c ""
  | Format.Conversion sp => Format.spec sp
  end.

Fixpoint textOf (ps : list Format.piece) : string :=
  match ps with
  | [] => ""
  | p :: ps' => (pieceText p ++ textOf ps')%string
  end.

(** ** The layout of the query handed to the runner *)

(** A 32-bit word, least significant byte first. *)
Definition word (z : Z) : list byte := le_bytes 4 (toUint32 z).

(** The words of one mode: a length and a reference for each bitmap, then a
    zero word. *)
Fixpoint modeWords (entries : list (Z * Z)) : list byte :=
  match entries with
  | [] => word 0
  | (len, ptr) :: entries' => word len ++ word ptr ++ modeWords entries'
  end.

Definition indexQueryLayout (firstRank : Z) (modes : list (list (Z * Z)))
  : list byte :=
  word firstRank ++ flat_map modeWords modes.

(** The walker of a buffer under construction: what has been written so
    far, then [k] zero bytes, with the position at their start. *)
Definition filled (input : MemoryWalker) (written : list byte) (k : nat) : Prop :=
  buffer input = written ++ repeat x00 k /\ next input = byteLength written.

(** What the build does to the instance, apart from the buffer it fills:
    each bitmap in turn is given room by [malloc] and copied to the
    address that [malloc] returned.  With each bitmap goes its length and
    that address. *)
Fixpoint placeMode {G} (queryRunner : QueryRunner G) (mode : list (list byte))
  : M G (list (Z * Z)) :=
  match mode with
  | [] => ret []
  | bitmap :: mode' =>
      ptr <- invoke queryRunner (CMalloc (byteLength bitmap)) ;;
      onMemory ptr (Walker.writeAll bitmap) ;;;
      entries <- placeMode queryRunner mode' ;;
      ret ((byteLength bitmap, ptr) :: entries)
  end.

Definition placeModes {G} (queryRunner : QueryRunner G)
           (modes : list (list (list byte))) : M G (list (list (Z * Z))) :=
  mapM (placeMode queryRunner) modes.

(** ** What a parsed query holds *)

(** The digit that selects a mode: 0 Require, 1 Contain, 2 Exclude. *)
Definition modeDigit (m : nat) : ascii :=
  match m with
  | O => "0"
  | S O => "1"
  | _ => "2"
  end.

Definition hasMode (m : nat) (v : string) : bool :=
  match v with
  | String d _ => Ascii.eqb d (modeDigit m)
  | EmptyString => false
  end.

(** The term a value stands for: what lies between the underscore and the
    first ampersand, decoded. *)
Definition termOfValue (v : string) : outcome string :=
  match v with
  | String _ (String _ body) => decodeURIComponent (termOf body)
  | _ => Ok ""
  end.

(** The terms of the values of one mode, in the order of the values. *)
Fixpoint termsOfMode (m : nat) (vs : list string) : list string :=
  match vs with
  | [] => []
  | v :: rest =>
      match hasMode m v, termOfValue v with
      | true, Ok term => term :: termsOfMode m rest
      | _, _ => termsOfMode m rest
      end
  end.

(** ** The cursor of a request *)

(** [Math.max(0, Number.parseInt(url.searchParams.get('c') || '', 10) || 0)] *)
Definition cursorOf (url : SearchParams) : Z :=
  Z.max 0 (orZero (parseInt10 (match c_value url with
                               | Some c => c
                               | None => ""
                               end))).

(** ** The phases of a request *)

(** An export call other than [reset] and the evaluator's two, or a line
    of the log. *)
Definition silentEvent (e : event) : bool := lookupEvent e && negb (isKV e).

(** While the terms are looked up the store is asked for term chunks. *)
Definition termPhaseEvent (e : event) : bool :=
  match e with
  | EvKV k => String.prefix "terms_" k
  | _ => lookupEvent e
  end.

(** While the documents are looked up it is asked for document chunks. *)
Definition docPhaseEvent (e : event) : bool :=
  match e with
  | EvKV k => String.prefix "doc_" k
  | _ => lookupEvent e
  end.

(** The evaluator is run on [data] in the world [wq]: the bytes are copied
    to the address [input] that [index_query_malloc] returns there, and
    [index_query] is called on that address, in the memory that holds the
    copy, and returns a result. *)
Definition evaluatedAt {G} (queryRunner : QueryRunner G) (wq : World G)
           (data : list byte) (input : Z) : Prop :=
  exists (i1 : Instance G) (buf : list byte) (out : Z) (i2 : Instance G),
    index_query_malloc queryRunner (instance wq) = (Ok input, i1)
    /\ typedArraySet (memory i1) input data = Ok buf
    /\ index_query queryRunner input (mkInstance buf (globals i1)) = (Ok out, i2)
    /\ out <> 0.

(** The terms of the request that started in [w] have been looked up:
    [reset] has returned, the values of [t] are a query, its lookups have
    given [bitmaps], and the line of the log that follows has been
    written, which gives the world [wb]. *)
Definition termsRetrieved {G} (queryRunner : QueryRunner G)
           (KV_get : string -> outcome (list byte)) (url : SearchParams)
           (w : World G) (bitmaps : list (list (option (list byte))))
           (wb : World G) : Prop :=
  exists (z : Z) (i : Instance G) (query : ParsedQuery) (w1 : World G),
    reset queryRunner (instance w) = (Ok z, i)
    /\ parseQuery (t_values url) = Ok (Some query)
    /\ findSerialisedTermBitmaps queryRunner KV_get query (afterReset w i)
       = (Ok bitmaps, w1)
    /\ wb = mkWorld (instance w1) (trace w1 ++ [EvLog "Bit sets retrieved"]).

(** What a request that started in [w] and is answered does once its
    terms have been looked up: nothing more; or the request for the
    default listing; or the evaluation, followed by the lookups of the
    documents.  The query evaluated is the one that [buildIndexQuery]
    builds from the cursor of the request and the bitmaps found for its
    terms, and it is evaluated in the world that building it leaves. *)
Inductive ending {G} (queryRunner : QueryRunner G)
          (KV_get : string -> outcome (list byte)) (url : SearchParams)
          (w : World G) : list event -> Prop :=
| EndEarly : ending queryRunner KV_get url w []
| EndDefault : ending queryRunner KV_get url w [EvKV "default"]
| EndEvaluated (bitmaps : list (list (option (list byte)))) (wb wb' : World G)
               (data : list byte) (input : Z) (rest : list event) :
    termsRetrieved queryRunner KV_get url w bitmaps wb ->
    buildIndexQuery queryRunner (cursorOf url)
      [defined (nth 0 bitmaps []); defined (nth 1 bitmaps []);
       defined (nth 2 bitmaps [])] wb
    = (Ok data, wb') ->
    evaluatedAt queryRunner wb' data input ->
    forallb docPhaseEvent rest = true ->
    ending queryRunner KV_get url w
           (EvCall CIndexQueryMalloc :: EvCall (CIndexQuery input) :: rest).

(** The first steps of a lookup: the index is asked which chunk can hold
    the key, a term being copied into the instance first.  The result is
    the key as the searches take it, and the reference of the chunk, which
    is 0 when no chunk can hold the key. *)
Definition locateCall {G} (queryRunner : QueryRunner G) (k : key)
  : M G (chunkKey * Z) :=
  match k with
  | TermKey term =>
      let encoded := textEncoder_encode term in
      let len := byteLength encoded in
      ptr <- invoke queryRunner (CMalloc len) ;;
      onMemory ptr (Walker.writeAll encoded) ;;;
      chunkRefPtr <- invoke queryRunner (CFindChunkContainingTerm ptr len) ;;
      ret (CTerm ptr len, chunkRefPtr)
  | DocKey doc =>
      chunkRefPtr <- invoke queryRunner (CFindChunkContainingDoc doc) ;;
      ret (CDoc doc, chunkRefPtr)
  end.

Definition isQueryCall (e : event) : bool :=
  match e with
  | EvCall (CIndexQuery _) => true
  | _ => false
  end.

(** ** What the message decoder reads *)

(** The bytes a conversion takes from the argument buffer: eight for the
    64-bit integers and the doubles, four for the others. *)
Definition argumentSize (sp : Format.Specifier) : Z :=
  if Format.has ["ll"; "j"] (Format.length sp)
     || Format.has (Format.charSet "fFeEgGaA") (Format.type sp)
  then 8 else 4.

Fixpoint argumentsSize (ps : list Format.piece) : Z :=
  match ps with
  | [] => 0
  | Format.Text _ :: ps' => argumentsSize ps'
  | Format.Conversion sp :: ps' => argumentSize sp + argumentsSize ps'
  end.

(** The string conversion and the percent sign written as a conversion. *)
Definition stringOrPercent (sp : Format.Specifier) : bool :=
  Format.has (Format.charSet "s%") (Format.type sp).

Definition stringOrPercentPiece (p : Format.piece) : bool :=
  match p with
  | Format.Conversion sp => stringOrPercent sp
  | Format.Text _ => false
  end.

(** * The data acquisition script: [distinct], [req], [fetchDdo],
      [jsonFromCache] and the pages of [loadRaw]

    The script runs under Node.  Its network is a server that answers the
    requests in the order they are sent; its file system maps a path to a
    file.  Positions in a text count the characters of [string].  The
    pauses before a request only take time, which is not modelled. *)

Module Acquire.

(** ** distinct *)

Section Distinct.

Variables T K : Type.
Variable key : T -> K.
(** Equality of two keys as [Set.prototype.has] decides it. *)
Variable sameKey : K -> K -> bool.

(** The filter, with the set [seen] that it updates from one value to the
    next. *)
Fixpoint distinctFrom (seen : list K) (values : list T) : list T :=
  match values with
  | [] => []
  | v :: rest =>
      let k := key v in
      if existsb (sameKey k) seen then distinctFrom seen rest
      else v :: distinctFrom (k :: seen) rest
  end.

Definition distinct (values : list T) : list T := distinctFrom [] values.

End Distinct.

(** ** Texts *)

(** [String.prototype.indexOf(pat, position)]: the first position at or
    after [position] where [pat] occurs, or -1. *)
Fixpoint indexOfAt (pat s : string) (offset position : Z) : Z :=
  if (position <=? offset) && String.prefix pat s then offset
  else
    match s with
    | EmptyString => -1
    | String _ rest => indexOfAt pat rest (offset + 1) position
    end.

Definition indexOf (s pat : string) (position : Z) : Z :=
  indexOfAt pat s 0 (Z.min (Z.max position 0) (Z.of_nat (String.length s))).

(** [String.prototype.slice(start, stop)]: both bounds are clamped, a
    negative one counts from the end.  Positions count the characters of
    [string], as [indexOf] does.  These are the units the script counts
    in a text of ASCII characters; in another text a position found by
    [indexOf] still cuts at the same place, and only a bound counted from
    the end, as the -1 of a marker that is missing, can cut elsewhere. *)
Definition stringSlice (s : string) (start stop : Z) : string :=
  let len := Z.of_nat (String.length s) in
  let first := clampIndex len start in
  let final := clampIndex len stop in
  substring (Z.to_nat first) (Z.to_nat (Z.max (final - first) 0)) s.

(** ** The world of the script *)

(** The parameters of a request: the address and the query. *)
Record HttpRequest : Type := mkRequest {
  uri : string;
  qs : option (list (string * string))
}.

Record HttpResponse : Type := mkHttp {
  statusCode : Z;
  href : string;
  responseBody : string
}.

(** What [request] hands to its callback. *)
Inductive reply : Type :=
| Failed (error : jsError)
| Replied (response : HttpResponse).

Inductive file : Type :=
| Missing
| Holds (text : string)
| Unreadable (code : string).

Record World : Type := mkWorld {
  disk : string -> file;
  sent : list HttpRequest;
  warned : list string
}.

Definition IO (X : Type) : Type := SE World X.

(** [error.message] *)
Definition messageOf (e : jsError) : string :=
  match e with
  | JsError msg | SyntaxError msg => msg
  | HostFailure what => what
  | _ => ""
  end.

(** [error.code]: a failure of the file system carries its code. *)
Definition codeOf (e : jsError) : option string :=
  match e with
  | HostFailure what => Some what
  | _ => None
  end.

Definition console_warn (msg : string) : IO unit :=
  fun w => (Ok tt, mkWorld (disk w) (sent w) (warned w ++ [msg])).

(** [try { body } catch (e) { handler(e) }] *)
Definition tryCatch {X} (body : IO X) (handler : jsError -> IO X) : IO X :=
  fun w => match body w with
           | (Ok x, w') => (Ok x, w')
           | (Throw e, w') => handler e w'
           end.

(** [JSON.parse], given the parser of the values at hand; [None] is its
    syntax error. *)
Definition parseJson {X} (JSON_parse : string -> option X) (text : string)
  : outcome X :=
  match JSON_parse text with
  | Some v => Ok v
  | None => Throw (SyntaxError "JSON.parse")
  end.

(** ** req and fetchDdo *)

Definition DDO_BEFORE : string := "phApp.ddo = ".
Definition DDO_AFTER : string := "; phApp.sessionParams".
Definition MAX_RETRIES : nat := 5.

Section Fetch.

(** The value of a page's data object. *)
Variable Ddo : Type.
(** The server: its reply to a request, given the requests sent before. *)
Variable server : list HttpRequest -> HttpRequest -> reply.
(** [cheerio]: the texts of the script elements of a page, in order. *)
Variable scriptTexts : string -> list string.
Variable JSON_parse : string -> option Ddo.

Definition serverError (response : HttpResponse) : jsError :=
  JsError ("Server error (status " ++ numberToString (statusCode response)
             ++ ") while fetching " ++ href response).

(** [req]: the promise is rejected on an error and on a status from 500
    up, and resolved with the response otherwise. *)
Definition req (params : HttpRequest) : IO HttpResponse :=
  fun w =>
    let w' := mkWorld (disk w) (sent w ++ [params]) (warned w) in
    match server (sent w) params with
    | Failed error => (Throw error, w')
    | Replied response =>
        if statusCode response >=? 500 then (Throw (serverError response), w')
        else (Ok response, w')
    end.

(** The loop over the script elements: the first one that holds the
    opening marker decides. *)
Fixpoint extractDdo (scripts : list string) : outcome (option Ddo) :=
  match scripts with
  | [] => Ok None
  | js :: rest =>
      let start := indexOf js DDO_BEFORE 0 in
      if start =? -1 then extractDdo rest
      else
        match parseJson JSON_parse
                (stringSlice js (start + Z.of_nat (String.length DDO_BEFORE))
                             (indexOf js DDO_AFTER start)) with
        | Ok v => Ok (Some v)
        | Throw e => Throw e
        end
  end.

(** The loop [for (retry = 0; retry <= MAX_RETRIES; retry++)], with the
    number of rounds that are left: a rejected request is logged and
    followed by the next round; any response ends the loop. *)
Fixpoint fetchLoop (rounds : nat) (retry : Z) (params : HttpRequest)
  : IO (option Ddo) :=
  match rounds with
  | O => ret None
  | S rounds' =>
      attempt <-
        tryCatch (response <- req params ;; ret (Some response))
                 (fun error =>
                    console_warn ("Attempt " ++ numberToString retry
                                    ++ " failed with error:") ;;;
                    console_warn (messageOf error) ;;;
                    ret None) ;;
      match attempt with
      | None => fetchLoop rounds' (retry + 1) params
      | Some response =>
          if statusCode response <? 400
          then lift_outcome (extractDdo (scriptTexts (responseBody response)))
          else ret None
      end
  end.

Definition fetchDdo (uri : string) (qs : option (list (string * string)))
  : IO (option Ddo) :=
  fetchLoop (S MAX_RETRIES) 0 (mkRequest uri qs).

End Fetch.

(** ** jsonFromCache *)

Section Cache.

Variable V : Type.
Variable JSON_parse : string -> option V.
(** [JSON.stringify]; [None] is [undefined], its result for a value that
    JSON cannot print. *)
Variable JSON_stringify : V -> option string.
(** [fs.writeFile]: the code of its failure for a path that cannot be
    written, and what it makes of the data [undefined], which depends on
    the version of Node: the text to write, or an error. *)
Variable writeFailure : string -> option string.
Variable undefinedData : outcome string.

Definition readFile (path : string) : IO string :=
  fun w => match disk w path with
           | Missing => (Throw (HostFailure "ENOENT"), w)
           | Unreadable code => (Throw (HostFailure code), w)
           | Holds text => (Ok text, w)
           end.

Definition writeFile (path : string) (data : option string) : IO unit :=
  text <- lift_outcome (match data with
                        | Some text => Ok text
                        | None => undefinedData
                        end) ;;
  fun w => match writeFailure path with
           | Some code => (Throw (HostFailure code), w)
           | None =>
               (Ok tt,
                mkWorld (fun p => if String.eqb p path then Holds text else disk w p)
                        (sent w) (warned w))
           end.

Definition isENOENT (e : jsError) : bool :=
  match codeOf e with
  | Some code => String.eqb code "ENOENT"
  | None => false
  end.

Definition jsonFromCache (cachePath : string) (computeFn : IO V) : IO V :=
  tryCatch (text <- readFile cachePath ;; lift_outcome (parseJson JSON_parse text))
           (fun e =>
              if negb (isENOENT e) then throw e
              else
                value <- computeFn ;;
                writeFile cachePath (JSON_stringify value) ;;;
                ret value).

End Cache.

(** ** The pages of loadRaw *)



End Acquire.

(** ** Attempts of a fetch *)

(** A reply that makes [req] reject: an error, or a status from 500 up. *)
Definition rejected (r : Acquire.reply) : bool :=
  match r with
  | Acquire.Failed _ => true
  | Acquire.Replied response => Acquire.statusCode response >=? 500
  end.

(** The reply to the request [params] when it is sent for the time
    [i + 1] in a row, starting from the world [w]. *)
Definition replyTo (server : list Acquire.HttpRequest -> Acquire.HttpRequest
                             -> Acquire.reply)
           (w : Acquire.World) (params : Acquire.HttpRequest) (i : nat)
  : Acquire.reply :=
  server (Acquire.sent w ++ repeat params i) params.

(** The file system after [text] has been written to [path]. *)
Definition written (w : Acquire.World) (path text : string) : Acquire.World :=
  Acquire.mkWorld
    (fun p => if String.eqb p path then Acquire.Holds text else Acquire.disk w p)
    (Acquire.sent w) (Acquire.warned w).

(** A path with no file: reading it fails with the code ENOENT. *)
Definition absent (f : Acquire.file) : bool :=
  match f with
  | Acquire.Missing => true
  | Acquire.Unreadable code => String.eqb code "ENOENT"
  | Acquire.Holds _ => false
  end.

(** ** Occurrences of a marker *)

Fixpoint dropChars (n : nat) (s : string) : string :=
  match n, s with
  | S n', String _ rest => dropChars n' rest
  | _, _ => s
  end.

(** [pat] occurs in [s] at one of the first [n] positions. *)
Definition occursBefore (pat s : string) (n : nat) : bool :=
  existsb (fun k => String.prefix pat (dropChars k s)) (seq 0 n).

(** * Properties *)

(** ** Exceptions propagate *)

Lemma bind_throw {S A B} (m : SE S A) (f : A -> SE S B) (s : S) (e : jsError) :
  fst (m s) = Throw e -> fst (bind m f s) = Throw e.
Proof.
  unfold bind. destruct (m s) as [[a|e'] s']; simpl; congruence.
Qed.

(** ** The memory walker *)

Lemma dataViewGet_out (buf : list byte) (idx : Z) (size : nat) :
  byteLength buf < idx + Z.of_nat size ->
  dataViewGet buf idx size = Throw RangeError.
Proof.
  intros H. unfold dataViewGet.
  destruct (0 <=? idx); simpl; [|reflexivity].
  destruct (idx + Z.of_nat size <=? byteLength buf) eqn:E; [|reflexivity].
  apply Z.leb_le in E. lia.
Qed.

Lemma dataViewSet_out (buf : list byte) (idx : Z) (src : list byte) :
  byteLength buf < idx + byteLength src ->
  dataViewSet buf idx src = Throw RangeError.
Proof.
  intros H. unfold dataViewSet, byteLength in *.
  destruct (0 <=? idx); simpl; [|reflexivity].
  destruct (idx + Z.of_nat (List.length src) <=? Z.of_nat (List.length buf)) eqn:E;
    [|reflexivity].
  apply Z.leb_le in E. lia.
Qed.

Lemma typedArraySet_out (buf : list byte) (offset : Z) (src : list byte) :
  byteLength buf < offset + byteLength src ->
  typedArraySet buf offset src = Throw RangeError.
Proof.
  intros H. unfold typedArraySet, byteLength in *.
  destruct (offset <? 0); [reflexivity|].
  destruct (Z.of_nat (List.length buf) <? Z.of_nat (List.length src) + offset) eqn:E;
    [reflexivity|].
  apply Z.ltb_ge in E. lia.
Qed.

Lemma readFixed_out (size : nat) (decode : list byte -> Z) (w : MemoryWalker) :
  byteLength (buffer w) < next w + Z.of_nat size ->
  fst (Walker.readFixed size decode w) = Throw RangeError.
Proof.
  intros H. unfold Walker.readFixed, bind, get, lift_outcome.
  rewrite dataViewGet_out by exact H. reflexivity.
Qed.

Lemma discard_throw {A} (m : Walker.W A) (w : MemoryWalker) (e : jsError) :
  fst (m w) = Throw e -> fst (discard m w) = Throw e.
Proof.
  unfold discard, bind. destruct (m w) as [[a|e'] w']; simpl; congruence.
Qed.

(** The clamped slice reads inside the buffer only: it is a piece of it. *)
Lemma slice_inside (buf : list byte) (start stop : Z) :
  exists before after, buf = before ++ slice buf start stop ++ after.
Proof.
  unfold slice.
  set (first := Z.to_nat (clampIndex (byteLength buf) start)).
  set (n := Z.to_nat _).
  exists (firstn first buf), (skipn n (skipn first buf)).
  rewrite (firstn_skipn n (skipn first buf)).
  symmetry. apply firstn_skipn.
Qed.

Lemma slice_length (buf : list byte) (start stop : Z) :
  byteLength (slice buf start stop) <= byteLength buf.
Proof.
  destruct (slice_inside buf start stop) as (b & a & E).
  unfold byteLength. rewrite E at 2. rewrite !length_app. lia.
Qed.

Lemma readUInt8_out (w : MemoryWalker) :
  byteLength (buffer w) < next w + 1 ->
  fst (Walker.readUInt8 w) = Throw RangeError.
Proof.
  intros H. unfold Walker.readUInt8, bind, get, Walker.setNext, lift_outcome.
  simpl. rewrite dataViewGet_out by exact H. reflexivity.
Qed.

(** The scanning loop has fuel enough: it stops on a byte that is zero or
    outside the array. *)
Lemma scanToNul_stops (buf : list byte) (fuel : nat) (e : Z) :
  byteLength buf - e <= Z.of_nat fuel ->
  truthyAt buf (Walker.scanToNul fuel buf e) = false.
Proof.
  revert e. induction fuel as [|fuel IH]; intros e H; simpl.
  - unfold truthyAt, u8at.
    destruct (e <? byteLength buf) eqn:E.
    + apply Z.ltb_lt in E. lia.
    + rewrite andb_false_r. reflexivity.
  - destruct (truthyAt buf e) eqn:T; [|exact T].
    apply IH. lia.
Qed.

Lemma stringEnd_stops (buf : list byte) (start : Z) :
  0 <= start ->
  truthyAt buf (Walker.stringEnd buf start) = false.
Proof.
  intros H. apply scanToNul_stops. unfold byteLength. lia.
Qed.

(** C3, the claim as it is written fails: a slice that would end past the
    buffer is cut short without an error, and a string without its
    terminator is read up to the end of the buffer without an error; in
    both cases the walker is left past the end. *)
Lemma walker_reads_past_end_accepted :
  (byteLength [x01; x02] < resultingPosition (PReadSlice 5) (mkWalker [x01; x02] 0)
   /\ Walker.readSlice 5 (mkWalker [x01; x02] 0)
      = (Ok [x01; x02], mkWalker [x01; x02] 5)
   /\ rejects (perform utf8Decode (PReadSlice 5) (mkWalker [x01; x02] 0)) = false)
  /\
  (byteLength [x61; x62]
     < resultingPosition PReadNullTerminatedString (mkWalker [x61; x62] 0)
   /\ Walker.readNullTerminatedString utf8Decode (mkWalker [x61; x62] 0)
      = (Ok "ab", mkWalker [x61; x62] 3)
   /\ rejects (perform utf8Decode PReadNullTerminatedString (mkWalker [x61; x62] 0))
      = false).
Proof.
  repeat split; vm_compute; reflexivity.
Qed.

(** C3, amended: an operation whose resulting position exceeds the length
    of the buffer is rejected with a RangeError when it goes through a
    [DataView] accessor or [TypedArray.set], that is every fixed-width read,
    [readAndDereferencePointer], [writeUInt32LE] and [writeAll];
    [readSlice] and [readNullTerminatedString] are not rejected: they
    complete, leave the buffer as it was and leave the walker at that
    position past the end; the bytes [readSlice] returns are a piece of the
    buffer. *)
Theorem walker_bounds (decode : list byte -> string) (p : primitive)
        (w : MemoryWalker) :
  byteLength (buffer w) < resultingPosition p w ->
  (rangeChecked p = true -> fst (perform decode p w) = Throw RangeError)
  /\ (rangeChecked p = false ->
      perform decode p w = (Ok tt, mkWalker (buffer w) (resultingPosition p w)))
  /\ (forall len,
        p = PReadSlice len ->
        exists bytes before after,
          fst (Walker.readSlice len w) = Ok bytes
          /\ buffer w = before ++ bytes ++ after).
Proof.
  intros H. split; [|split]; [intros C|intros C|intros len _].
  - destruct p; simpl in C; try discriminate C; simpl in H; simpl perform.
    + apply discard_throw. unfold Walker.readBoolean.
      apply bind_throw. apply readUInt8_out. exact H.
    + apply discard_throw. apply readUInt8_out. exact H.
    + apply discard_throw. apply readFixed_out. exact H.
    + apply discard_throw. apply readFixed_out. exact H.
    + apply discard_throw. apply readFixed_out. exact H.
    + apply discard_throw. apply readFixed_out. exact H.
    + apply discard_throw. apply readFixed_out. exact H.
    + apply discard_throw. apply readFixed_out. exact H.
    + apply discard_throw. apply readFixed_out. exact H.
    + apply discard_throw. unfold Walker.readAndDereferencePointer.
      apply bind_throw. apply readFixed_out. exact H.
    + unfold Walker.writeUInt32LE, bind, get, lift_outcome.
      rewrite dataViewSet_out; [reflexivity|]. exact H.
    + unfold Walker.writeAll, bind, get, lift_outcome.
      rewrite typedArraySet_out; [reflexivity|]. exact H.
  - destruct p; simpl in C; try discriminate C; reflexivity.
  - destruct (slice_inside (buffer w) (next w) (next w + len))
      as (before & after & E).
    exists (slice (buffer w) (next w) (next w + len)), before, after.
    split; [reflexivity|exact E].
Qed.

Lemma walker_bounds_witness :
  byteLength (buffer (mkWalker [x01; x02] 0))
    < resultingPosition PReadUInt32LE (mkWalker [x01; x02] 0)
  /\ fst (perform utf8Decode PReadUInt32LE (mkWalker [x01; x02] 0))
     = Throw RangeError.
Proof.
  assert (H : byteLength (buffer (mkWalker [x01; x02] 0))
              < resultingPosition PReadUInt32LE (mkWalker [x01; x02] 0))
    by (vm_compute; reflexivity).
  split; [exact H|].
  apply (proj1 (walker_bounds utf8Decode PReadUInt32LE (mkWalker [x01; x02] 0) H)).
  reflexivity.
Defined.

(** ** The matcher *)

Lemma run_star_chr_cons {A} (p : ascii -> bool) (c : ascii) (s : string)
      (caps : Regex.captures) (k : string -> Regex.captures -> option A) :
  Regex.run (Regex.Star (Regex.Chr p)) (String c s) caps k =
  if p c
  then match Regex.run (Regex.Star (Regex.Chr p)) s caps k with
       | Some x => Some x
       | None => k (String c s) caps
       end
  else k (String c s) caps.
Proof.
  cbn [Regex.run Regex.iterate String.length].
  destruct (p c); [|reflexivity].
  rewrite (proj2 (Nat.ltb_lt _ _) (Nat.lt_succ_diag_r _)).
  reflexivity.
Qed.

Lemma run_seq {A} a b s caps (k : string -> Regex.captures -> option A) :
  Regex.run (Regex.Seq a b) s caps k
  = Regex.run a s caps (fun s' caps' => Regex.run b s' caps' k).
Proof. reflexivity. Qed.

Lemma run_chr {A} p s caps (k : string -> Regex.captures -> option A) :
  Regex.run (Regex.Chr p) s caps k
  = match s with
    | String c s' => if p c then k s' caps else None
    | EmptyString => None
    end.
Proof. reflexivity. Qed.

Lemma run_group {A} n a s caps (k : string -> Regex.captures -> option A) :
  Regex.run (Regex.Group n a) s caps k
  = Regex.run a s caps (fun s' caps' => k s' ((n, Regex.consumed s s') :: caps')).
Proof. reflexivity. Qed.

Lemma string_length_app (a b : string) :
  String.length (a ++ b)%string = (String.length a + String.length b)%nat.
Proof.
  induction a as [|c a IH]; simpl; [reflexivity|]. rewrite IH. reflexivity.
Qed.

Lemma string_app_assoc (a b c : string) :
  ((a ++ b) ++ c)%string = (a ++ (b ++ c))%string.
Proof.
  induction a as [|x a IH]; simpl; [reflexivity|]. rewrite IH. reflexivity.
Qed.

Lemma substring_prefix (a b : string) :
  substring 0 (String.length a) (a ++ b)%string = a.
Proof.
  induction a as [|c a IH]; simpl.
  - destruct b; reflexivity.
  - rewrite IH. reflexivity.
Qed.

Lemma consumed_app (pre rest : string) :
  Regex.consumed (pre ++ rest)%string rest = pre.
Proof.
  unfold Regex.consumed. rewrite string_length_app.
  replace (String.length pre + String.length rest - String.length rest)%nat
    with (String.length pre) by lia.
  apply substring_prefix.
Qed.

Lemma iterate_suffix {A}
      (step : string -> Regex.captures
              -> (string -> Regex.captures -> option A) -> option A)
      (k : string -> Regex.captures -> option A) :
  (forall s caps k' x,
      step s caps k' = Some x ->
      exists pre s' caps', s = (pre ++ s')%string /\ k' s' caps' = Some x) ->
  forall fuel s caps x,
    Regex.iterate step k fuel s caps = Some x ->
    exists pre s' caps', s = (pre ++ s')%string /\ k s' caps' = Some x.
Proof.
  intros Hstep. induction fuel as [|fuel IH]; intros s caps x H; simpl in H.
  - exists "", s, caps. split; [reflexivity|exact H].
  - destruct (step s caps _) as [y|] eqn:E.
    + injection H as ->.
      destruct (Hstep _ _ _ _ E) as (pre & s1 & caps1 & -> & K).
      destruct (String.length s1 <? String.length (pre ++ s1))%nat; [|discriminate K].
      destruct (IH _ _ _ K) as (pre2 & s2 & caps2 & -> & K2).
      exists (pre ++ pre2)%string, s2, caps2.
      split; [symmetry; apply string_app_assoc|exact K2].
    + exists "", s, caps. split; [reflexivity|exact H].
Qed.

(** What reaches the continuation of a match is the text without a prefix
    of it. *)
Lemma run_suffix {A} (r : Regex.re) :
  forall s caps (k : string -> Regex.captures -> option A) x,
    Regex.run r s caps k = Some x ->
    exists pre s' caps', s = (pre ++ s')%string /\ k s' caps' = Some x.
Proof.
  induction r as [accept| |a IHa b IHb|a IHa b IHb|a IHa|n a IHa|];
    intros s caps k x H; simpl in H.
  - destruct s as [|c s]; [discriminate H|].
    destruct (accept c); [|discriminate H].
    exists (String c ""), s, caps. split; [reflexivity|exact H].
  - exists "", s, caps. split; [reflexivity|exact H].
  - destruct (IHa _ _ _ _ H) as (pre1 & s1 & caps1 & -> & H1).
    destruct (IHb _ _ _ _ H1) as (pre2 & s2 & caps2 & -> & H2).
    exists (pre1 ++ pre2)%string, s2, caps2.
    split; [symmetry; apply string_app_assoc|exact H2].
  - destruct (Regex.run a s caps k) as [y|] eqn:E.
    + injection H as ->. exact (IHa _ _ _ _ E).
    + exact (IHb _ _ _ _ H).
  - eapply iterate_suffix; [|exact H]. exact IHa.
  - destruct (IHa _ _ _ _ H) as (pre & s1 & caps1 & -> & H1).
    eexists pre, s1, _. split; [reflexivity|exact H1].
  - destruct s; [|discriminate H].
    exists "", "", caps. split; [reflexivity|exact H].
Qed.

(** ** The pattern of a [t] value *)

Lemma star_notAmp_greedy {A} (s : string) caps
      (k : string -> Regex.captures -> option A) (x : A) :
  k (afterTerm s) caps = Some x ->
  Regex.run (Regex.Star (Regex.NoneOf "&")) s caps k = Some x.
Proof.
  induction s as [|c s IH]; intros H.
  - exact H.
  - unfold Regex.NoneOf in *. rewrite run_star_chr_cons.
    cbv beta.
    replace (Regex.inString "&" c) with (Ascii.eqb c "&")
      by (simpl; rewrite orb_false_r; reflexivity).
    simpl afterTerm in H.
    destruct (Ascii.eqb c "&"); cbn [negb].
    + exact H.
    + rewrite (IH H). reflexivity.
Qed.

Lemma afterTerm_length (s : string) :
  (String.length (afterTerm s) <= String.length s)%nat.
Proof.
  induction s as [|c s IH]; simpl; [lia|].
  destruct (Ascii.eqb c "&"); simpl; lia.
Qed.

Lemma afterTerm_head (s : string) :
  afterTerm s = "" \/ exists r, afterTerm s = String "&" r.
Proof.
  induction s as [|c s IH]; [left; reflexivity|].
  simpl. destruct (Ascii.eqb c "&") eqn:E; [|exact IH].
  right. exists s. apply Ascii.eqb_eq in E. subst c. reflexivity.
Qed.

Lemma consumed_term (s : string) :
  Regex.consumed s (afterTerm s) = termOf s.
Proof.
  unfold Regex.consumed.
  induction s as [|c s IH]; [reflexivity|].
  simpl afterTerm. simpl termOf.
  destruct (Ascii.eqb c "&").
  - rewrite Nat.sub_diag. reflexivity.
  - pose proof (afterTerm_length s) as L.
    replace (String.length (String c s) - String.length (afterTerm s))%nat
      with (S (String.length s - String.length (afterTerm s)))
      by (change (String.length (String c s)) with (S (String.length s)); lia).
    simpl. rewrite IH. reflexivity.
Qed.

Lemma matchHere_termPattern (v : string) :
  Regex.matchHere termPattern v =
  if patternShape v then
    match v with
    | String d (String _ body) =>
        Some ([(2%nat, termOf body); (1%nat, String d "")],
              match afterTerm body with
              | String _ r => r
              | EmptyString => ""
              end)
    | _ => None
    end
  else None.
Proof.
  unfold Regex.matchHere, termPattern.
  rewrite run_seq, run_group. unfold Regex.OneOf. rewrite run_chr.
  destruct v as [|d v]; [reflexivity|].
  cbn [patternShape].
  destruct v as [|u v].
  { destruct (Regex.inString "012" d); reflexivity. }
  destruct (Regex.inString "012" d) eqn:D; [|destruct v; reflexivity].
  rewrite run_seq. cbn [Regex.Lit]. rewrite run_seq, run_chr.
  rewrite (Ascii.eqb_sym "_" u).
  destruct (Ascii.eqb u "_") eqn:U; [|destruct v; reflexivity].
  cbn [Regex.run]. fold (@Regex.run (Regex.captures * string)).
  replace (Regex.consumed (String d (String u v)) (String u v)) with (String d "")
    by (unfold Regex.consumed;
        replace (String.length (String d (String u v)) - String.length (String u v))%nat
          with 1%nat by (cbn [String.length]; lia);
        reflexivity).
  unfold Regex.Plus. rewrite run_seq. unfold Regex.NoneOf at 1. rewrite run_chr.
  destruct v as [|c v]; [reflexivity|].
  replace (Regex.inString "&" c) with (Ascii.eqb c "&")
    by (simpl; rewrite orb_false_r; reflexivity).
  cbn [andb].
  destruct (Ascii.eqb c "&") eqn:C; cbn [negb]; [reflexivity|].
  apply star_notAmp_greedy.
  pose proof (consumed_term (String c v)) as T.
  simpl afterTerm in T. simpl termOf in T. rewrite C in T.
  rewrite T. simpl afterTerm. simpl termOf. rewrite C.
  destruct (afterTerm_head v) as [E|[r E]]; rewrite E; reflexivity.
Qed.

(** ** decodeURIComponent *)

Lemma readEscape_length (s after : string) (b : Z) :
  readEscape s = Some (b, after) ->
  String.length s = (3 + String.length after)%nat.
Proof.
  unfold readEscape.
  destruct s as [|c [|h [|l rest]]]; try discriminate;
    try (destruct (Ascii.eqb_spec c "%") as [->|N];
         [discriminate|destruct c as [[] [] [] [] [] [] [] []]; discriminate]).
  destruct c as [[] [] [] [] [] [] [] []]; try discriminate.
  destruct (hexValue h); [|discriminate].
  destruct (hexValue l); [|discriminate].
  intros H. injection H as _ <-. reflexivity.
Qed.

Lemma readEscapes_length (n : nat) :
  forall s bs after,
    readEscapes n s = Some (bs, after) ->
    (String.length after <= String.length s)%nat.
Proof.
  induction n as [|n IH]; intros s bs after H; simpl in H.
  - injection H as _ <-. lia.
  - destruct (readEscape s) as [[b rest]|] eqn:E; [|discriminate H].
    destruct (readEscapes n rest) as [[bs' rest']|] eqn:E'; [|discriminate H].
    injection H as _ <-.
    apply readEscape_length in E. apply IH in E'. lia.
Qed.

(** The fuel of [decodeLoop] is enough: more gives the same result. *)
Lemma decodeLoop_fuel (fuel : nat) :
  forall s, (String.length s <= fuel)%nat ->
            decodeLoop fuel s = decodeLoop (String.length s) s.
Proof.
  induction fuel as [fuel IH] using lt_wf_ind. intros s L.
  destruct s as [|c s].
  { destruct fuel; reflexivity. }
  destruct fuel as [|fuel]; [simpl in L; lia|].
  cbn [decodeLoop String.length]. simpl in L.
  destruct (Ascii.eqb c "%").
  - destruct (readEscape (String c s)) as [[b after]|] eqn:E; [|reflexivity].
    apply readEscape_length in E. simpl in E.
    destruct (leadingOnes b) as [|[|n]].
    + rewrite (IH fuel) by lia. rewrite (IH (String.length s)) by lia.
      reflexivity.
    + reflexivity.
    + destruct (4 <? S (S n))%nat; [reflexivity|].
      destruct (readEscapes (S n) after) as [[bs after']|] eqn:E'; [|reflexivity].
      apply readEscapes_length in E'.
      destruct (validUtf8 (b :: bs)); [|reflexivity].
      rewrite (IH fuel) by lia. rewrite (IH (String.length s)) by lia.
      reflexivity.
  - rewrite (IH fuel) by lia. reflexivity.
Qed.

(** A text without a percent sign decodes to itself. *)
Lemma decodeURIComponent_plain (s : string) :
  Regex.inString s "%" = false -> decodeURIComponent s = Ok s.
Proof.
  unfold decodeURIComponent.
  induction s as [|c s IH]; [reflexivity|].
  cbn [Regex.inString decodeLoop String.length]. intros H.
  apply orb_false_iff in H. destruct H as [H1 H2].
  rewrite Ascii.eqb_sym in H1. rewrite H1, (IH H2). reflexivity.
Qed.

(** ** parseQuery *)

Lemma matchHere_none_iff (v : string) :
  Regex.matchHere termPattern v = None <-> patternShape v = false.
Proof.
  rewrite matchHere_termPattern.
  destruct (patternShape v) eqn:P.
  - destruct v as [|d [|u body]]; simpl in P; try discriminate P.
    split; intros H; discriminate H.
  - split; reflexivity.
Qed.

Lemma parseLoop_malformed_iff (termsRaw : list string) (acc : ParsedQuery) :
  (exists r, parseLoop termsRaw acc = Ok r) ->
  (parseLoop termsRaw acc = Ok None
   <-> existsb (fun v => negb (patternShape v)) termsRaw = true).
Proof.
  revert acc. induction termsRaw as [|v rest IH]; intros acc [r Hr]; simpl in *.
  - split; intros H; discriminate H.
  - destruct (Regex.matchHere termPattern v) as [[matches after]|] eqn:E.
    + assert (P : patternShape v = true).
      { destruct (patternShape v) eqn:P; [reflexivity|].
        apply matchHere_none_iff in P. congruence. }
      rewrite P. simpl.
      destruct (decodeURIComponent (Regex.group 2 matches)) as [term|e];
        [|discriminate Hr].
      apply IH. exists r. exact Hr.
    + apply matchHere_none_iff in E. rewrite E. simpl.
      split; reflexivity.
Qed.

Lemma mode_digit (d : ascii) :
  Regex.inString "012" d = true ->
  (Z.to_nat (orZero (parseInt10 (String d ""))) < 3)%nat.
Proof.
  simpl. intros H.
  repeat (apply orb_true_iff in H; destruct H as [H|H]);
    try discriminate H; apply Ascii.eqb_eq in H; subst d; vm_compute; lia.
Qed.

Lemma termCountOf_shift {A} (query : list (list A)) (n : Z) :
  fold_left (fun count modeTerms => count + Z.of_nat (List.length modeTerms)) query n
  = n + termCountOf query.
Proof.
  unfold termCountOf. revert n.
  induction query as [|l query IH]; intros n; simpl; [lia|].
  rewrite IH. rewrite (IH (Z.of_nat _)). lia.
Qed.

Lemma termCountOf_cons {A} (l : list A) (query : list (list A)) :
  termCountOf (l :: query) = Z.of_nat (List.length l) + termCountOf query.
Proof.
  unfold termCountOf at 1. simpl. apply termCountOf_shift.
Qed.

Lemma pushAt_count (mode : nat) (term : string) (modeTerms : ParsedQuery) :
  (mode < List.length modeTerms)%nat ->
  termCountOf (pushAt mode term modeTerms) = termCountOf modeTerms + 1
  /\ List.length (pushAt mode term modeTerms) = List.length modeTerms.
Proof.
  revert mode. induction modeTerms as [|l ls IH]; intros mode H; simpl in H.
  - lia.
  - destruct mode as [|mode]; simpl.
    + rewrite !termCountOf_cons, length_app. simpl. lia.
    + destruct (IH mode) as [C L]; [lia|].
      rewrite !termCountOf_cons, C, L. lia.
Qed.

(** A parsed query has one term for each value of [t]. *)
Lemma parseLoop_count (termsRaw : list string) (acc query : ParsedQuery) :
  List.length acc = 3%nat ->
  parseLoop termsRaw acc = Ok (Some query) ->
  termCountOf query = termCountOf acc + Z.of_nat (List.length termsRaw)
  /\ List.length query = 3%nat.
Proof.
  revert acc. induction termsRaw as [|v rest IH]; intros acc L H; simpl in H.
  - injection H as <-. simpl. split; [lia|exact L].
  - rewrite matchHere_termPattern in H.
    destruct (patternShape v) eqn:P; [|discriminate H].
    destruct v as [|d [|u body]]; try discriminate P.
    cbn [Regex.group Nat.eqb] in H.
    destruct (decodeURIComponent (termOf body)) as [term|e]; [|discriminate H].
    assert (D : Regex.inString "012" d = true).
    { simpl in P. destruct body; [discriminate P|].
      apply andb_true_iff in P. destruct P as [P _].
      apply andb_true_iff in P. apply P. }
    pose proof (mode_digit d D) as M.
    destruct (@pushAt_count (Z.to_nat (orZero (parseInt10 (String d "")))) term acc)
      as [C L']; [lia|].
    destruct (IH _ (eq_trans L' L) H) as [C' L''].
    split; [|exact L''].
    rewrite C', C. cbn [List.length]. lia.
Qed.

Lemma parseQuery_count (termsRaw : list string) (query : ParsedQuery) :
  parseQuery termsRaw = Ok (Some query) ->
  termCountOf query = Z.of_nat (List.length termsRaw).
Proof.
  intros H. apply parseLoop_count in H; [|reflexivity].
  destruct H as [H _]. rewrite H. reflexivity.
Qed.

(** ** The request handler up to its first wait *)

Section HandlerStart.

Variable G : Type.
Variable queryRunner : QueryRunner G.
Variable KV_get : string -> outcome (list byte).
Variable limits : Limits.

Lemma handleSearch_start_eq (url : SearchParams) (w : World G) (z : Z)
      (i : Instance G) :
  reset queryRunner (instance w) = (Ok z, i) ->
  handleSearch_start queryRunner limits url w =
  match parseQuery (t_values url) with
  | Throw e => (Throw e, afterReset w i)
  | Ok None => (Ok (inl malformedResponse), afterReset w i)
  | Ok (Some query) =>
      if termCountOf query >? MAX_QUERY_TERMS limits
      then (Ok (inl tooManyTermsResponse), afterReset w i)
      else
        match locateTerms queryRunner query (afterReset w i) with
        | (Ok pendings, w') =>
            (Ok (inr (Z.max 0 (orZero (parseInt10
                                         match c_value url with
                                         | Some c => c
                                         | None => ""
                                         end)), pendings)), w')
        | (Throw e, w') => (Throw e, w')
        end
  end.
Proof.
  intros R.
  unfold handleSearch_start, bind, invoke, emit, dispatch, lift_outcome, bind.
  cbn [instance trace]. rewrite R.
  destruct (parseQuery (t_values url)) as [[query|]|e]; try reflexivity.
  destruct (termCountOf query >? MAX_QUERY_TERMS limits); reflexivity.
Qed.


Lemma handleSearch_reset_throws (url : SearchParams) (w : World G)
      (e : jsError) (i : Instance G) :
  reset queryRunner (instance w) = (Throw e, i) ->
  fst (handleSearch queryRunner KV_get limits url w) = Throw e.
Proof.
  intros R.
  unfold handleSearch, handleSearch_start, bind, invoke, emit, dispatch, bind.
  cbn [instance trace]. rewrite R. reflexivity.
Qed.

Lemma handleSearch_terms_inl (continuation : Z)
      (pendings : list (list (option Pending))) (w w' : World G)
      (r : Response) :
  handleSearch_terms queryRunner KV_get continuation pendings w
  = (Ok (inl r), w') ->
  r = responseNoResults.
Proof.
  unfold handleSearch_terms, bind.
  destruct (collectTerms queryRunner KV_get pendings w) as [[bms|e] w1];
    [|discriminate].
  destruct (console_log _ w1) as [[u|e] w2]; [|discriminate].
  destruct (existsb isNone (nth 0 bms [])).
  - unfold ret. intros H. injection H as <- _. reflexivity.
  - match goal with |- context [forallb ?f ?l] => destruct (forallb f l) end.
    + destruct (KV_issue _ w2) as [[u'|e] w3]; discriminate.
    + destruct (buildIndexQuery _ _ _ w2) as [[data|e] w3]; [|discriminate].
      destruct (console_log _ w3) as [[u'|e] w4]; [|discriminate].
      destruct (executePostingsListQuery _ _ w4) as [[[result|]|e] w5];
        try discriminate.
      destruct (console_log _ w5) as [[u''|e] w6]; [|discriminate].
      destruct (mapM _ _ w6) as [[docs|e] w7]; discriminate.
Qed.

Lemma handleSearch_finish_status (waiting : Waiting) (w w' : World G)
      (r : Response) :
  handleSearch_finish queryRunner KV_get waiting w = (Ok r, w') ->
  status r = 200.
Proof.
  destruct waiting as [|result prefix pendings]; unfold handleSearch_finish, bind.
  - destruct (KV_await KV_get "default" w) as [[listing|e] w1]; [|discriminate].
    unfold ret. intros H. injection H as <- _. reflexivity.
  - destruct (mapM _ pendings w) as [[found|e] w1]; [|discriminate].
    destruct (console_log _ w1) as [[u|e] w2]; [|discriminate].
    unfold ret. intros H. injection H as <- _. reflexivity.
Qed.

(** Every response of the handler is one of four kinds. *)
Lemma handleSearch_responses (url : SearchParams) (w w' : World G)
      (r : Response) (z : Z) (i : Instance G) :
  reset queryRunner (instance w) = (Ok z, i) ->
  handleSearch queryRunner KV_get limits url w = (Ok r, w') ->
  (r = malformedResponse /\ w' = afterReset w i
   /\ parseQuery (t_values url) = Ok None)
  \/ (r = tooManyTermsResponse /\ w' = afterReset w i)
  \/ status r = 200.
Proof.
  intros R H. unfold handleSearch, bind in H.
  rewrite (handleSearch_start_eq url w R) in H.
  destruct (parseQuery (t_values url)) as [[query|]|e]; [| |discriminate H].
  - destruct (termCountOf query >? MAX_QUERY_TERMS limits).
    + unfold ret in H. injection H as <- <-. right. left. split; reflexivity.
    + destruct (locateTerms queryRunner query (afterReset w i))
        as [[pendings|e] w1]; [|discriminate H].
      destruct (handleSearch_terms _ _ _ _ w1) as [[[r1|waiting]|e] w2] eqn:T;
        [| |discriminate H].
      * unfold ret in H. injection H as <- <-.
        apply handleSearch_terms_inl in T. subst r1. right. right. reflexivity.
      * right. right. exact (handleSearch_finish_status _ _ H).
  - unfold ret in H. injection H as <- <-. left. repeat split; reflexivity.
Qed.

(** C7, amended: when [reset] returns and decoding the terms raises no
    exception, the request is answered 400 "Malformed query", with no
    effect besides the call of [reset], exactly when some value of [t] is
    not a digit from 0 to 2, an underscore and then at least one character
    that is not an ampersand; a value such as 0_&x, whose term is not
    empty but begins with an ampersand, is rejected too. *)
Theorem malformed_query_rejected (url : SearchParams) (w : World G) (z : Z)
        (i : Instance G) :
  reset queryRunner (instance w) = (Ok z, i) ->
  (exists q, parseQuery (t_values url) = Ok q) ->
  (existsb (fun v => negb (patternShape v)) (t_values url) = true ->
   handleSearch queryRunner KV_get limits url w
   = (Ok malformedResponse, afterReset w i))
  /\ (forall r w',
        handleSearch queryRunner KV_get limits url w = (Ok r, w') ->
        status r = 400 ->
        existsb (fun v => negb (patternShape v)) (t_values url) = true
        /\ r = malformedResponse /\ w' = afterReset w i).
Proof.
  intros R P. split.
  - intros E. apply (parseLoop_malformed_iff _ _ P) in E.
    unfold handleSearch, bind. rewrite (handleSearch_start_eq url w R).
    unfold parseQuery. rewrite E. reflexivity.
  - intros r w' H S.
    destruct (handleSearch_responses url w R H) as [(-> & -> & N)|[(-> & _)|S']].
    + split; [|split; reflexivity].
      apply (parseLoop_malformed_iff _ _ P). exact N.
    + discriminate S.
    + rewrite S' in S. discriminate S.
Qed.

(** C8: when [reset] returns and the values of [t] parse to a query with
    more terms, over the three modes, than [MAX_QUERY_TERMS], the response
    is the 413 "Too many terms" error, and the request has had no effect
    besides the call of [reset]: no chunk was fetched. *)
Theorem too_many_terms_rejected (url : SearchParams) (w : World G) (z : Z)
        (i : Instance G) (query : ParsedQuery) :
  reset queryRunner (instance w) = (Ok z, i) ->
  parseQuery (t_values url) = Ok (Some query) ->
  termCountOf query > MAX_QUERY_TERMS limits ->
  handleSearch queryRunner KV_get limits url w
  = (Ok tooManyTermsResponse, afterReset w i)
  /\ status tooManyTermsResponse = 413
  /\ trace (afterReset w i) = trace w ++ [EvCall CReset].
Proof.
  intros R P C. split; [|split; reflexivity].
  unfold handleSearch, bind. rewrite (handleSearch_start_eq url w R), P.
  rewrite (proj2 (Z.gtb_gt _ _) C). reflexivity.
Qed.

End HandlerStart.

Lemma malformed_query_rejected_witness :
  reset Fixture.queryRunner (instance Fixture.fresh) = (Ok 0, Fixture.loaded)
  /\ (exists q, parseQuery (t_values (mkParams ["9_foo"] None)) = Ok q)
  /\ handleSearch Fixture.queryRunner Fixture.KV_get Fixture.limits
                  (mkParams ["9_foo"] None) Fixture.fresh
     = (Ok malformedResponse, afterReset Fixture.fresh Fixture.loaded).
Proof.
  assert (R : reset Fixture.queryRunner (instance Fixture.fresh)
              = (Ok 0, Fixture.loaded)) by reflexivity.
  assert (P : exists q, parseQuery (t_values (mkParams ["9_foo"] None)) = Ok q)
    by (exists None; vm_compute; reflexivity).
  split; [exact R|]. split; [exact P|].
  apply (proj1 (malformed_query_rejected Fixture.queryRunner Fixture.KV_get
                  Fixture.limits (mkParams ["9_foo"] None) Fixture.fresh R P)).
  vm_compute. reflexivity.
Defined.

(** C7, the claim as it is written fails in both directions.  The value
    0_&x has the documented shape, a digit, an underscore and a term that is
    not empty, and the request is rejected as malformed.  The value 9_foo
    has not, and the request that carries it after 0_% is not answered 400:
    decoding the first term raises a URIError. *)
Lemma malformed_query_claim_fails :
  (specShape "0_&x" = true
   /\ Fixture.search_of ["0_&x"] None
      = (Ok malformedResponse, afterReset Fixture.fresh Fixture.loaded))
  /\ (specShape "9_foo" = false
      /\ fst (Fixture.search_of ["0_%"; "9_foo"] None) = Throw URIError).
Proof.
  split; split; vm_compute; reflexivity.
Qed.

Lemma too_many_terms_rejected_witness :
  reset Fixture.queryRunner (instance Fixture.fresh) = (Ok 0, Fixture.loaded)
  /\ parseQuery (t_values (mkParams ["0_a"; "0_b"; "1_c"; "2_d"] None))
     = Ok (Some [["a"; "b"]; ["c"]; ["d"]])
  /\ termCountOf [["a"; "b"]; ["c"]; ["d"]] > MAX_QUERY_TERMS Fixture.limits
  /\ handleSearch Fixture.queryRunner Fixture.KV_get Fixture.limits
                  (mkParams ["0_a"; "0_b"; "1_c"; "2_d"] None) Fixture.fresh
     = (Ok tooManyTermsResponse, afterReset Fixture.fresh Fixture.loaded).
Proof.
  assert (R : reset Fixture.queryRunner (instance Fixture.fresh)
              = (Ok 0, Fixture.loaded)) by reflexivity.
  assert (P : parseQuery (t_values (mkParams ["0_a"; "0_b"; "1_c"; "2_d"] None))
              = Ok (Some [["a"; "b"]; ["c"]; ["d"]])) by (vm_compute; reflexivity).
  assert (C : termCountOf [["a"; "b"]; ["c"]; ["d"]] > MAX_QUERY_TERMS Fixture.limits)
    by (vm_compute; reflexivity).
  split; [exact R|]. split; [exact P|]. split; [exact C|].
  exact (proj1 (too_many_terms_rejected Fixture.queryRunner Fixture.KV_get
                  Fixture.limits (mkParams ["0_a"; "0_b"; "1_c"; "2_d"] None)
                  Fixture.fresh R P C)).
Defined.

(** C10: the value 0_100% has the shape of a [t] value and the pattern
    accepts it, but its term is not a valid percent-encoding: parsing raises
    a URIError, and the request ends with an exception, not with a
    response. *)
Theorem double_decoding_raises :
  specShape "0_100%" = true
  /\ patternShape "0_100%" = true
  /\ decodeURIComponent "100%" = Throw URIError
  /\ parseQuery ["0_100%"] = Throw URIError
  /\ forall (G : Type) (queryRunner : QueryRunner G)
        (KV_get : string -> outcome (list byte)) (limits : Limits)
        (c : option string) (w : World G),
      exists e,
        fst (handleSearch queryRunner KV_get limits (mkParams ["0_100%"] c) w)
        = Throw e
        /\ (e = URIError \/ fst (reset queryRunner (instance w)) = Throw e).
Proof.
  split; [vm_compute; reflexivity|].
  split; [vm_compute; reflexivity|].
  split; [vm_compute; reflexivity|].
  split; [vm_compute; reflexivity|].
  intros G queryRunner KV_get limits c w.
  destruct (reset queryRunner (instance w)) as [[z|e] i] eqn:R.
  - exists URIError. split; [|left; reflexivity].
    unfold handleSearch, bind.
    rewrite (handleSearch_start_eq queryRunner limits (mkParams ["0_100%"] c) w R).
    cbn [t_values].
    replace (parseQuery ["0_100%"]) with (@Throw (option ParsedQuery) URIError)
      by (vm_compute; reflexivity).
    reflexivity.
  - exists e. split; [|right; reflexivity].
    exact (handleSearch_reset_throws queryRunner KV_get limits (mkParams ["0_100%"] c) w R).
Qed.

(** ** Traces *)

Section Traces.

Variable G : Type.
Variable queryRunner : QueryRunner G.
Variable KV_get : string -> outcome (list byte).
Variable P : event -> bool.

Lemma appends_ret {A} (a : A) : appends P (@ret (World G) A a).
Proof.
  intros w r w' H. injection H as _ <-. exists []. rewrite app_nil_r.
  split; reflexivity.
Qed.

Lemma appends_throw {A} (e : jsError) : appends P (@throw (World G) A e).
Proof.
  intros w r w' H. injection H as _ <-. exists []. rewrite app_nil_r.
  split; reflexivity.
Qed.

Lemma appends_lift {A} (o : outcome A) : appends P (@lift_outcome (World G) A o).
Proof.
  intros w r w' H. injection H as _ <-. exists []. rewrite app_nil_r.
  split; reflexivity.
Qed.

Lemma appends_bind {A B} (m : M G A) (f : A -> M G B) :
  appends P m -> (forall a, appends P (f a)) -> appends P (bind m f).
Proof.
  intros Hm Hf w r w' H. unfold bind in H.
  destruct (m w) as [[a|e] w1] eqn:E.
  - destruct (Hm _ _ _ E) as (evs1 & T1 & F1).
    destruct (Hf a _ _ _ H) as (evs2 & T2 & F2).
    exists (evs1 ++ evs2). rewrite T2, T1, app_assoc, forallb_app, F1, F2.
    split; reflexivity.
  - injection H as _ <-. exact (Hm _ _ _ E).
Qed.

Lemma appends_emit (e : event) : P e = true -> appends P (@emit G e).
Proof.
  intros Pe w r w' H. injection H as _ <-. exists [e]. simpl.
  rewrite Pe. split; reflexivity.
Qed.

Lemma appends_invoke (c : call) :
  P (EvCall c) = true -> appends P (invoke queryRunner c).
Proof.
  intros Pc w r w' H. unfold invoke, bind, emit in H. cbn [instance trace] in H.
  destruct (dispatch queryRunner c (instance w)) as [r0 i].
  injection H as _ <-. exists [EvCall c]. simpl. rewrite Pc.
  split; reflexivity.
Qed.

Lemma appends_onMemory {A} (ptr : Z) (op : Walker.W A) :
  appends P (@onMemory G A ptr op).
Proof.
  intros w r w' H. unfold onMemory in H.
  destruct (op _) as [r0 wk]. injection H as _ <-.
  exists []. rewrite app_nil_r. split; reflexivity.
Qed.

Lemma appends_onInput (op : Walker.W unit) (input : MemoryWalker) :
  appends P (@onInput G op input).
Proof.
  intros w r w' H. unfold onInput in H.
  destruct (op input) as [[u|e] input']; injection H as _ <-;
    exists []; rewrite app_nil_r; split; reflexivity.
Qed.

Lemma appends_mapM {A B} (f : A -> M G B) (xs : list A) :
  (forall x, appends P (f x)) -> appends P (mapM f xs).
Proof.
  intros Hf. induction xs as [|x xs IH]; simpl.
  - apply appends_ret.
  - apply appends_bind; [apply Hf|].
    intros y. apply appends_bind; [exact IH|].
    intros ys. apply appends_ret.
Qed.

End Traces.

(** One step of a proof that a computation only appends events of a kind:
    the structure of the computation is followed, and an event is checked
    by evaluation, or from the assumption on the kind at hand. *)
Ltac event_ok :=
  first [ reflexivity
        | match goal with
          | H : forall e, _ -> _ e = true |- _ => apply H; reflexivity
          end ].

Ltac appends_step :=
  match goal with
  | |- appends _ (ret _) => apply appends_ret
  | |- appends _ (throw _) => apply appends_throw
  | |- appends _ (lift_outcome _) => apply appends_lift
  | |- appends _ (KV_await _ _) => apply appends_lift
  | |- appends _ (onMemory _ _) => apply appends_onMemory
  | |- appends _ (onInput _ _) => apply appends_onInput
  | |- appends _ (emit _) => apply appends_emit; event_ok
  | |- appends _ (console_log _) => apply appends_emit; event_ok
  | |- appends _ (KV_issue _) => apply appends_emit; event_ok
  | |- appends _ (invoke _ _) => apply appends_invoke; event_ok
  | |- appends _ (bind _ _) => apply appends_bind; [|intros ?]
  | |- appends _ (mapM _ _) => apply appends_mapM; intros ?
  | |- appends _ (if ?c then _ else _) => destruct c
  | |- appends _ (match ?x with _ => _ end) => destruct x
  end.

Ltac appends_auto := repeat appends_step.

Section Lookups.

Variable G : Type.
Variable queryRunner : QueryRunner G.
Variable KV_get : string -> outcome (list byte).
Variable P : event -> bool.
Hypothesis lookups : forall e, lookupEvent e = true -> P e = true.

Lemma appends_locate (k : key) (prefix : string) :
  appends P (findInChunks_locate queryRunner k prefix).
Proof.
  unfold findInChunks_locate. appends_auto.
Qed.

Lemma appends_search (p : Pending) :
  appends P (findInChunks_search queryRunner KV_get p).
Proof.
  unfold findInChunks_search. appends_auto.
Qed.

Lemma appends_resume (p : option Pending) :
  appends P (resume queryRunner KV_get p).
Proof.
  unfold resume. appends_auto. apply appends_search.
Qed.

Lemma appends_locateTerms (query : ParsedQuery) :
  appends P (locateTerms queryRunner query).
Proof.
  unfold locateTerms. appends_auto. apply appends_locate.
Qed.

Lemma appends_collectTerms (pendings : list (list (option Pending))) :
  appends P (collectTerms queryRunner KV_get pendings).
Proof.
  unfold collectTerms. appends_auto. apply appends_resume.
Qed.

End Lookups.

(** ** The request handler after the term chunks have arrived *)

Section HandlerTerms.

Variable G : Type.
Variable queryRunner : QueryRunner G.
Variable KV_get : string -> outcome (list byte).
Variable limits : Limits.

Lemma forallb_notEvaluator (evs : list event) :
  forallb lookupEvent evs = true -> existsb isEvaluatorCall evs = false.
Proof.
  induction evs as [|e evs IH]; simpl; [reflexivity|].
  intros H. apply andb_true_iff in H. destruct H as [He H].
  rewrite (IH H), orb_false_r.
  destruct e as [[]| |]; try reflexivity; discriminate He.
Qed.

(** The handler up to the point where the bitmaps of the terms are known. *)
Lemma handleSearch_resolved (url : SearchParams) (w w1 : World G) (z : Z)
      (i : Instance G) (query : ParsedQuery)
      (bitmaps : list (list (option (list byte)))) :
  reset queryRunner (instance w) = (Ok z, i) ->
  parseQuery (t_values url) = Ok (Some query) ->
  termCountOf query <= MAX_QUERY_TERMS limits ->
  findSerialisedTermBitmaps queryRunner KV_get query (afterReset w i)
  = (Ok bitmaps, w1) ->
  exists pendings w0,
    handleSearch_start queryRunner limits url w
    = (Ok (inr (Z.max 0 (orZero (parseInt10 match c_value url with
                                             | Some c => c
                                             | None => ""
                                             end)), pendings)), w0)
    /\ collectTerms queryRunner KV_get pendings w0 = (Ok bitmaps, w1)
    /\ exists evs, trace w1 = trace w ++ EvCall CReset :: evs
                   /\ forallb lookupEvent evs = true.
Proof.
  intros R Q C F.
  rewrite (handleSearch_start_eq queryRunner limits url w R), Q.
  destruct (termCountOf query >? MAX_QUERY_TERMS limits) eqn:T.
  { apply Z.gtb_gt in T. lia. }
  unfold findSerialisedTermBitmaps, bind in F.
  destruct (locateTerms queryRunner query (afterReset w i))
    as [[pendings|e] w0] eqn:L; [|discriminate F].
  exists pendings, w0. split; [reflexivity|]. split; [exact F|].
  destruct (@appends_locateTerms G queryRunner lookupEvent (fun e H => H)
              query _ _ _ L) as (evs1 & T1 & F1).
  destruct (@appends_collectTerms G queryRunner KV_get lookupEvent (fun e H => H)
              pendings _ _ _ F) as (evs2 & T2 & F2).
  exists (evs1 ++ evs2). split.
  - rewrite T2, T1. unfold afterReset. cbn [trace].
    rewrite <- !app_assoc. reflexivity.
  - rewrite forallb_app, F1, F2. reflexivity.
Qed.

(** C5: when the terms of a request have been resolved and some Require
    term resolved to nothing, the response is the raw JSON
    {"results":[],"continuation":null,"total":0} and the evaluator has not
    been called, whatever the other terms are. *)
Theorem absent_require_term_gives_no_results
        (url : SearchParams) (w w1 : World G) (z : Z) (i : Instance G)
        (query : ParsedQuery) (bitmaps : list (list (option (list byte)))) :
  reset queryRunner (instance w) = (Ok z, i) ->
  parseQuery (t_values url) = Ok (Some query) ->
  termCountOf query <= MAX_QUERY_TERMS limits ->
  findSerialisedTermBitmaps queryRunner KV_get query (afterReset w i)
  = (Ok bitmaps, w1) ->
  existsb isNone (nth 0 bitmaps []) = true ->
  exists w' evs,
    handleSearch queryRunner KV_get limits url w = (Ok responseNoResults, w')
    /\ body responseNoResults
       = Some ("{" ++ dq ++ "results" ++ dq ++ ":[]," ++ dq ++ "continuation"
                   ++ dq ++ ":null," ++ dq ++ "total" ++ dq ++ ":0}")%string
    /\ trace w' = trace w ++ evs
    /\ existsb isEvaluatorCall evs = false.
Proof.
  intros R Q C F N.
  destruct (handleSearch_resolved url w R Q C F)
    as (pendings & w0 & S & K & evs & T & L).
  exists (mkWorld (instance w1) (trace w1 ++ [EvLog "Bit sets retrieved"])),
         (EvCall CReset :: evs ++ [EvLog "Bit sets retrieved"]).
  split; [|split; [reflexivity|split]].
  - unfold handleSearch, bind. rewrite S.
    unfold handleSearch_terms, bind. rewrite K.
    unfold console_log, emit. rewrite N. reflexivity.
  - cbn [trace]. rewrite T. rewrite <- app_assoc. reflexivity.
  - cbn [existsb isEvaluatorCall]. rewrite existsb_app.
    rewrite (forallb_notEvaluator evs L). reflexivity.
Qed.

(** C6: when [reset] returns and the default listing can be read, a
    request whose Require list is empty and whose Contain and Exclude
    terms all resolved to nothing, so that all three lists are empty once
    these are dropped, is answered 200 with the listing, decoded as text,
    wrapped as {"results":<listing>,"continuation":null,"total":0}, and
    the evaluator has not been called; a request without any [t] is such a
    request as soon as the limit on terms is not negative. *)
Theorem empty_query_gives_default
        (url : SearchParams) (w : World G) (z : Z) (i : Instance G)
        (listing : list byte) :
  reset queryRunner (instance w) = (Ok z, i) ->
  KV_get "default" = Ok listing ->
  (forall (query : ParsedQuery) (bitmaps : list (list (option (list byte))))
          (w1 : World G),
      parseQuery (t_values url) = Ok (Some query) ->
      termCountOf query <= MAX_QUERY_TERMS limits ->
      findSerialisedTermBitmaps queryRunner KV_get query (afterReset w i)
      = (Ok bitmaps, w1) ->
      nth 0 bitmaps [] = [] ->
      defined (nth 1 bitmaps []) = [] ->
      defined (nth 2 bitmaps []) = [] ->
      exists r w' evs,
        handleSearch queryRunner KV_get limits url w = (Ok r, w')
        /\ status r = 200
        /\ headers r = jsonHeaders
        /\ body r
           = Some ("{" ++ dq ++ "results" ++ dq ++ ":" ++ utf8Decode listing
                       ++ "," ++ dq ++ "continuation" ++ dq ++ ":null,"
                       ++ dq ++ "total" ++ dq ++ ":0}")%string
        /\ trace w' = trace w ++ evs
        /\ existsb isEvaluatorCall evs = false)
  /\ (t_values url = [] ->
      0 <= MAX_QUERY_TERMS limits ->
      exists r,
        handleSearch queryRunner KV_get limits url w
        = (Ok r,
           mkWorld i (trace w ++ [EvCall CReset; EvLog "Bit sets retrieved";
                                  EvKV "default"]))
        /\ status r = 200
        /\ headers r = jsonHeaders
        /\ body r
           = Some ("{" ++ dq ++ "results" ++ dq ++ ":" ++ utf8Decode listing
                       ++ "," ++ dq ++ "continuation" ++ dq ++ ":null,"
                       ++ dq ++ "total" ++ dq ++ ":0}")%string).
Proof.
  intros R D.
  assert (General :
    forall (query : ParsedQuery) (bitmaps : list (list (option (list byte))))
           (w1 : World G),
      parseQuery (t_values url) = Ok (Some query) ->
      termCountOf query <= MAX_QUERY_TERMS limits ->
      findSerialisedTermBitmaps queryRunner KV_get query (afterReset w i)
      = (Ok bitmaps, w1) ->
      nth 0 bitmaps [] = [] ->
      defined (nth 1 bitmaps []) = [] ->
      defined (nth 2 bitmaps []) = [] ->
      handleSearch queryRunner KV_get limits url w
      = (Ok (responseRawJson (resultsEnvelope (utf8Decode listing))),
         mkWorld (instance w1)
                 (trace w1 ++ [EvLog "Bit sets retrieved"; EvKV "default"]))
      /\ exists evs, trace w1 = trace w ++ EvCall CReset :: evs
                     /\ forallb lookupEvent evs = true).
  { intros query bitmaps w1 Q C F N0 N1 N2.
    destruct (handleSearch_resolved url w R Q C F)
      as (pendings & w0 & S & K & evs & T & L).
    split; [|exists evs; split; assumption].
    unfold handleSearch, bind. rewrite S.
    unfold handleSearch_terms, bind. rewrite K.
    unfold console_log, emit. rewrite N0, N1, N2.
    cbn [existsb forallb List.length Nat.eqb andb defined].
    unfold KV_issue, emit, ret. cbn [trace instance].
    unfold handleSearch_finish, bind, KV_await, lift_outcome, ret.
    rewrite D. rewrite <- app_assoc. reflexivity. }
  split.
  - intros query bitmaps w1 Q C F N0 N1 N2.
    destruct (General query bitmaps w1 Q C F N0 N1 N2) as (H & evs & T & L).
    eexists. eexists.
    exists (EvCall CReset :: evs ++ [EvLog "Bit sets retrieved"; EvKV "default"]).
    split; [exact H|]. split; [reflexivity|]. split; [reflexivity|].
    split; [reflexivity|]. split.
    + cbn [trace]. rewrite T, <- app_assoc. reflexivity.
    + cbn [existsb isEvaluatorCall]. rewrite existsb_app.
      rewrite (forallb_notEvaluator evs L). reflexivity.
  - intros E M.
    destruct (General [[]; []; []] [[]; []; []] (afterReset w i)) as (H & _);
      try reflexivity.
    + rewrite E. reflexivity.
    + exact M.
    + exists (responseRawJson (resultsEnvelope (utf8Decode listing))).
      split; [|split; [|split]]; [|reflexivity|reflexivity|reflexivity].
      rewrite H. unfold afterReset. cbn [trace instance].
      rewrite <- app_assoc. reflexivity.
Qed.

End HandlerTerms.

Lemma absent_require_term_gives_no_results_witness :
  reset Fixture.queryRunner (instance Fixture.fresh) = (Ok 0, Fixture.loaded)
  /\ parseQuery (t_values (mkParams ["0_nonexistentterm"; "1_engineer"] None))
     = Ok (Some [["nonexistentterm"]; ["engineer"]; []])
  /\ termCountOf [["nonexistentterm"]; ["engineer"]; []]
     <= MAX_QUERY_TERMS Fixture.limits
  /\ findSerialisedTermBitmaps Fixture.queryRunner Fixture.KV_get
       [["nonexistentterm"]; ["engineer"]; []]
       (afterReset Fixture.fresh Fixture.loaded)
     = (Ok [[None]; [Some [x01; x02; x03]]; []],
        snd (findSerialisedTermBitmaps Fixture.queryRunner Fixture.KV_get
               [["nonexistentterm"]; ["engineer"]; []]
               (afterReset Fixture.fresh Fixture.loaded)))
  /\ existsb isNone (nth 0 [[None]; [Some [x01; x02; x03]]; []] []) = true
  /\ exists w' evs,
      handleSearch Fixture.queryRunner Fixture.KV_get Fixture.limits
        (mkParams ["0_nonexistentterm"; "1_engineer"] None) Fixture.fresh
      = (Ok responseNoResults, w')
      /\ body responseNoResults
         = Some ("{" ++ dq ++ "results" ++ dq ++ ":[]," ++ dq ++ "continuation"
                     ++ dq ++ ":null," ++ dq ++ "total" ++ dq ++ ":0}")%string
      /\ trace w' = trace Fixture.fresh ++ evs
      /\ existsb isEvaluatorCall evs = false.
Proof.
  assert (R : reset Fixture.queryRunner (instance Fixture.fresh)
              = (Ok 0, Fixture.loaded)) by reflexivity.
  assert (Q : parseQuery (t_values (mkParams ["0_nonexistentterm"; "1_engineer"] None))
              = Ok (Some [["nonexistentterm"]; ["engineer"]; []]))
    by (vm_compute; reflexivity).
  assert (C : termCountOf [["nonexistentterm"]; ["engineer"]; []]
              <= MAX_QUERY_TERMS Fixture.limits) by (vm_compute; discriminate).
  assert (F : findSerialisedTermBitmaps Fixture.queryRunner Fixture.KV_get
                [["nonexistentterm"]; ["engineer"]; []]
                (afterReset Fixture.fresh Fixture.loaded)
              = (Ok [[None]; [Some [x01; x02; x03]]; []],
                 snd (findSerialisedTermBitmaps Fixture.queryRunner Fixture.KV_get
                        [["nonexistentterm"]; ["engineer"]; []]
                        (afterReset Fixture.fresh Fixture.loaded))))
    by (vm_compute; reflexivity).
  assert (N : existsb isNone (nth 0 [[None]; [Some [x01; x02; x03]]; []] []) = true)
    by reflexivity.
  split; [exact R|]. split; [exact Q|]. split; [exact C|].
  split; [exact F|]. split; [exact N|].
  exact (absent_require_term_gives_no_results
           Fixture.queryRunner Fixture.KV_get Fixture.limits
           (mkParams ["0_nonexistentterm"; "1_engineer"] None) Fixture.fresh
           R Q C F N).
Defined.

Lemma empty_query_gives_default_witness :
  reset Fixture.queryRunner (instance Fixture.fresh) = (Ok 0, Fixture.loaded)
  /\ Fixture.KV_get "default" = Ok (getAsciiBytes Fixture.defaultListing)
  /\ parseQuery (t_values (mkParams ["1_nonexistentterm"; "2_absentterm"] None))
     = Ok (Some [[]; ["nonexistentterm"]; ["absentterm"]])
  /\ termCountOf [[]; ["nonexistentterm"]; ["absentterm"]]
     <= MAX_QUERY_TERMS Fixture.limits
  /\ findSerialisedTermBitmaps Fixture.queryRunner Fixture.KV_get
       [[]; ["nonexistentterm"]; ["absentterm"]]
       (afterReset Fixture.fresh Fixture.loaded)
     = (Ok [[]; [None]; [None]],
        snd (findSerialisedTermBitmaps Fixture.queryRunner Fixture.KV_get
               [[]; ["nonexistentterm"]; ["absentterm"]]
               (afterReset Fixture.fresh Fixture.loaded)))
  /\ nth 0 [[]; [@None (list byte)]; [None]] [] = []
  /\ defined (nth 1 [[]; [@None (list byte)]; [None]] []) = []
  /\ defined (nth 2 [[]; [@None (list byte)]; [None]] []) = []
  /\ exists r w' evs,
      handleSearch Fixture.queryRunner Fixture.KV_get Fixture.limits
        (mkParams ["1_nonexistentterm"; "2_absentterm"] None) Fixture.fresh
      = (Ok r, w')
      /\ status r = 200
      /\ headers r = jsonHeaders
      /\ body r
         = Some ("{" ++ dq ++ "results" ++ dq ++ ":"
                     ++ utf8Decode (getAsciiBytes Fixture.defaultListing)
                     ++ "," ++ dq ++ "continuation" ++ dq ++ ":null,"
                     ++ dq ++ "total" ++ dq ++ ":0}")%string
      /\ trace w' = trace Fixture.fresh ++ evs
      /\ existsb isEvaluatorCall evs = false.
Proof.
  assert (R : reset Fixture.queryRunner (instance Fixture.fresh)
              = (Ok 0, Fixture.loaded)) by reflexivity.
  assert (D : Fixture.KV_get "default" = Ok (getAsciiBytes Fixture.defaultListing))
    by reflexivity.
  assert (Q : parseQuery
                (t_values (mkParams ["1_nonexistentterm"; "2_absentterm"] None))
              = Ok (Some [[]; ["nonexistentterm"]; ["absentterm"]]))
    by (vm_compute; reflexivity).
  assert (C : termCountOf [[]; ["nonexistentterm"]; ["absentterm"]]
              <= MAX_QUERY_TERMS Fixture.limits) by (vm_compute; discriminate).
  assert (F : findSerialisedTermBitmaps Fixture.queryRunner Fixture.KV_get
                [[]; ["nonexistentterm"]; ["absentterm"]]
                (afterReset Fixture.fresh Fixture.loaded)
              = (Ok [[]; [None]; [None]],
                 snd (findSerialisedTermBitmaps Fixture.queryRunner Fixture.KV_get
                        [[]; ["nonexistentterm"]; ["absentterm"]]
                        (afterReset Fixture.fresh Fixture.loaded))))
    by (vm_compute; reflexivity).
  assert (N0 : nth 0 [[]; [@None (list byte)]; [None]] [] = []) by reflexivity.
  assert (N1 : defined (nth 1 [[]; [@None (list byte)]; [None]] []) = [])
    by reflexivity.
  assert (N2 : defined (nth 2 [[]; [@None (list byte)]; [None]] []) = [])
    by reflexivity.
  split; [exact R|]. split; [exact D|]. split; [exact Q|]. split; [exact C|].
  split; [exact F|]. split; [exact N0|]. split; [exact N1|]. split; [exact N2|].
  exact (proj1 (empty_query_gives_default
                  Fixture.queryRunner Fixture.KV_get Fixture.limits
                  (mkParams ["1_nonexistentterm"; "2_absentterm"] None)
                  Fixture.fresh R D)
               [[]; ["nonexistentterm"]; ["absentterm"]]
               [[]; [None]; [None]] _ Q C F N0 N1 N2).
Defined.

(** ** The continuation of a streamed response *)

(** Whatever the evaluator returned, the first bytes of a streamed response
    carry the cursor of the request in their continuation field. *)
Lemma streamed_prefix {G} (queryRunner : QueryRunner G)
      (KV_get : string -> outcome (list byte)) (cursor : Z)
      (pendings : list (list (option Pending))) (w w' : World G)
      (result : QueryResult) (prefix : list byte)
      (docs : list (option Pending)) :
  handleSearch_terms queryRunner KV_get cursor pendings w
  = (Ok (inr (WaitDocuments result prefix docs)), w') ->
  prefix = getAsciiBytes (jsonResPrefix (total result) cursor).
Proof.
  unfold handleSearch_terms, bind.
  destruct (collectTerms queryRunner KV_get pendings w) as [[bms|e] w1];
    [|discriminate].
  destruct (console_log _ w1) as [[u|e] w2]; [|discriminate].
  destruct (existsb isNone (nth 0 bms [])); [discriminate|].
  match goal with |- context [forallb ?f ?l] => destruct (forallb f l) end.
  - destruct (KV_issue _ w2) as [[u'|e] w3]; discriminate.
  - destruct (buildIndexQuery _ _ _ w2) as [[data|e] w3]; [|discriminate].
    destruct (console_log _ w3) as [[u'|e] w4]; [|discriminate].
    destruct (executePostingsListQuery _ _ w4) as [[[r|]|e] w5];
      try discriminate.
    destruct (console_log _ w5) as [[u''|e] w6]; [|discriminate].
    destruct (mapM _ _ w6) as [[ds|e] w7]; [|discriminate].
    unfold ret. intros H. injection H as <- <- _ _. reflexivity.
Qed.

(** C1, on the request t=0_engineer&t=2_intern with "engineer" in documents
    1, 2, 3 and "intern" in document 2: the evaluator returns documents 1
    and 3, total 2 and no next cursor, and the response carries
    "continuation":0, the cursor of the request, not null. *)
Theorem response_continuation_is_request_cursor :
  exists pendings w0 waiting w1,
    handleSearch_start Fixture.queryRunner Fixture.limits
      (mkParams ["0_engineer"; "2_intern"] None) Fixture.fresh
    = (Ok (inr (0, pendings)), w0)
    /\ handleSearch_terms Fixture.queryRunner Fixture.KV_get 0 pendings w0
       = (Ok (inr waiting), w1)
    /\ evaluatorResultOf waiting = Some (mkQueryResult None 2 [1; 3])
    /\ fst (Fixture.search_of ["0_engineer"; "2_intern"] None)
       = Ok (mkResponse 200 jsonHeaders
               (Some ("{" ++ dq ++ "total" ++ dq ++ ":2," ++ dq ++ "continuation"
                          ++ dq ++ ":0," ++ dq ++ "results" ++ dq ++ ":["
                          ++ Fixture.document 1 ++ "," ++ Fixture.document 3
                          ++ "]}")%string)).
Proof.
  eexists. eexists. eexists. eexists.
  split; [vm_compute; reflexivity|].
  split; [vm_compute; reflexivity|].
  split; vm_compute; reflexivity.
Qed.

(** C4, on a request of three terms under a limit of three terms and a
    budget of 24 bytes: the terms alone take 34 bytes and the query written
    for the runner takes 40, and the handler fetches the chunks and answers
    200.  The handler never looks at [MAX_QUERY_BYTES]: any two budgets give
    the same run. *)
Theorem byte_budget_not_enforced :
  (parseQuery ["0_engineer"; "1_manager"; "1_engineering-manager"]
   = Ok (Some [["engineer"]; ["manager"; "engineering-manager"]; []])
   /\ queryTextBytes [["engineer"]; ["manager"; "engineering-manager"]; []]
      > MAX_QUERY_BYTES Fixture.limits
   /\ serialisedQuerySize [["engineer"]; ["manager"; "engineering-manager"]; []]
      > MAX_QUERY_BYTES Fixture.limits
   /\ option_map status
        (match fst (Fixture.search_of
                      ["0_engineer"; "1_manager"; "1_engineering-manager"] None) with
         | Ok r => Some r
         | Throw _ => None
         end) = Some 200
   /\ existsb isChunkFetch
        (trace (snd (Fixture.search_of
                       ["0_engineer"; "1_manager"; "1_engineering-manager"] None)))
      = true)
  /\ forall (G : Type) (queryRunner : QueryRunner G)
       (KV_get : string -> outcome (list byte)) (bytes1 bytes2 terms : Z)
       (url : SearchParams) (w : World G),
      handleSearch queryRunner KV_get (mkLimits bytes1 terms) url w
      = handleSearch queryRunner KV_get (mkLimits bytes2 terms) url w.
Proof.
  split.
  - split; [vm_compute; reflexivity|].
    split; [vm_compute; reflexivity|].
    split; [vm_compute; reflexivity|].
    split; vm_compute; reflexivity.
  - intros. reflexivity.
Qed.

(** ** The message decoder *)

(** A match of the specifier pattern is a prefix of the text, and it is not
    empty. *)
Lemma specifier_match (s after : string) (caps : Regex.captures) :
  Regex.matchHere Format.specifierPattern s = Some (caps, after) ->
  s = (Regex.consumed s after ++ after)%string
  /\ (String.length after < String.length s)%nat.
Proof.
  unfold Regex.matchHere, Format.specifierPattern. intros H.
  rewrite run_seq in H. cbn [Regex.Lit] in H. rewrite run_seq, run_chr in H.
  destruct s as [|c s]; [discriminate H|].
  destruct (Ascii.eqb "%" c); [|discriminate H].
  destruct (run_suffix _ _ _ _ H) as (pre & s' & caps' & -> & K).
  match type of K with
  | Regex.run ?r ?s ?c ?k = _ =>
      destruct (run_suffix r s c k K) as (pre2 & s2 & caps2 & -> & K2)
  end.
  injection K2 as _ <-.
  change (String c (pre ++ pre2 ++ s2))%string
    with ((String c pre) ++ (pre2 ++ s2))%string.
  rewrite <- string_app_assoc, consumed_app.
  split; [reflexivity|].
  rewrite string_length_app. simpl. lia.
Qed.

(** The fuel of [pieces] is enough: more gives the same pieces. *)
Lemma pieces_fuel (fuel : nat) :
  forall s, (String.length s <= fuel)%nat ->
            Format.pieces fuel s = Format.pieces (String.length s) s.
Proof.
  induction fuel as [fuel IH] using lt_wf_ind. intros s L.
  destruct s as [|c s].
  { destruct fuel; reflexivity. }
  destruct fuel as [|fuel]; [simpl in L; lia|].
  cbn [Format.pieces String.length].
  destruct (Regex.matchHere Format.specifierPattern (String c s))
    as [[caps after]|] eqn:M.
  - destruct (specifier_match _ M) as [_ Lt]. simpl in Lt, L.
    rewrite (IH fuel) by lia.
    rewrite (IH (String.length s)) by lia. reflexivity.
  - simpl in L. rewrite (IH fuel) by lia. reflexivity.
Qed.

(** The pieces of a text are the text: nothing of it is lost. *)
Lemma textOf_piecesOf (s : string) : textOf (Format.piecesOf s) = s.
Proof.
  unfold Format.piecesOf.
  remember (String.length s) as n eqn:E.
  revert s E. induction n as [n IH] using lt_wf_ind. intros s E.
  destruct s as [|c s]; [subst n; reflexivity|].
  subst n. cbn [Format.pieces String.length].
  destruct (Regex.matchHere Format.specifierPattern (String c s))
    as [[caps after]|] eqn:M.
  - destruct (specifier_match _ M) as [Eq Lt]. simpl in Lt.
    cbn [textOf pieceText Format.spec].
    rewrite pieces_fuel by lia.
    rewrite (IH (String.length after)); [|simpl; lia|reflexivity].
    symmetry. exact Eq.
  - cbn [textOf pieceText]. rewrite (IH (String.length s)); [|simpl; lia|reflexivity].
    reflexivity.
Qed.

Lemma has_In (set : list string) (x : string) :
  Format.has set x = true <-> In x set.
Proof.
  induction set as [|y set IH]; simpl.
  - split; [discriminate|contradiction].
  - rewrite orb_true_iff, IH, String.eqb_eq. split; intros [H|H]; auto.
Qed.

Lemma has_subset (small large : list string) (x : string) :
  (forall y, In y small -> In y large) ->
  Format.has small x = true -> Format.has large x = true.
Proof.
  intros S H. apply has_In. apply S. apply has_In. exact H.
Qed.

Section Decoder.

Variable textDecoder_decode : list byte -> string.
Variable formatDouble : string -> Z -> string.
Variable fromCharCode : Z -> string.

(** Every parser of the table reads a combination the documentation lists. *)
Lemma parser_found_supported (length type : string) (p : Format.Parser) :
  find (fun p => Format.has (Format.p_length p) length
                 && Format.has (Format.p_type p) type)
       (Format.SPECIFIER_PARSERS textDecoder_decode) = Some p ->
  specSupported length type = true.
Proof.
  unfold Format.SPECIFIER_PARSERS, specSupported.
  cbn [find Format.p_length Format.p_type].
  repeat match goal with
         | |- (if ?c then _ else _) = _ -> _ =>
             let E := fresh "E" in
             destruct c eqn:E;
             [ intros _; apply andb_true_iff in E; destruct E as [E1 E2]
             | clear E ]
         end; try discriminate.
  - rewrite E1.
    rewrite (has_subset (Format.charSet "dic") (Format.charSet "dicuxXop") type);
      [reflexivity| |exact E2].
    simpl. intuition.
  - rewrite E1.
    rewrite (has_subset (Format.charSet "uxXop") (Format.charSet "dicuxXop") type);
      [reflexivity| |exact E2].
    simpl. intuition.
  - rewrite E1.
    rewrite (has_subset (Format.charSet "di") (Format.charSet "diuxXop") type);
      [rewrite !orb_true_r; reflexivity| |exact E2].
    simpl. intuition.
  - rewrite E1.
    rewrite (has_subset (Format.charSet "uxXop") (Format.charSet "diuxXop") type);
      [rewrite !orb_true_r; reflexivity| |exact E2].
    simpl. intuition.
  - rewrite orb_true_r. reflexivity.
Qed.

Lemma replacer_modifier (sp : Format.Specifier) (mem : MemoryWalker) :
  carriesModifier sp = true ->
  fst (Format.replacer textDecoder_decode formatDouble fromCharCode sp mem)
  = Throw (JsError ("Unsupported format specifier " ++ Format.quoted (Format.spec sp))).
Proof.
  unfold carriesModifier, Format.replacer. intros ->. reflexivity.
Qed.

Lemma replacer_unsupported (sp : Format.Specifier) (mem : MemoryWalker) :
  carriesModifier sp = false ->
  specSupported (Format.length sp) (Format.type sp) = false ->
  fst (Format.replacer textDecoder_decode formatDouble fromCharCode sp mem)
  = Throw (SyntaxError ("Invalid format specifier " ++ Format.quoted (Format.spec sp))).
Proof.
  unfold carriesModifier, Format.replacer. intros -> U.
  destruct (find _ _) as [p|] eqn:F; [|reflexivity].
  apply parser_found_supported in F. congruence.
Qed.

Lemma replacer_refused (sp : Format.Specifier) (mem : MemoryWalker) :
  refused sp = true -> exists e, fst (Format.replacer textDecoder_decode formatDouble fromCharCode sp mem) = Throw e.
Proof.
  unfold refused. intros H.
  destruct (carriesModifier sp) eqn:C.
  - eexists. apply replacer_modifier. exact C.
  - simpl in H. apply negb_true_iff in H.
    eexists. apply replacer_unsupported; assumption.
Qed.

Lemma replaceAll_refused (ps : list Format.piece) (mem : MemoryWalker) :
  existsb refusedPiece ps = true ->
  exists e, fst (Format.replaceAll textDecoder_decode formatDouble fromCharCode ps mem) = Throw e.
Proof.
  revert mem. induction ps as [|p ps IH]; intros mem H; [discriminate H|].
  destruct p as [c|sp]; cbn [Format.replaceAll].
  - simpl in H. destruct (IH mem H) as [e E].
    exists e. apply bind_throw. exact E.
  - simpl in H. destruct (refused sp) eqn:Rf.
    + destruct (replacer_refused sp mem Rf) as [e E].
      exists e. apply bind_throw. exact E.
    + simpl in H. unfold bind at 1.
      destruct (Format.replacer textDecoder_decode formatDouble fromCharCode sp mem) as [[out|e] mem'].
      * destruct (IH mem' H) as [e E]. exists e.
        apply bind_throw. exact E.
      * exists e. reflexivity.
Qed.

(** C9, amended: when a conversion that the decoder's pattern finds in a
    format text carries a flag, a width or a precision, or has a length
    and a conversion character outside the documented list, decoding the
    text fails; the replacer raises the error "Unsupported format specifier"
    in the first case and the syntax error "Invalid format specifier" in
    the second, whatever the argument buffer holds. *)
Theorem unsupported_specifiers_rejected
        (format : string) (sp : Format.Specifier) :
  In (Format.Conversion sp) (Format.piecesOf format) ->
  refused sp = true ->
  (forall mem, exists e, fst (Format.replaceAll textDecoder_decode formatDouble fromCharCode
                           (Format.piecesOf format) mem) = Throw e)
  /\ (forall mem mem',
        Format.readFormat textDecoder_decode mem = (Ok format, mem') ->
        exists e, fst (Format.formatFromVarargs textDecoder_decode formatDouble
                                            fromCharCode mem) = Throw e)
  /\ (carriesModifier sp = true ->
      forall mem,
        fst (Format.replacer textDecoder_decode formatDouble fromCharCode sp mem)
        = Throw (JsError ("Unsupported format specifier "
                            ++ Format.quoted (Format.spec sp))))
  /\ (carriesModifier sp = false ->
      forall mem,
        fst (Format.replacer textDecoder_decode formatDouble fromCharCode sp mem)
        = Throw (SyntaxError ("Invalid format specifier "
                                ++ Format.quoted (Format.spec sp)))).
Proof.
  intros I Rf.
  assert (E : existsb refusedPiece (Format.piecesOf format) = true).
  { apply existsb_exists. exists (Format.Conversion sp). split; assumption. }
  split; [|split; [|split]].
  - intros mem. apply replaceAll_refused. exact E.
  - intros mem mem' F. unfold Format.formatFromVarargs, bind. rewrite F.
    apply replaceAll_refused. exact E.
  - intros C mem. apply replacer_modifier. exact C.
  - intros C mem. apply replacer_unsupported; [exact C|].
    unfold refused in Rf. rewrite C in Rf. simpl in Rf.
    apply negb_true_iff in Rf. exact Rf.
Qed.

End Decoder.

Lemma unsupported_specifiers_rejected_witness :
  In (Format.Conversion (Format.mkSpecifier "%5d" "" "5" "" "" "d"))
     (Format.piecesOf "n=%5d")
  /\ refused (Format.mkSpecifier "%5d" "" "5" "" "" "d") = true
  /\ forall mem,
      exists e,
        fst (Format.replaceAll utf8Decode (fun _ _ => "") (fun _ => "")
               (Format.piecesOf "n=%5d") mem) = Throw e.
Proof.
  assert (I : In (Format.Conversion (Format.mkSpecifier "%5d" "" "5" "" "" "d"))
                 (Format.piecesOf "n=%5d"))
    by (vm_compute; right; right; left; reflexivity).
  assert (Rf : refused (Format.mkSpecifier "%5d" "" "5" "" "" "d") = true)
    by reflexivity.
  split; [exact I|]. split; [exact Rf|].
  exact (proj1 (unsupported_specifiers_rejected utf8Decode (fun _ _ => "")
                  (fun _ => "") "n=%5d"
                  (Format.mkSpecifier "%5d" "" "5" "" "" "d") I Rf)).
Defined.

(** C9, the claim as it is written fails: a specifier is rejected only
    when the pattern of the decoder finds it.  The specifier %-5n, with a
    flag and a width, has a conversion character that the pattern does not
    list, and in %.d the precision is a dot without digits, which the
    pattern does not take for a precision: neither is found, so the
    decoder returns each as it stands, raises nothing and reads no
    argument. *)
Lemma unmatched_specifiers_pass_through :
  Format.formatFromVarargs utf8Decode (fun _ _ => "") (fun _ => "")
    (mkWalker [x04; x00; x00; x00; x25; x2d; x35; x6e; x00] 0)
  = (Ok "%-5n", mkWalker [x04; x00; x00; x00; x25; x2d; x35; x6e; x00] 4)
  /\ Format.formatFromVarargs utf8Decode (fun _ _ => "") (fun _ => "")
       (mkWalker [x08; x00; x00; x00; x07; x00; x00; x00;
                  x25; x2e; x64; x00] 0)
     = (Ok "%.d", mkWalker [x08; x00; x00; x00; x07; x00; x00; x00;
                            x25; x2e; x64; x00] 4)
  /\ Format._wasm_import_log utf8Decode (fun _ _ => "") (fun _ => "")
       [x04; x00; x00; x00; x25; x2d; x35; x6e; x00] 0
     = Ok "%-5n".
Proof.
  split; [|split]; vm_compute; reflexivity.
Qed.

(** The table gives the string and the percent conversions an empty set of
    lengths, so that the decoder refuses them as well. *)
Remark string_and_percent_conversions_refused :
  forall mem,
    fst (Format.replaceAll utf8Decode (fun _ _ => "") (fun _ => "")
           (Format.piecesOf "%s") mem)
    = Throw (SyntaxError ("Invalid format specifier " ++ Format.quoted "%s"))
    /\ fst (Format.replaceAll utf8Decode (fun _ _ => "") (fun _ => "")
              (Format.piecesOf "%%") mem)
       = Throw (SyntaxError ("Invalid format specifier " ++ Format.quoted "%%")).
Proof.
  intros mem. split; reflexivity.
Qed.

(** ** Requests in flight together *)

Lemma callsOf_app (a b : list (nat * event)) :
  callsOf (a ++ b) = callsOf a ++ callsOf b.
Proof.
  induction a as [|[id e] a IH]; simpl; [reflexivity|].
  destruct e; simpl; rewrite IH; reflexivity.
Qed.

Lemma callsBy_app (id : nat) (a b : list (nat * event)) :
  callsBy id (a ++ b) = callsBy id a ++ callsBy id b.
Proof.
  unfold callsBy. rewrite callsOf_app, filter_app, map_app. reflexivity.
Qed.

Lemma callsBy_other (id id0 : nat) (evs : list event) :
  id <> id0 -> callsBy id (map (pair id0) evs) = [].
Proof.
  intros N. unfold callsBy.
  induction evs as [|e evs IH]; simpl; [reflexivity|].
  destruct e; simpl; try exact IH.
  destruct (Nat.eqb id0 id) eqn:E; [|exact IH].
  apply Nat.eqb_eq in E. congruence.
Qed.

Lemma callsBy_own_reset (id : nat) (evs : list event) :
  exists rest, callsBy id (map (pair id) (EvCall CReset :: evs)) = CReset :: rest.
Proof.
  unfold callsBy. simpl. rewrite Nat.eqb_refl. simpl. eexists. reflexivity.
Qed.

Lemma nth_error_setTask_other (id id0 : nat) (t : Task) (ts : list Task) :
  id <> id0 -> nth_error (setTask id0 t ts) id = nth_error ts id.
Proof.
  revert id id0. induction ts as [|t0 ts IH]; intros id id0 N; simpl.
  - destruct id0; reflexivity.
  - destruct id0 as [|id0]; destruct id as [|id]; simpl; try reflexivity.
    + congruence.
    + apply IH. congruence.
Qed.

Lemma nth_error_setTask_own (id : nat) (t t0 : Task) (ts : list Task) :
  nth_error ts id = Some t0 -> nth_error (setTask id t ts) id = Some t.
Proof.
  revert id. induction ts as [|t1 ts IH]; intros id H.
  - destruct id; discriminate H.
  - destruct id as [|id]; simpl in *; [reflexivity|]. apply IH. exact H.
Qed.

Section ResetFirst.

Variable G : Type.
Variable queryRunner : QueryRunner G.
Variable KV_get : string -> outcome (list byte).
Variable limits : Limits.

Lemma invoke_trace (c : call) (w w' : World G) (r : outcome Z) :
  invoke queryRunner c w = (r, w') -> trace w' = trace w ++ [EvCall c].
Proof.
  unfold invoke, bind, emit. cbn [instance trace].
  destruct (dispatch queryRunner c (instance w)) as [r0 i].
  intros H. injection H as _ <-. reflexivity.
Qed.

(** The first thing a handler does is to call [reset]. *)
Lemma handleSearch_start_trace (url : SearchParams) (i : Instance G)
      (r : outcome (Response + Z * list (list (option Pending)))) (w' : World G) :
  handleSearch_start queryRunner limits url (mkWorld i []) = (r, w') ->
  exists rest, trace w' = EvCall CReset :: rest.
Proof.
  unfold handleSearch_start. unfold bind at 1.
  destruct (invoke queryRunner CReset (mkWorld i [])) as [[z|e] w0] eqn:I;
    pose proof (invoke_trace _ _ I) as T0; cbn [trace app] in T0.
  - intros H.
    assert (A : appends (fun _ => true)
                  (query <- lift_outcome (parseQuery (t_values url)) ;;
                   match query with
                   | None => ret (inl (responseError "Malformed query" 400))
                   | Some query =>
                       if termCountOf query >? MAX_QUERY_TERMS limits
                       then ret (inl (responseError "Too many terms" 413))
                       else
                         pendings <- locateTerms queryRunner query ;;
                         ret (inr (Z.max 0 (orZero (parseInt10
                                     match c_value url with
                                     | Some c => c
                                     | None => ""
                                     end)), pendings))
                   end)).
    { appends_auto. apply appends_locateTerms. reflexivity. }
    destruct (A _ _ _ H) as (evs & T & _).
    exists evs. rewrite T, T0. reflexivity.
  - intros H. injection H as _ <-. exists []. exact T0.
Qed.

Lemma taskPart_started (t t' : Task) (w w' : World G) :
  taskPart queryRunner KV_get limits t w = (Ok t', w') -> started t' = true.
Proof.
  destruct t as [url|cursor pendings|waiting|result]; unfold taskPart, bind.
  - destruct (handleSearch_start _ _ _ w) as [[[r|[c p]]|e] w1];
      intros H; try discriminate H; injection H as <- _; reflexivity.
  - destruct (handleSearch_terms _ _ _ _ w) as [[[r|wt]|e] w1];
      intros H; try discriminate H; injection H as <- _; reflexivity.
  - destruct (handleSearch_finish _ _ _ w) as [[r|e] w1];
      intros H; try discriminate H; injection H as <- _; reflexivity.
  - intros H. injection H as <- _. reflexivity.
Qed.

Lemma runPart_orderly (id0 : nat) (st : Shared G) :
  orderly st -> orderly (runPart queryRunner KV_get limits id0 st).
Proof.
  intros O id. unfold runPart.
  destruct (nth_error (tasks st) id0) as [t|] eqn:N0; [|apply O].
  destruct (taskPart queryRunner KV_get limits t (mkWorld (sharedInstance st) []))
    as [r w] eqn:P.
  cbn [tasks log]. rewrite callsBy_app.
  destruct (Nat.eq_dec id id0) as [->|Ne].
  - rewrite nth_error_setTask_own with (t0 := t) by exact N0.
    pose proof (O id0) as Oid. rewrite N0 in Oid.
    assert (S : started (match r with Ok t' => t' | Throw e => TDone (Throw e) end)
                = true).
    { destruct r as [t'|e]; [|reflexivity]. eapply taskPart_started. exact P. }
    rewrite S.
    destruct (started t) eqn:St.
    + destruct Oid as [rest E]. rewrite E. eexists. reflexivity.
    + rewrite Oid. destruct t as [url| | |]; try discriminate St.
      unfold taskPart, bind in P.
      destruct (handleSearch_start queryRunner limits url
                  (mkWorld (sharedInstance st) [])) as [r0 w0] eqn:H.
      destruct (handleSearch_start_trace _ _ H) as [rest T].
      assert (W : trace w = trace w0).
      { destruct r0 as [[resp|[c p]]|e]; injection P as _ <-; reflexivity. }
      rewrite W, T. apply callsBy_own_reset.
  - rewrite nth_error_setTask_other by exact Ne.
    rewrite callsBy_other by exact Ne. rewrite app_nil_r.
    apply O.
Qed.

Lemma runSchedule_orderly (schedule : list nat) (st : Shared G) :
  orderly st -> orderly (runSchedule queryRunner KV_get limits schedule st).
Proof.
  revert st. induction schedule as [|id schedule IH]; intros st O; [exact O|].
  apply IH. apply runPart_orderly. exact O.
Qed.

Lemma arrive_orderly (i : Instance G) (urls : list SearchParams) :
  orderly (arrive i urls).
Proof.
  intros id. unfold arrive. cbn [tasks log].
  destruct (nth_error (map TStart urls) id) as [t|] eqn:N; [|reflexivity].
  apply nth_error_In, in_map_iff in N. destruct N as (url & <- & _).
  reflexivity.
Qed.

(** C2, amended: every request is served by the one instance of the
    script, and under every schedule of the requests in flight each
    request calls [reset] before any other export; the requests are not
    isolated from one another, a call of one may fall between two calls
    of another. *)
Theorem reset_precedes_every_request
        (i : Instance G) (urls : list SearchParams) (schedule : list nat)
        (id : nat) :
  resetFirst id (log (runSchedule queryRunner KV_get limits schedule
                        (arrive i urls))) = true.
Proof.
  pose proof (runSchedule_orderly schedule (arrive_orderly i urls) id) as O.
  unfold resetFirst.
  destruct (nth_error _ id) as [t|].
  - destruct (started t).
    + destruct O as [rest ->]. reflexivity.
    + rewrite O. reflexivity.
  - rewrite O. reflexivity.
Qed.

End ResetFirst.

(** C2, the claim as it is written fails: with the requests t=0_engineer
    and t=0_intern in flight together, the second starts while the first
    waits for its chunk; its calls fall between those of the first, on the
    same memory, and the first, which alone finds three documents, finds
    none. *)
Lemma requests_share_the_instance :
  isolated (log (runSchedule Fixture.queryRunner Fixture.KV_get Fixture.limits
                   [0; 1; 0; 0; 1; 1]%nat
                   (arrive Fixture.loaded
                           [mkParams ["0_engineer"] None;
                            mkParams ["0_intern"] None]))) = false
  /\ nth_error (tasks (runSchedule Fixture.queryRunner Fixture.KV_get Fixture.limits
                         [0; 1; 0; 0; 1; 1]%nat
                         (arrive Fixture.loaded
                                 [mkParams ["0_engineer"] None;
                                  mkParams ["0_intern"] None]))) 0
     = Some (TDone (Ok responseNoResults))
  /\ option_map body
       (match fst (Fixture.search_of ["0_engineer"] None) with
        | Ok r => Some r
        | Throw _ => None
        end)
     = Some (Some (jsonResPrefix 3 0 ++ Fixture.document 1 ++ ","
                     ++ Fixture.document 2 ++ "]}")%string).
Proof.
  split; [vm_compute; reflexivity|].
  split; vm_compute; reflexivity.
Qed.

(** * Further properties of the script *)

(** ** Bytes and little-endian values *)

Lemma b2z_range (b : byte) : 0 <= b2z b < 256.
Proof.
  unfold b2z. pose proof (Byte.to_N_bounded b) as H. lia.
Qed.

Lemma b2z_z2b (z : Z) : b2z (z2b z) = z mod 256.
Proof.
  unfold b2z, z2b.
  pose proof (Z.mod_pos_bound z 256 ltac:(lia)) as B.
  destruct (Byte.of_N (Z.to_N (z mod 256))) as [b|] eqn:E.
  - apply Byte.to_of_N in E. rewrite E. lia.
  - apply Byte.of_N_None_iff in E. lia.
Qed.

Lemma le_bytes_length (n : nat) (z : Z) : List.length (le_bytes n z) = n.
Proof.
  revert z. induction n as [|n IH]; intros z; simpl; [reflexivity|].
  rewrite IH. reflexivity.
Qed.

Lemma le_value_range (bs : list byte) :
  0 <= le_value bs < 256 ^ Z.of_nat (List.length bs).
Proof.
  induction bs as [|b bs IH]; cbn [le_value].
  - simpl. lia.
  - pose proof (b2z_range b) as B.
    replace (Z.of_nat (List.length (b :: bs)))
      with (Z.succ (Z.of_nat (List.length bs))) by (simpl List.length; lia).
    rewrite Z.pow_succ_r by lia.
    set (P := 256 ^ Z.of_nat (List.length bs)) in *.
    set (v := le_value bs) in *. lia.
Qed.

Lemma le_value_le_bytes (n : nat) (z : Z) :
  le_value (le_bytes n z) = z mod 256 ^ Z.of_nat n.
Proof.
  revert z. induction n as [|n IH]; intros z.
  - simpl. rewrite Z.mod_1_r. reflexivity.
  - cbn [le_bytes le_value]. rewrite IH, b2z_z2b.
    replace (Z.of_nat (S n)) with (Z.succ (Z.of_nat n)) by lia.
    rewrite Z.pow_succ_r by lia.
    rewrite (Z.mul_comm 256).
    rewrite Z.rem_mul_r by lia. rewrite Z.mul_comm. reflexivity.
Qed.

(** ** Buffers *)

Lemma overwrite_length (buf : list byte) (idx : Z) (src : list byte) :
  0 <= idx -> idx + byteLength src <= byteLength buf ->
  byteLength (overwrite buf idx src) = byteLength buf.
Proof.
  unfold overwrite, byteLength. intros H0 H1.
  rewrite !length_app, length_firstn, length_skipn. lia.
Qed.

Lemma overwrite_read_back (buf : list byte) (idx : Z) (src : list byte) :
  0 <= idx -> idx + byteLength src <= byteLength buf ->
  firstn (List.length src) (skipn (Z.to_nat idx) (overwrite buf idx src)) = src.
Proof.
  unfold overwrite, byteLength. intros H0 H1.
  rewrite skipn_app.
  rewrite length_firstn.
  replace (Nat.min (Z.to_nat idx) (List.length buf)) with (Z.to_nat idx) by lia.
  rewrite Nat.sub_diag. cbn [skipn].
  rewrite skipn_all2 by (rewrite length_firstn; lia).
  cbn [app]. rewrite firstn_app, Nat.sub_diag. cbn [firstn].
  rewrite app_nil_r. apply firstn_all.
Qed.

Lemma slice_in_bounds (buf : list byte) (a b : Z) :
  0 <= a -> a <= b -> b <= byteLength buf ->
  slice buf a b = firstn (Z.to_nat (b - a)) (skipn (Z.to_nat a) buf).
Proof.
  intros H0 H1 H2. unfold slice, clampIndex.
  destruct (a <? 0) eqn:A; [apply Z.ltb_lt in A; lia|].
  destruct (b <? 0) eqn:B; [apply Z.ltb_lt in B; lia|].
  rewrite !Z.min_l by lia. rewrite Z.max_l by lia. reflexivity.
Qed.

Lemma u8at_nth (buf : list byte) (i : Z) :
  0 <= i -> u8at buf i = nth_error buf (Z.to_nat i).
Proof.
  intros H. unfold u8at, byteLength.
  destruct (0 <=? i) eqn:A; [|apply Z.leb_gt in A; lia].
  destruct (i <? Z.of_nat (List.length buf)) eqn:B; [reflexivity|].
  apply Z.ltb_ge in B. symmetry. apply nth_error_None. lia.
Qed.

(** Outside the bytes it writes, [overwrite] changes nothing. *)
Lemma u8at_overwrite_outside (buf : list byte) (idx : Z) (src : list byte) (i : Z) :
  0 <= idx -> idx + byteLength src <= byteLength buf ->
  i < idx \/ idx + byteLength src <= i ->
  u8at (overwrite buf idx src) i = u8at buf i.
Proof.
  intros H0 H1 O.
  destruct (Z.ltb_spec i 0) as [N|N].
  { unfold u8at. destruct (0 <=? i) eqn:A; [apply Z.leb_le in A; lia|reflexivity]. }
  rewrite !u8at_nth by exact N.
  unfold overwrite, byteLength in *.
  destruct O as [O|O].
  - rewrite nth_error_app1 by (rewrite length_firstn; lia).
    rewrite nth_error_firstn.
    destruct (Nat.ltb_spec (Z.to_nat i) (Z.to_nat idx)); [reflexivity|lia].
  - rewrite nth_error_app2 by (rewrite length_firstn; lia).
    rewrite length_firstn.
    replace (Nat.min (Z.to_nat idx) (List.length buf)) with (Z.to_nat idx) by lia.
    rewrite nth_error_app2 by lia.
    rewrite nth_error_skipn. f_equal. lia.
Qed.

Lemma dataViewGet_ok (buf : list byte) (idx : Z) (size : nat) (bs : list byte) :
  dataViewGet buf idx size = Ok bs ->
  0 <= idx /\ idx + Z.of_nat size <= byteLength buf
  /\ bs = firstn size (skipn (Z.to_nat idx) buf)
  /\ List.length bs = size.
Proof.
  unfold dataViewGet, byteLength.
  destruct (0 <=? idx) eqn:A; [|discriminate].
  destruct (idx + Z.of_nat size <=? Z.of_nat (List.length buf)) eqn:B; [|discriminate].
  apply Z.leb_le in A, B. cbn [andb]. intros H. injection H as <-.
  repeat split; try assumption.
  rewrite length_firstn, length_skipn. lia.
Qed.

Lemma dataViewGet_in (buf : list byte) (idx : Z) (size : nat) :
  0 <= idx -> idx + Z.of_nat size <= byteLength buf ->
  dataViewGet buf idx size = Ok (firstn size (skipn (Z.to_nat idx) buf)).
Proof.
  unfold dataViewGet. intros A B.
  rewrite (proj2 (Z.leb_le _ _) A), (proj2 (Z.leb_le _ _) B). reflexivity.
Qed.

Lemma dataViewSet_in (buf : list byte) (idx : Z) (src : list byte) :
  0 <= idx -> idx + byteLength src <= byteLength buf ->
  dataViewSet buf idx src = Ok (overwrite buf idx src).
Proof.
  unfold dataViewSet, byteLength. intros A B.
  rewrite (proj2 (Z.leb_le _ _) A), (proj2 (Z.leb_le _ _) B). reflexivity.
Qed.

Lemma dataViewSet_ok (buf : list byte) (idx : Z) (src buf' : list byte) :
  dataViewSet buf idx src = Ok buf' ->
  0 <= idx /\ idx + byteLength src <= byteLength buf /\ buf' = overwrite buf idx src.
Proof.
  unfold dataViewSet, byteLength.
  destruct (0 <=? idx) eqn:A; [|discriminate].
  destruct (idx + Z.of_nat (List.length src) <=? Z.of_nat (List.length buf)) eqn:B;
    [|discriminate].
  apply Z.leb_le in A, B. cbn [andb]. intros H. injection H as <-.
  repeat split; assumption.
Qed.

Lemma typedArraySet_in (buf : list byte) (offset : Z) (src : list byte) :
  0 <= offset -> offset + byteLength src <= byteLength buf ->
  typedArraySet buf offset src = Ok (overwrite buf offset src).
Proof.
  unfold typedArraySet, byteLength. intros A B.
  destruct (offset <? 0) eqn:E; [apply Z.ltb_lt in E; lia|].
  destruct (Z.of_nat (List.length buf) <? Z.of_nat (List.length src) + offset) eqn:F;
    [apply Z.ltb_lt in F; lia|reflexivity].
Qed.

Lemma typedArraySet_ok (buf : list byte) (offset : Z) (src buf' : list byte) :
  typedArraySet buf offset src = Ok buf' ->
  0 <= offset /\ offset + byteLength src <= byteLength buf
  /\ buf' = overwrite buf offset src.
Proof.
  unfold typedArraySet, byteLength.
  destruct (offset <? 0) eqn:E; [discriminate|].
  destruct (Z.of_nat (List.length buf) <? Z.of_nat (List.length src) + offset) eqn:F;
    [discriminate|].
  apply Z.ltb_ge in E, F. intros H. injection H as <-.
  repeat split; lia.
Qed.

Lemma readFixed_ok (size : nat) (decode : list byte -> Z) (w w' : MemoryWalker)
      (v : Z) :
  Walker.readFixed size decode w = (Ok v, w') ->
  exists bs, dataViewGet (buffer w) (next w) size = Ok bs
             /\ v = decode bs
             /\ w' = mkWalker (buffer w) (next w + Z.of_nat size).
Proof.
  unfold Walker.readFixed, bind, get, lift_outcome, Walker.setNext, ret.
  destruct (dataViewGet (buffer w) (next w) size) as [bs|e]; [|discriminate].
  cbn [buffer next]. intros H. injection H as <- <-.
  exists bs. repeat split.
Qed.

Lemma readFixed_in (size : nat) (decode : list byte -> Z) (w : MemoryWalker) :
  0 <= next w -> next w + Z.of_nat size <= byteLength (buffer w) ->
  Walker.readFixed size decode w
  = (Ok (decode (firstn size (skipn (Z.to_nat (next w)) (buffer w)))),
     mkWalker (buffer w) (next w + Z.of_nat size)).
Proof.
  intros A B.
  unfold Walker.readFixed, bind, get, lift_outcome, Walker.setNext, ret.
  rewrite (dataViewGet_in _ _ A B). reflexivity.
Qed.

(** X1: a 32-bit value written at a position inside the buffer is read back
    from that position, reduced modulo 2^32; the write keeps the length of
    the buffer and both operations leave the walker four bytes further. *)
Theorem written_uint32_is_read_back (w : MemoryWalker) (val : Z) :
  0 <= next w -> next w + 4 <= byteLength (buffer w) ->
  exists buf',
    Walker.writeUInt32LE val w = (Ok tt, mkWalker buf' (next w + 4))
    /\ byteLength buf' = byteLength (buffer w)
    /\ Walker.readUInt32LE (mkWalker buf' (next w))
       = (Ok (val mod 2 ^ 32), mkWalker buf' (next w + 4)).
Proof.
  intros A B.
  assert (L4 : byteLength (le_bytes 4 (toUint32 val)) = 4)
    by (unfold byteLength; rewrite le_bytes_length; reflexivity).
  exists (overwrite (buffer w) (next w) (le_bytes 4 (toUint32 val))).
  split; [|split].
  - unfold Walker.writeUInt32LE, bind, get, lift_outcome, Walker.setBuffer,
      Walker.setNext.
    rewrite dataViewSet_in by (rewrite ?L4; assumption). reflexivity.
  - apply overwrite_length; rewrite ?L4; assumption.
  - unfold Walker.readUInt32LE. rewrite readFixed_in; cbn [buffer next].
    + pose proof (@overwrite_read_back (buffer w) (next w)
                    (le_bytes 4 (toUint32 val)) A) as R.
      rewrite le_bytes_length in R. rewrite R by (rewrite L4; exact B).
      rewrite le_value_le_bytes. unfold toUint32.
      change (256 ^ Z.of_nat 4) with (2 ^ 32).
      rewrite Z.mod_mod by lia. reflexivity.
    + exact A.
    + rewrite overwrite_length by (rewrite ?L4; assumption). exact B.
Qed.

Lemma written_uint32_is_read_back_witness :
  0 <= next (mkWalker [x00; x00; x00; x00; x00] 1)
  /\ next (mkWalker [x00; x00; x00; x00; x00] 1) + 4
     <= byteLength (buffer (mkWalker [x00; x00; x00; x00; x00] 1))
  /\ exists buf',
      Walker.writeUInt32LE (-1) (mkWalker [x00; x00; x00; x00; x00] 1)
      = (Ok tt, mkWalker buf' (1 + 4))
      /\ byteLength buf' = 5
      /\ Walker.readUInt32LE (mkWalker buf' 1)
         = (Ok ((-1) mod 2 ^ 32), mkWalker buf' (1 + 4)).
Proof.
  assert (A : 0 <= next (mkWalker [x00; x00; x00; x00; x00] 1))
    by (vm_compute; discriminate).
  assert (B : next (mkWalker [x00; x00; x00; x00; x00] 1) + 4
              <= byteLength (buffer (mkWalker [x00; x00; x00; x00; x00] 1)))
    by (vm_compute; discriminate).
  split; [exact A|]. split; [exact B|].
  exact (written_uint32_is_read_back (mkWalker [x00; x00; x00; x00; x00] 1) (-1) A B).
Defined.

(** X2: bytes copied in with [writeAll] at a position inside the buffer are
    what [readSlice] returns from that position for their length. *)
Theorem written_bytes_are_read_back (w : MemoryWalker) (src : list byte) :
  0 <= next w -> next w + byteLength src <= byteLength (buffer w) ->
  exists buf',
    Walker.writeAll src w = (Ok tt, mkWalker buf' (next w + byteLength src))
    /\ byteLength buf' = byteLength (buffer w)
    /\ Walker.readSlice (byteLength src) (mkWalker buf' (next w))
       = (Ok src, mkWalker buf' (next w + byteLength src)).
Proof.
  intros A B.
  exists (overwrite (buffer w) (next w) src).
  split; [|split].
  - unfold Walker.writeAll, bind, get, lift_outcome, Walker.setBuffer,
      Walker.setNext.
    rewrite typedArraySet_in by assumption. reflexivity.
  - apply overwrite_length; assumption.
  - unfold Walker.readSlice, bind, get, Walker.setNext, ret. cbn [buffer next].
    rewrite slice_in_bounds.
    + replace (Z.to_nat (next w + byteLength src - next w))
        with (List.length src) by (unfold byteLength; lia).
      rewrite overwrite_read_back by assumption. reflexivity.
    + exact A.
    + unfold byteLength. lia.
    + rewrite overwrite_length by assumption. exact B.
Qed.

Lemma written_bytes_are_read_back_witness :
  0 <= next (mkWalker [x00; x00; x00; x00] 1)
  /\ next (mkWalker [x00; x00; x00; x00] 1) + byteLength [x61; x62]
     <= byteLength (buffer (mkWalker [x00; x00; x00; x00] 1))
  /\ exists buf',
      Walker.writeAll [x61; x62] (mkWalker [x00; x00; x00; x00] 1)
      = (Ok tt, mkWalker buf' (1 + byteLength [x61; x62]))
      /\ byteLength buf' = 4
      /\ Walker.readSlice (byteLength [x61; x62]) (mkWalker buf' 1)
         = (Ok [x61; x62], mkWalker buf' (1 + byteLength [x61; x62])).
Proof.
  assert (A : 0 <= next (mkWalker [x00; x00; x00; x00] 1))
    by (vm_compute; discriminate).
  assert (B : next (mkWalker [x00; x00; x00; x00] 1) + byteLength [x61; x62]
              <= byteLength (buffer (mkWalker [x00; x00; x00; x00] 1)))
    by (vm_compute; discriminate).
  split; [exact A|]. split; [exact B|].
  exact (written_bytes_are_read_back (mkWalker [x00; x00; x00; x00] 1) [x61; x62] A B).
Defined.

Lemma discard_ok {A} (m : Walker.W A) (w w' : MemoryWalker) :
  discard m w = (Ok tt, w') -> exists a, m w = (Ok a, w').
Proof.
  unfold discard, bind, ret. destruct (m w) as [[a|e] w1]; [|discriminate].
  intros H. injection H as <-. exists a. reflexivity.
Qed.

Lemma readUInt8_ok (w w' : MemoryWalker) (v : Z) :
  Walker.readUInt8 w = (Ok v, w') ->
  exists bs, dataViewGet (buffer w) (next w) 1 = Ok bs
             /\ v = le_value bs
             /\ w' = mkWalker (buffer w) (next w + 1).
Proof.
  unfold Walker.readUInt8, bind, get, lift_outcome, Walker.setNext, ret.
  cbn [buffer next].
  destruct (dataViewGet (buffer w) (next w) 1) as [bs|e]; [|discriminate].
  intros H. injection H as <- <-. exists bs. repeat split.
Qed.

(** X3: an operation of the walker that completes keeps the length of the
    buffer, and leaves every byte unchanged that lies before the walker's
    position or at or after its resulting position. *)
Theorem operations_are_local (decode : list byte -> string) (p : primitive)
        (w w' : MemoryWalker) :
  perform decode p w = (Ok tt, w') ->
  byteLength (buffer w') = byteLength (buffer w)
  /\ forall i, i < next w \/ resultingPosition p w <= i ->
               u8at (buffer w') i = u8at (buffer w) i.
Proof.
  intros H.
  assert (Same : buffer w' = buffer w ->
                 byteLength (buffer w') = byteLength (buffer w)
                 /\ forall i, i < next w \/ resultingPosition p w <= i ->
                              u8at (buffer w') i = u8at (buffer w) i).
  { intros ->. split; reflexivity. }
  destruct p; cbn [perform] in H;
    try (apply discard_ok in H; destruct H as [a H]).
  - apply Same. unfold Walker.readSlice, bind, get, Walker.setNext, ret in H.
    injection H as _ <-. reflexivity.
  - apply Same. unfold Walker.readBoolean, bind in H.
    destruct (Walker.readUInt8 w) as [[v|e] w1] eqn:R; [|discriminate H].
    injection H as _ <-.
    apply readUInt8_ok in R. destruct R as (bs & _ & _ & ->). reflexivity.
  - apply Same. apply readUInt8_ok in H. destruct H as (bs & _ & _ & ->).
    reflexivity.
  - apply Same. apply readFixed_ok in H. destruct H as (bs & _ & _ & ->).
    reflexivity.
  - apply Same. apply readFixed_ok in H. destruct H as (bs & _ & _ & ->).
    reflexivity.
  - apply Same. apply readFixed_ok in H. destruct H as (bs & _ & _ & ->).
    reflexivity.
  - apply Same. apply readFixed_ok in H. destruct H as (bs & _ & _ & ->).
    reflexivity.
  - apply Same. apply readFixed_ok in H. destruct H as (bs & _ & _ & ->).
    reflexivity.
  - apply Same. apply readFixed_ok in H. destruct H as (bs & _ & _ & ->).
    reflexivity.
  - apply Same. apply readFixed_ok in H. destruct H as (bs & _ & _ & ->).
    reflexivity.
  - apply Same.
    unfold Walker.readNullTerminatedString, bind, get, Walker.setNext, ret in H.
    injection H as _ <-. reflexivity.
  - apply Same. unfold Walker.readAndDereferencePointer, bind in H.
    destruct (Walker.readUInt32LE w) as [[v|e] w1] eqn:R; [|discriminate H].
    unfold get, ret in H. injection H as _ <-.
    apply readFixed_ok in R. destruct R as (bs & _ & _ & ->). reflexivity.
  - unfold Walker.writeUInt32LE, bind, get, lift_outcome, Walker.setBuffer,
      Walker.setNext in H.
    destruct (dataViewSet (buffer w) (next w) (le_bytes 4 (toUint32 val)))
      as [b|e] eqn:S; [|discriminate H].
    injection H as <-. cbn [buffer next].
    apply dataViewSet_ok in S. destruct S as (A & B & ->).
    split; [apply overwrite_length; assumption|].
    intros i O. apply u8at_overwrite_outside; assumption.
  - unfold Walker.writeAll, bind, get, lift_outcome, Walker.setBuffer,
      Walker.setNext in H.
    destruct (typedArraySet (buffer w) (next w) src) as [b|e] eqn:S;
      [|discriminate H].
    injection H as <-. cbn [buffer next].
    apply typedArraySet_ok in S. destruct S as (A & B & ->).
    split; [apply overwrite_length; assumption|].
    intros i O. apply u8at_overwrite_outside; assumption.
Qed.

Lemma operations_are_local_witness :
  perform utf8Decode (PWriteAll [x61; x62]) (mkWalker [x01; x02; x03; x04] 1)
  = (Ok tt, mkWalker [x01; x61; x62; x04] 3)
  /\ byteLength (buffer (mkWalker [x01; x61; x62; x04] 3))
     = byteLength (buffer (mkWalker [x01; x02; x03; x04] 1))
  /\ forall i,
      i < next (mkWalker [x01; x02; x03; x04] 1)
      \/ resultingPosition (PWriteAll [x61; x62]) (mkWalker [x01; x02; x03; x04] 1)
         <= i ->
      u8at (buffer (mkWalker [x01; x61; x62; x04] 3)) i
      = u8at (buffer (mkWalker [x01; x02; x03; x04] 1)) i.
Proof.
  assert (H : perform utf8Decode (PWriteAll [x61; x62])
                      (mkWalker [x01; x02; x03; x04] 1)
              = (Ok tt, mkWalker [x01; x61; x62; x04] 3))
    by (vm_compute; reflexivity).
  split; [exact H|].
  exact (operations_are_local utf8Decode (PWriteAll [x61; x62])
           (mkWalker [x01; x02; x03; x04] 1) H).
Defined.

Lemma toSigned_range (bits z : Z) :
  0 < bits -> 0 <= z < 2 ^ bits ->
  - 2 ^ (bits - 1) <= toSigned bits z < 2 ^ (bits - 1).
Proof.
  intros B R. unfold toSigned.
  assert (E : 2 ^ bits = 2 * 2 ^ (bits - 1)).
  { replace bits with (Z.succ (bits - 1)) at 1 by lia.
    apply Z.pow_succ_r. lia. }
  destruct (z <? 2 ^ (bits - 1)) eqn:C.
  - apply Z.ltb_lt in C. lia.
  - apply Z.ltb_ge in C. lia.
Qed.

Lemma fixed_bytes_range (buf : list byte) (idx : Z) (size : nat) (bs : list byte) :
  dataViewGet buf idx size = Ok bs ->
  0 <= le_value bs < 256 ^ Z.of_nat size
  /\ 0 <= be_value bs < 256 ^ Z.of_nat size.
Proof.
  intros H. apply dataViewGet_ok in H. destruct H as (_ & _ & _ & L).
  split.
  - rewrite <- L. apply le_value_range.
  - unfold be_value. rewrite <- L, <- length_rev. apply le_value_range.
Qed.

(** X4: what the fixed-width readers return lies in the range of their
    type: a byte in 0..255, an unsigned 32-bit value below 2^32, a signed
    one between -2^31 and 2^31 - 1, and likewise for 64 bits; each reader
    leaves the buffer as it was and moves the walker by its width. *)
Theorem fixed_reads_are_in_range (w w' : MemoryWalker) (v : Z) :
  (Walker.readUInt8 w = (Ok v, w') ->
   0 <= v < 256 /\ w' = mkWalker (buffer w) (next w + 1))
  /\ (Walker.readUInt32LE w = (Ok v, w') \/ Walker.readUInt32BE w = (Ok v, w') ->
      0 <= v < 2 ^ 32 /\ w' = mkWalker (buffer w) (next w + 4))
  /\ (Walker.readInt32LE w = (Ok v, w') \/ Walker.readInt32BE w = (Ok v, w') ->
      - 2 ^ 31 <= v < 2 ^ 31 /\ w' = mkWalker (buffer w) (next w + 4))
  /\ (Walker.readUInt64LE w = (Ok v, w') ->
      0 <= v < 2 ^ 64 /\ w' = mkWalker (buffer w) (next w + 8))
  /\ (Walker.readInt64LE w = (Ok v, w') ->
      - 2 ^ 63 <= v < 2 ^ 63 /\ w' = mkWalker (buffer w) (next w + 8)).
Proof.
  split; [|split; [|split; [|split]]].
  - intros H. apply readUInt8_ok in H. destruct H as (bs & D & -> & ->).
    split; [|reflexivity]. exact (proj1 (fixed_bytes_range _ _ _ D)).
  - intros [H|H]; apply readFixed_ok in H; destruct H as (bs & D & -> & ->);
      (split; [|reflexivity]).
    + exact (proj1 (fixed_bytes_range _ _ _ D)).
    + exact (proj2 (fixed_bytes_range _ _ _ D)).
  - intros [H|H]; apply readFixed_ok in H; destruct H as (bs & D & -> & ->);
      (split; [|reflexivity]).
    + apply (@toSigned_range 32); [lia|]. exact (proj1 (fixed_bytes_range _ _ _ D)).
    + apply (@toSigned_range 32); [lia|]. exact (proj2 (fixed_bytes_range _ _ _ D)).
  - intros H. apply readFixed_ok in H. destruct H as (bs & D & -> & ->).
    split; [|reflexivity]. exact (proj1 (fixed_bytes_range _ _ _ D)).
  - intros H. apply readFixed_ok in H. destruct H as (bs & D & -> & ->).
    split; [|reflexivity].
    apply (@toSigned_range 64); [lia|]. exact (proj1 (fixed_bytes_range _ _ _ D)).
Qed.

Lemma fixed_reads_are_in_range_witness :
  Walker.readInt32LE (mkWalker [xff; xff; xff; xff] 0)
  = (Ok (-1), mkWalker [xff; xff; xff; xff] 4)
  /\ (- 2 ^ 31 <= -1 < 2 ^ 31
      /\ mkWalker [xff; xff; xff; xff] 4
         = mkWalker (buffer (mkWalker [xff; xff; xff; xff] 0))
                    (next (mkWalker [xff; xff; xff; xff] 0) + 4)).
Proof.
  assert (H : Walker.readInt32LE (mkWalker [xff; xff; xff; xff] 0)
              = (Ok (-1), mkWalker [xff; xff; xff; xff] 4))
    by (vm_compute; reflexivity).
  split; [exact H|].
  exact (proj1 (proj2 (proj2 (fixed_reads_are_in_range
                                (mkWalker [xff; xff; xff; xff] 0)
                                (mkWalker [xff; xff; xff; xff] 4) (-1))))
               (or_introl H)).
Defined.

Lemma b2z_zero (b : byte) : b2z b = 0 -> b = x00.
Proof.
  unfold b2z. intros H.
  assert (E : Byte.to_N b = 0%N) by lia.
  pose proof (Byte.of_to_N b) as O. rewrite E in O.
  injection O as <-. reflexivity.
Qed.

Lemma truthyAt_inside (buf : list byte) (i : Z) :
  truthyAt buf i = true ->
  0 <= i < byteLength buf
  /\ exists b, nth_error buf (Z.to_nat i) = Some b /\ b <> x00.
Proof.
  unfold truthyAt, u8at.
  destruct (0 <=? i) eqn:A; [|discriminate].
  destruct (i <? byteLength buf) eqn:B; [|discriminate].
  apply Z.leb_le in A. apply Z.ltb_lt in B. cbn [andb].
  destruct (nth_error buf (Z.to_nat i)) as [b|]; [|discriminate].
  intros H. split; [lia|]. exists b. split; [reflexivity|].
  intros ->. discriminate H.
Qed.

Lemma scanToNul_run (buf : list byte) (fuel : nat) :
  forall e,
    e <= Walker.scanToNul fuel buf e
    /\ forall i, e <= i < Walker.scanToNul fuel buf e -> truthyAt buf i = true.
Proof.
  induction fuel as [|fuel IH]; intros e; simpl.
  - split; [lia|]. intros i H. lia.
  - destruct (truthyAt buf e) eqn:T.
    + destruct (IH (e + 1)) as [L A]. split; [lia|].
      intros i H. destruct (Z.eq_dec i e) as [->|N]; [exact T|].
      apply A. lia.
    + split; [lia|]. intros i H. lia.
Qed.

Lemma firstn_skipn_Forall {A} (P : A -> Prop) (l : list A) (a n : nat) :
  (forall j x, (a <= j < a + n)%nat -> nth_error l j = Some x -> P x) ->
  Forall P (firstn n (skipn a l)).
Proof.
  intros H. apply Forall_forall. intros x I.
  apply In_nth_error in I. destruct I as [j I].
  assert (J : (j < n)%nat).
  { assert (nth_error (firstn n (skipn a l)) j <> None) by congruence.
    apply nth_error_Some in H0. rewrite length_firstn in H0. lia. }
  rewrite nth_error_firstn in I.
  destruct (Nat.ltb_spec j n); [|lia].
  rewrite nth_error_skipn in I.
  apply (H (a + j)%nat); [lia|exact I].
Qed.

(** X5: from a position inside the buffer, [readNullTerminatedString]
    decodes the bytes up to the first zero byte, or up to the end of the
    buffer when there is none; none of the bytes it decodes is zero, and the
    walker is left one past where the scan stopped. *)
Theorem string_read_stops_at_first_nul (decode : list byte -> string)
        (w : MemoryWalker) :
  0 <= next w <= byteLength (buffer w) ->
  exists bytes e,
    Walker.readNullTerminatedString decode w
    = (Ok (decode bytes), mkWalker (buffer w) (e + 1))
    /\ next w <= e <= byteLength (buffer w)
    /\ bytes = firstn (Z.to_nat (e - next w)) (skipn (Z.to_nat (next w)) (buffer w))
    /\ Forall (fun b => b <> x00) bytes
    /\ (e < byteLength (buffer w) -> u8at (buffer w) e = Some x00).
Proof.
  intros [A B].
  set (e := Walker.stringEnd (buffer w) (next w)).
  destruct (scanToNul_run (buffer w) (List.length (buffer w)) (next w)) as [Le T].
  fold (Walker.stringEnd (buffer w) (next w)) in Le, T. fold e in Le, T.
  pose proof (stringEnd_stops (buffer w) A) as Stop. fold e in Stop.
  assert (Ue : e <= byteLength (buffer w)).
  { destruct (Z.le_gt_cases e (byteLength (buffer w))) as [H|H]; [exact H|].
    assert (X : truthyAt (buffer w) (byteLength (buffer w)) = true)
      by (apply T; lia).
    apply truthyAt_inside in X. lia. }
  exists (firstn (Z.to_nat (e - next w)) (skipn (Z.to_nat (next w)) (buffer w))), e.
  split; [|split; [|split; [|split]]].
  - unfold Walker.readNullTerminatedString, bind, get, Walker.setNext, ret.
    fold e. rewrite slice_in_bounds by lia. reflexivity.
  - lia.
  - reflexivity.
  - apply firstn_skipn_Forall. intros j x J N.
    assert (X : truthyAt (buffer w) (Z.of_nat j) = true) by (apply T; lia).
    apply truthyAt_inside in X. destruct X as (_ & b & N' & Nz).
    rewrite Nat2Z.id in N'. congruence.
  - intros Lt. rewrite u8at_nth by lia.
    unfold truthyAt in Stop. rewrite u8at_nth in Stop by lia.
    destruct (nth_error (buffer w) (Z.to_nat e)) as [b|] eqn:N.
    + f_equal. apply b2z_zero.
      destruct (b2z b =? 0) eqn:Z0; [apply Z.eqb_eq; exact Z0|discriminate Stop].
    + apply nth_error_None in N. unfold byteLength in Lt. lia.
Qed.

Lemma string_read_stops_at_first_nul_witness :
  0 <= next (mkWalker [x68; x69; x00; x21] 0)
    <= byteLength (buffer (mkWalker [x68; x69; x00; x21] 0))
  /\ exists bytes e,
      Walker.readNullTerminatedString utf8Decode (mkWalker [x68; x69; x00; x21] 0)
      = (Ok (utf8Decode bytes), mkWalker [x68; x69; x00; x21] (e + 1))
      /\ 0 <= e <= 4
      /\ bytes = firstn (Z.to_nat (e - 0)) (skipn (Z.to_nat 0) [x68; x69; x00; x21])
      /\ Forall (fun b => b <> x00) bytes
      /\ (e < 4 -> u8at [x68; x69; x00; x21] e = Some x00).
Proof.
  assert (H : 0 <= next (mkWalker [x68; x69; x00; x21] 0)
                <= byteLength (buffer (mkWalker [x68; x69; x00; x21] 0)))
    by (vm_compute; split; discriminate).
  split; [exact H|].
  exact (string_read_stops_at_first_nul utf8Decode
           (mkWalker [x68; x69; x00; x21] 0) H).
Defined.

(** ** readResult *)

Lemma readDocuments_ok (count : nat) :
  forall (w w' : MemoryWalker) (docs : list Z),
    readDocuments count w = (Ok docs, w') ->
    List.length docs = count
    /\ Forall (fun d => 0 <= d < 2 ^ 32) docs
    /\ w' = mkWalker (buffer w) (next w + 4 * Z.of_nat count).
Proof.
  induction count as [|count IH]; intros w w' docs H; simpl in H.
  - injection H as <- <-. repeat split; [constructor|].
    destruct w as [b n]. cbn [buffer next]. f_equal. lia.
  - unfold bind in H.
    destruct (Walker.readUInt32LE w) as [[d|e] w1] eqn:R; [|discriminate H].
    destruct (readDocuments count w1) as [[ds|e] w2] eqn:D; [|discriminate H].
    injection H as <- <-.
    apply readFixed_ok in R. destruct R as (bs & G & -> & ->).
    pose proof (proj1 (fixed_bytes_range _ _ _ G)) as Rg.
    destruct (IH _ _ _ D) as (L & F & ->). cbn [buffer next].
    split; [simpl; congruence|]. split; [constructor; assumption|].
    f_equal. lia.
Qed.

(** X6: a result that [readResult] returns has at most 255 documents, each
    an unsigned 32-bit number, an unsigned 32-bit total, and a continuation
    that is a signed 32-bit number other than -1 or is absent; reading it
    leaves the buffer as it was and moves the walker by twelve bytes and
    four more for each document. *)
Theorem readResult_shape (w w' : MemoryWalker) (r : QueryResult) :
  readResult w = (Ok r, w') ->
  (List.length (documents r) <= 255)%nat
  /\ Forall (fun d => 0 <= d < 2 ^ 32) (documents r)
  /\ 0 <= total r < 2 ^ 32
  /\ (forall c, continuation r = Some c -> - 2 ^ 31 <= c < 2 ^ 31 /\ c <> -1)
  /\ w' = mkWalker (buffer w)
                   (next w + 12 + 4 * Z.of_nat (List.length (documents r))).
Proof.
  unfold readResult, bind. intros H.
  destruct (Walker.readInt32LE w) as [[c|e] w1] eqn:R1; [|discriminate H].
  destruct (Walker.readUInt32LE w1) as [[t|e] w2] eqn:R2; [|discriminate H].
  destruct (Walker.readUInt8 w2) as [[n|e] w3] eqn:R3; [|discriminate H].
  unfold Walker.skip, bind, get, Walker.setNext in H.
  destruct (readDocuments (Z.to_nat n) _) as [[docs|e] w4] eqn:R4;
    [|discriminate H].
  unfold ret in H. injection H as <- <-. cbn [documents total continuation].
  apply readFixed_ok in R1. destruct R1 as (b1 & G1 & -> & ->).
  apply readFixed_ok in R2. destruct R2 as (b2 & G2 & -> & ->).
  apply readUInt8_ok in R3. destruct R3 as (b3 & G3 & -> & ->).
  apply readDocuments_ok in R4. destruct R4 as (L & F & ->).
  cbn [buffer next] in *.
  pose proof (proj1 (fixed_bytes_range _ _ _ G1)) as Rg1.
  pose proof (proj1 (fixed_bytes_range _ _ _ G2)) as Rg2.
  pose proof (proj1 (fixed_bytes_range _ _ _ G3)) as Rg3.
  split; [rewrite L; change (256 ^ Z.of_nat 1) with 256 in Rg3; lia|].
  split; [exact F|]. split; [exact Rg2|]. split.
  - intros c0 E.
    destruct (toSigned 32 (le_value b1) =? -1) eqn:M; [discriminate E|].
    injection E as <-. apply Z.eqb_neq in M. split; [|exact M].
    apply (@toSigned_range 32); [lia|exact Rg1].
  - rewrite L. f_equal.
    change (256 ^ Z.of_nat 1) with 256 in Rg3. lia.
Qed.

Lemma readResult_shape_witness :
  readResult (mkWalker [xff; xff; xff; xff; x02; x00; x00; x00; x01; x00; x00; x00;
                        x07; x00; x00; x00] 0)
  = (Ok (mkQueryResult None 2 [7]),
     mkWalker [xff; xff; xff; xff; x02; x00; x00; x00; x01; x00; x00; x00;
               x07; x00; x00; x00] 16)
  /\ (List.length (documents (mkQueryResult None 2 [7%Z])) <= 255)%nat.
Proof.
  assert (H : readResult
                (mkWalker [xff; xff; xff; xff; x02; x00; x00; x00; x01; x00; x00; x00;
                           x07; x00; x00; x00] 0)
              = (Ok (mkQueryResult None 2 [7]),
                 mkWalker [xff; xff; xff; xff; x02; x00; x00; x00; x01; x00; x00; x00;
                           x07; x00; x00; x00] 16))
    by (vm_compute; reflexivity).
  split; [exact H|].
  exact (proj1 (@readResult_shape _ _ _ H)).
Defined.

(** ** buildIndexQuery *)

Lemma skipn_repeat {A} (a : A) (n k : nat) :
  skipn n (repeat a k) = repeat a (k - n).
Proof.
  revert k. induction n as [|n IH]; intros k.
  - rewrite Nat.sub_0_r. reflexivity.
  - destruct k as [|k]; [reflexivity|]. simpl. apply IH.
Qed.

Lemma overwrite_filled (written src : list byte) (k : nat) :
  (List.length src <= k)%nat ->
  overwrite (written ++ repeat x00 k) (byteLength written) src
  = (written ++ src) ++ repeat x00 (k - List.length src).
Proof.
  intros L. unfold overwrite, byteLength. rewrite Nat2Z.id.
  rewrite firstn_app, Nat.sub_diag, firstn_all. cbn [firstn].
  rewrite app_nil_r, <- app_assoc. f_equal. f_equal.
  rewrite skipn_app.
  rewrite skipn_all2 by lia. cbn [app].
  replace (List.length written + List.length src - List.length written)%nat
    with (List.length src) by lia.
  apply skipn_repeat.
Qed.

Lemma word_length (z : Z) : List.length (word z) = 4%nat.
Proof. apply le_bytes_length. Qed.

Lemma writeUInt32LE_filled (input input' : MemoryWalker) (written : list byte)
      (k : nat) (v : Z) :
  filled input written k ->
  Walker.writeUInt32LE v input = (Ok tt, input') ->
  exists k', k = (4 + k')%nat /\ filled input' (written ++ word v) k'.
Proof.
  intros [B N] H.
  unfold Walker.writeUInt32LE, bind, get, lift_outcome, Walker.setBuffer,
    Walker.setNext in H.
  destruct (dataViewSet (buffer input) (next input) (le_bytes 4 (toUint32 v)))
    as [b|e] eqn:S; [|discriminate H].
  injection H as <-. cbn [buffer next].
  apply dataViewSet_ok in S. destruct S as (_ & Bd & ->).
  rewrite B, N in *. unfold byteLength in Bd.
  rewrite length_app, repeat_length, le_bytes_length in Bd.
  exists (k - 4)%nat. split; [lia|].
  unfold filled. cbn [buffer next]. split.
  - fold (word v). rewrite overwrite_filled by (rewrite word_length; lia).
    rewrite word_length. reflexivity.
  - fold (word v). unfold byteLength. rewrite length_app, word_length. lia.
Qed.

Lemma termCountOf_map {A B} (f : A -> B) (query : list (list A)) :
  termCountOf (map (map f) query) = termCountOf query.
Proof.
  induction query as [|l query IH]; [reflexivity|].
  cbn [map]. rewrite !termCountOf_cons, IH, length_map. reflexivity.
Qed.

Lemma modeWords_length (entries : list (Z * Z)) :
  byteLength (modeWords entries) = 8 * Z.of_nat (List.length entries) + 4.
Proof.
  unfold byteLength.
  induction entries as [|[len ptr] entries IH]; cbn [modeWords List.length].
  - rewrite word_length. reflexivity.
  - rewrite !length_app, !word_length. lia.
Qed.

Lemma layout_length (firstRank : Z) (entries : list (list (Z * Z))) :
  byteLength (indexQueryLayout firstRank entries)
  = 4 + 8 * termCountOf entries + 4 * Z.of_nat (List.length entries).
Proof.
  unfold indexQueryLayout, byteLength. rewrite length_app, word_length.
  induction entries as [|es entries IH]; [reflexivity|].
  cbn [flat_map List.length]. rewrite length_app, termCountOf_cons.
  pose proof (modeWords_length es) as M. unfold byteLength in M. lia.
Qed.

Section IndexQuery.

Variable G : Type.
Variable queryRunner : QueryRunner G.

Lemma onInput_ok (op : Walker.W unit) (input input' : MemoryWalker)
      (w w' : World G) :
  onInput op input w = (Ok input', w') -> op input = (Ok tt, input') /\ w' = w.
Proof.
  unfold onInput. destruct (op input) as [[[]|e] i]; [|discriminate].
  intros H. injection H as <- <-. split; reflexivity.
Qed.

Lemma writeBitmap_filled (input input' : MemoryWalker) (bitmap written : list byte)
      (k : nat) (w w' : World G) :
  filled input written k ->
  writeBitmap queryRunner input bitmap w = (Ok input', w') ->
  exists ptr k' w1,
    invoke queryRunner (CMalloc (byteLength bitmap)) w = (Ok ptr, w1)
    /\ onMemory ptr (Walker.writeAll bitmap) w1 = (Ok tt, w')
    /\ k = (8 + k')%nat
    /\ filled input' (written ++ word (byteLength bitmap) ++ word ptr) k'.
Proof.
  intros F H. unfold writeBitmap in H. unfold bind at 1 2 in H.
  destruct (invoke queryRunner (CMalloc (byteLength bitmap)) w)
    as [[ptr|e] w1] eqn:I; [|discriminate H].
  destruct (onMemory ptr (Walker.writeAll bitmap) w1) as [[[]|e] w2] eqn:O;
    [|discriminate H].
  apply onInput_ok in H. destruct H as [H <-]. unfold bind in H.
  destruct (Walker.writeUInt32LE (byteLength bitmap) input) as [[[]|e] i1] eqn:W1;
    [|discriminate H].
  destruct (@writeUInt32LE_filled _ _ _ _ _ F W1) as (k1 & -> & F1).
  destruct (@writeUInt32LE_filled _ _ _ _ _ F1 H) as (k2 & -> & F2).
  exists ptr, k2, w1. split; [reflexivity|]. split; [exact O|].
  split; [lia|]. rewrite <- app_assoc in F2. exact F2.
Qed.

Lemma writeMode_filled (mode : list (list byte)) :
  forall (input input' : MemoryWalker) (written : list byte) (k : nat)
         (w w' : World G),
    filled input written k ->
    writeMode queryRunner input mode w = (Ok input', w') ->
    exists entries k',
      placeMode queryRunner mode w = (Ok entries, w')
      /\ map fst entries = map byteLength mode
      /\ k = (8 * List.length mode + 4 + k')%nat
      /\ filled input' (written ++ modeWords entries) k'.
Proof.
  induction mode as [|bitmap mode IH]; intros input input' written k w w' F H;
    cbn [writeMode] in H.
  - apply onInput_ok in H. destruct H as [H <-].
    destruct (@writeUInt32LE_filled _ _ _ _ _ F H) as (k1 & -> & F1).
    exists [], k1. split; [reflexivity|]. split; [reflexivity|].
    split; [reflexivity|exact F1].
  - unfold bind in H.
    destruct (writeBitmap queryRunner input bitmap w) as [[i1|e] w1] eqn:B;
      [|discriminate H].
    destruct (@writeBitmap_filled _ _ _ _ _ _ _ F B)
      as (ptr & k1 & w0 & I & O & -> & F1).
    destruct (IH _ _ _ _ _ _ F1 H) as (entries & k2 & P & E & -> & F2).
    exists ((byteLength bitmap, ptr) :: entries), k2.
    split; [|split; [|split]].
    + cbn [placeMode]. unfold bind. rewrite I, O, P. reflexivity.
    + cbn [map fst]. rewrite E. reflexivity.
    + cbn [List.length]. lia.
    + cbn [modeWords]. rewrite <- !app_assoc in F2. exact F2.
Qed.

Lemma writeModes_filled (modes : list (list (list byte))) :
  forall (input input' : MemoryWalker) (written : list byte) (k : nat)
         (w w' : World G),
    filled input written k ->
    writeModes queryRunner input modes w = (Ok input', w') ->
    exists entries k',
      placeModes queryRunner modes w = (Ok entries, w')
      /\ map (map fst) entries = map (map byteLength) modes
      /\ Z.of_nat k = 8 * termCountOf modes + 4 * Z.of_nat (List.length modes)
                      + Z.of_nat k'
      /\ filled input' (written ++ flat_map modeWords entries) k'.
Proof.
  induction modes as [|mode modes IH]; intros input input' written k w w' F H;
    cbn [writeModes] in H.
  - injection H as <- <-. exists [], k.
    split; [reflexivity|]. split; [reflexivity|]. split; [reflexivity|].
    cbn [flat_map]. rewrite app_nil_r. exact F.
  - unfold bind in H.
    destruct (writeMode queryRunner input mode w) as [[i1|e] w1] eqn:M;
      [|discriminate H].
    destruct (@writeMode_filled mode _ _ _ _ _ _ F M)
      as (es & k1 & P1 & E1 & -> & F1).
    destruct (IH _ _ _ _ _ _ F1 H) as (ess & k2 & P2 & E2 & K & F2).
    exists (es :: ess), k2.
    split; [|split; [|split]].
    + unfold placeModes in *. cbn [mapM]. unfold bind. rewrite P1, P2.
      reflexivity.
    + cbn [map]. rewrite E1, E2. reflexivity.
    + rewrite termCountOf_cons. cbn [List.length]. lia.
    + cbn [flat_map]. rewrite <- app_assoc in F2. exact F2.
Qed.

(** X7: the bytes that [buildIndexQuery] returns for three modes are the
    cursor as a 32-bit little-endian word, then for each mode two words
    for each bitmap, its length and the address that [malloc] returned
    for it and that it was copied to, and a zero word; the buffer is
    filled exactly, with the bitmaps in the order given, and the instance
    is left as these calls of [malloc] and these copies leave it. *)
Theorem buildIndexQuery_layout (firstRank : Z)
        (modeTermBitmaps : list (list (list byte))) (data : list byte)
        (w w' : World G) :
  List.length modeTermBitmaps = 3%nat ->
  buildIndexQuery queryRunner firstRank modeTermBitmaps w = (Ok data, w') ->
  exists entries,
    placeModes queryRunner modeTermBitmaps w = (Ok entries, w')
    /\ map (map fst) entries = map (map byteLength) modeTermBitmaps
    /\ data = indexQueryLayout firstRank entries
    /\ byteLength data = indexQuerySize (termCountOf modeTermBitmaps).
Proof.
  intros L3 H. unfold buildIndexQuery, bind in H.
  set (n := Z.to_nat (indexQuerySize (termCountOf modeTermBitmaps))) in H.
  destruct (onInput (Walker.writeUInt32LE firstRank) (mkWalker (repeat x00 n) 0) w)
    as [[i1|e] w1] eqn:W0; [|discriminate H].
  destruct (writeModes queryRunner i1 modeTermBitmaps w1) as [[i2|e] w2] eqn:W1;
    [|discriminate H].
  unfold ret in H. injection H as <- <-.
  apply onInput_ok in W0. destruct W0 as [W0 ->].
  assert (F0 : filled (mkWalker (repeat x00 n) 0) [] n) by (split; reflexivity).
  destruct (@writeUInt32LE_filled _ _ _ _ _ F0 W0) as (k1 & K1 & F1).
  destruct (@writeModes_filled modeTermBitmaps _ _ _ _ _ _ F1 W1)
    as (entries & k2 & P & E & K2 & [B2 N2]).
  assert (C : 0 <= termCountOf modeTermBitmaps).
  { clear. induction modeTermBitmaps as [|m ms IH]; [reflexivity|].
    rewrite termCountOf_cons. lia. }
  assert (Z0 : k2 = 0%nat).
  { subst n. unfold indexQuerySize in K1. rewrite L3 in K2. lia. }
  subst k2. cbn [repeat] in B2. rewrite app_nil_r in B2.
  exists entries. split; [exact P|]. split; [exact E|]. split.
  - rewrite B2. reflexivity.
  - rewrite B2. cbn [app]. fold (indexQueryLayout firstRank entries).
    rewrite layout_length.
    rewrite <- (termCountOf_map fst entries), E, termCountOf_map.
    assert (LE : List.length entries = List.length modeTermBitmaps).
    { rewrite <- (length_map (map fst) entries), E, length_map. reflexivity. }
    rewrite LE, L3. unfold indexQuerySize. lia.
Qed.

End IndexQuery.

Lemma buildIndexQuery_layout_witness :
  List.length [[[x01; x02; x03]]; []; [[x02]]] = 3%nat
  /\ buildIndexQuery Fixture.queryRunner 5 [[[x01; x02; x03]]; []; [[x02]]]
       (afterReset Fixture.fresh Fixture.loaded)
     = (Ok (indexQueryLayout 5 [[(3, 32)]; []; [(1, 35)]]),
        snd (buildIndexQuery Fixture.queryRunner 5 [[[x01; x02; x03]]; []; [[x02]]]
               (afterReset Fixture.fresh Fixture.loaded)))
  /\ exists entries,
      placeModes Fixture.queryRunner [[[x01; x02; x03]]; []; [[x02]]]
        (afterReset Fixture.fresh Fixture.loaded)
      = (Ok entries,
         snd (buildIndexQuery Fixture.queryRunner 5
                [[[x01; x02; x03]]; []; [[x02]]]
                (afterReset Fixture.fresh Fixture.loaded)))
      /\ map (map fst) entries = map (map byteLength) [[[x01; x02; x03]]; []; [[x02]]]
      /\ indexQueryLayout 5 [[(3, 32)]; []; [(1, 35)]]
         = indexQueryLayout 5 entries
      /\ byteLength (indexQueryLayout 5 [[(3, 32)]; []; [(1, 35)]])
         = indexQuerySize (termCountOf [[[x01; x02; x03]]; []; [[x02]]]).
Proof.
  assert (L : List.length [[[x01; x02; x03]]; []; [[x02]]] = 3%nat) by reflexivity.
  assert (H : buildIndexQuery Fixture.queryRunner 5 [[[x01; x02; x03]]; []; [[x02]]]
                (afterReset Fixture.fresh Fixture.loaded)
              = (Ok (indexQueryLayout 5 [[(3, 32)]; []; [(1, 35)]]),
                 snd (buildIndexQuery Fixture.queryRunner 5
                        [[[x01; x02; x03]]; []; [[x02]]]
                        (afterReset Fixture.fresh Fixture.loaded))))
    by (vm_compute; reflexivity).
  split; [exact L|]. split; [exact H|].
  exact (@buildIndexQuery_layout Z Fixture.queryRunner 5
           [[[x01; x02; x03]]; []; [[x02]]] _ _ _ L H).
Defined.

(** ** The terms of a parsed query *)

Lemma parseLoop_contents (termsRaw : list string) (a b c : list string)
      (query : ParsedQuery) :
  parseLoop termsRaw [a; b; c] = Ok (Some query) ->
  query = [a ++ termsOfMode 0 termsRaw;
           b ++ termsOfMode 1 termsRaw;
           c ++ termsOfMode 2 termsRaw].
Proof.
  revert a b c. induction termsRaw as [|v rest IH]; intros a b c H.
  - simpl in H. injection H as <-. simpl. rewrite !app_nil_r. reflexivity.
  - cbn [parseLoop] in H. rewrite matchHere_termPattern in H.
    destruct (patternShape v) eqn:P; [|discriminate H].
    destruct v as [|d [|u body]]; try discriminate P.
    cbn [Regex.group Nat.eqb] in H.
    cbn [termsOfMode hasMode termOfValue modeDigit].
    destruct (decodeURIComponent (termOf body)) as [term|e]; [|discriminate H].
    assert (D : Regex.inString "012" d = true).
    { simpl in P. destruct body; [discriminate P|].
      apply andb_true_iff in P. destruct P as [P _].
      apply andb_true_iff in P. apply P. }
    simpl in D.
    repeat (apply orb_true_iff in D; destruct D as [D|D]);
      try discriminate D; apply Ascii.eqb_eq in D; subst d.
    + change (Z.to_nat (orZero (parseInt10 "0"))) with 0%nat in H.
      cbn [pushAt] in H. apply IH in H. subst query.
      simpl Ascii.eqb. cbv iota. rewrite <- !app_assoc. reflexivity.
    + change (Z.to_nat (orZero (parseInt10 "1"))) with 1%nat in H.
      cbn [pushAt] in H. apply IH in H. subst query.
      simpl Ascii.eqb. cbv iota. rewrite <- !app_assoc. reflexivity.
    + change (Z.to_nat (orZero (parseInt10 "2"))) with 2%nat in H.
      cbn [pushAt] in H. apply IH in H. subst query.
      simpl Ascii.eqb. cbv iota. rewrite <- !app_assoc. reflexivity.
Qed.

(** X8.  A parsed query is three lists, for Require, Contain and Exclude:
    each holds the decoded terms of the values that begin with its digit,
    in the order of the values, so that the query has one term for each
    value. *)
Theorem parsed_query_contents (termsRaw : list string) (query : ParsedQuery) :
  parseQuery termsRaw = Ok (Some query) ->
  query = [termsOfMode 0 termsRaw; termsOfMode 1 termsRaw; termsOfMode 2 termsRaw]
  /\ termCountOf query = Z.of_nat (List.length termsRaw).
Proof.
  intros H. split.
  - apply parseLoop_contents in H. exact H.
  - apply parseLoop_count in H; [|reflexivity].
    destruct H as [H _]. rewrite H. reflexivity.
Qed.

Lemma parsed_query_contents_witness :
  parseQuery ["1_b"; "0_a%20c"; "1_d&e"] = Ok (Some [["a c"]; ["b"; "d"]; []])
  /\ [["a c"]; ["b"; "d"]; []]
     = [termsOfMode 0 ["1_b"; "0_a%20c"; "1_d&e"];
        termsOfMode 1 ["1_b"; "0_a%20c"; "1_d&e"];
        termsOfMode 2 ["1_b"; "0_a%20c"; "1_d&e"]]
  /\ termCountOf [["a c"]; ["b"; "d"]; []]
     = Z.of_nat (List.length ["1_b"; "0_a%20c"; "1_d&e"]).
Proof.
  assert (H : parseQuery ["1_b"; "0_a%20c"; "1_d&e"]
              = Ok (Some [["a c"]; ["b"; "d"]; []]))
    by (vm_compute; reflexivity).
  split; [exact H|].
  exact (@parsed_query_contents _ _ H).
Defined.

(** ** Text after an ampersand *)

Lemma termOf_ampersand (body junk : string) :
  termOf (body ++ String "&" junk)%string = termOf body.
Proof.
  induction body as [|c body IH]; simpl.
  - reflexivity.
  - destruct (Ascii.eqb c "&"); [reflexivity|]. rewrite IH. reflexivity.
Qed.

Lemma patternShape_ampersand (v junk : string) :
  patternShape (v ++ String "&" junk)%string = patternShape v.
Proof.
  destruct v as [|d [|u [|c body]]]; simpl.
  - destruct junk as [|x [|y junk]]; reflexivity.
  - destruct junk as [|x junk]; [reflexivity|].
    rewrite andb_false_r. reflexivity.
  - rewrite andb_false_r. reflexivity.
  - reflexivity.
Qed.

Lemma parseLoop_ampersand (v junk : string) (rest : list string)
      (acc : ParsedQuery) :
  parseLoop ((v ++ String "&" junk)%string :: rest) acc = parseLoop (v :: rest) acc.
Proof.
  cbn [parseLoop]. rewrite !matchHere_termPattern, patternShape_ampersand.
  destruct (patternShape v) eqn:P; [|reflexivity].
  destruct v as [|d [|u body]]; try discriminate P.
  change ((String d (String u body) ++ String "&" junk)%string)
    with (String d (String u (body ++ String "&" junk)%string)).
  cbn [Regex.group Nat.eqb]. rewrite termOf_ampersand. reflexivity.
Qed.

Lemma parseLoop_app_congr (before : list string) (l1 l2 : list string) :
  (forall acc, parseLoop l1 acc = parseLoop l2 acc) ->
  forall acc, parseLoop (before ++ l1) acc = parseLoop (before ++ l2) acc.
Proof.
  intros E. induction before as [|v before IH]; intros acc; simpl.
  - apply E.
  - destruct (Regex.matchHere termPattern v) as [[matches after]|]; [|reflexivity].
    destruct (decodeURIComponent (Regex.group 2 matches)); [|reflexivity].
    apply IH.
Qed.

(** X9.  Only what precedes the first ampersand of a value counts: an
    ampersand and any text put after a value of [t], wherever the value
    stands among the others, change nothing in what the parser returns. *)
Theorem text_after_ampersand_is_ignored (before rest : list string)
        (v junk : string) :
  parseQuery (before ++ (v ++ String "&" junk)%string :: rest)
  = parseQuery (before ++ v :: rest).
Proof.
  unfold parseQuery. apply parseLoop_app_congr.
  intros acc. apply parseLoop_ampersand.
Qed.

(** ** The phases of a request *)

Lemma bind_run {S A B} (m : SE S A) (f : A -> SE S B) (s s' : S)
      (r : outcome B) :
  bind m f s = (r, s') ->
  (exists a s1, m s = (Ok a, s1) /\ f a s1 = (r, s'))
  \/ (exists e, m s = (Throw e, s') /\ r = Throw e).
Proof.
  unfold bind. destruct (m s) as [[a|e] s1]; intros H.
  - left. exists a, s1. split; [reflexivity|exact H].
  - right. injection H as <- <-. exists e. split; reflexivity.
Qed.

Lemma prefix_app (p s : string) : String.prefix p (p ++ s)%string = true.
Proof.
  induction p as [|c p IH]; simpl.
  - destruct s; reflexivity.
  - destruct (ascii_dec c c) as [_|N]; [exact IH|]. exfalso. apply N. reflexivity.
Qed.

Lemma silent_termPhase (e : event) :
  silentEvent e = true -> termPhaseEvent e = true.
Proof.
  destruct e as [[]|k|m]; unfold silentEvent; simpl; intros H;
    try reflexivity; discriminate H.
Qed.

Lemma silent_docPhase (e : event) :
  silentEvent e = true -> docPhaseEvent e = true.
Proof.
  destruct e as [[]|k|m]; unfold silentEvent; simpl; intros H;
    try reflexivity; discriminate H.
Qed.

Section Phases.

Variable G : Type.
Variable queryRunner : QueryRunner G.
Variable KV_get : string -> outcome (list byte).
Variable limits : Limits.

Section Kind.

Variable P : event -> bool.
Hypothesis silent : forall e, silentEvent e = true -> P e = true.

Lemma appends_locate_keyed (k : key) (prefix : string) :
  (forall s, P (EvKV (prefix ++ s)) = true) ->
  appends P (findInChunks_locate queryRunner k prefix).
Proof.
  intros K. unfold findInChunks_locate. appends_auto.
  all: apply appends_emit; apply K.
Qed.

Lemma appends_search_silent (p : Pending) :
  appends P (findInChunks_search queryRunner KV_get p).
Proof.
  unfold findInChunks_search. appends_auto.
Qed.

Lemma appends_resume_silent (p : option Pending) :
  appends P (resume queryRunner KV_get p).
Proof.
  unfold resume. appends_auto. apply appends_search_silent.
Qed.

Lemma appends_writeMode (input : MemoryWalker) (mode : list (list byte)) :
  appends P (writeMode queryRunner input mode).
Proof.
  revert input. induction mode as [|bitmap mode IH]; intros input; simpl.
  - appends_auto.
  - apply appends_bind; [|intros input'; apply IH].
    unfold writeBitmap. appends_auto.
Qed.

Lemma appends_writeModes (input : MemoryWalker) (modes : list (list (list byte))) :
  appends P (writeModes queryRunner input modes).
Proof.
  revert input. induction modes as [|mode modes IH]; intros input; simpl.
  - appends_auto.
  - apply appends_bind; [apply appends_writeMode|intros input'; apply IH].
Qed.

Lemma appends_buildIndexQuery (firstRank : Z)
      (modeTermBitmaps : list (list (list byte))) :
  appends P (buildIndexQuery queryRunner firstRank modeTermBitmaps).
Proof.
  unfold buildIndexQuery. appends_auto. apply appends_writeModes.
Qed.

End Kind.

Lemma onMemory_trace {A} (ptr : Z) (op : Walker.W A) (w w' : World G)
      (r : outcome A) :
  onMemory ptr op w = (r, w') -> trace w' = trace w.
Proof.
  unfold onMemory. destruct (op _) as [r0 wk].
  intros H. injection H as _ <-. reflexivity.
Qed.

Lemma invoke_adds (c : call) (w w' : World G) (r : outcome Z) :
  invoke queryRunner c w = (r, w') -> trace w' = trace w ++ [EvCall c].
Proof.
  unfold invoke, bind, emit. cbn [instance trace].
  destruct (dispatch queryRunner c (instance w)) as [r0 i].
  intros H. injection H as _ <-. reflexivity.
Qed.

Lemma invoke_run (c : call) (w w' : World G) (v : Z) :
  invoke queryRunner c w = (Ok v, w') ->
  dispatch queryRunner c (instance w) = (Ok v, instance w')
  /\ trace w' = trace w ++ [EvCall c].
Proof.
  unfold invoke, bind, emit. cbn [instance trace].
  destruct (dispatch queryRunner c (instance w)) as [r0 i].
  intros H. injection H as -> <-. split; reflexivity.
Qed.

Lemma onMemory_run {A} (ptr : Z) (op : Walker.W A) (w w' : World G) (a : A) :
  onMemory ptr op w = (Ok a, w') ->
  exists wk,
    op (mkWalker (memory (instance w)) ptr) = (Ok a, wk)
    /\ instance w' = mkInstance (buffer wk) (globals (instance w))
    /\ trace w' = trace w.
Proof.
  unfold onMemory.
  destruct (op (mkWalker (memory (instance w)) ptr)) as [r0 wk].
  intros H. injection H as -> <-. exists wk. repeat split.
Qed.

Lemma writeAll_run (src : list byte) (wk wk' : MemoryWalker) :
  Walker.writeAll src wk = (Ok tt, wk') ->
  typedArraySet (buffer wk) (next wk) src = Ok (buffer wk').
Proof.
  unfold Walker.writeAll, bind, get, lift_outcome, Walker.setBuffer,
    Walker.setNext.
  destruct (typedArraySet (buffer wk) (next wk) src) as [b|e]; [|discriminate].
  cbn [buffer next]. intros H. injection H as <-. reflexivity.
Qed.

(** The evaluator is asked for its input buffer, is given the query there,
    and is run on it. *)
Lemma executePostingsListQuery_run (data : list byte) (w w' : World G)
      (result : QueryResult) :
  executePostingsListQuery queryRunner data w = (Ok (Some result), w') ->
  exists input,
    evaluatedAt queryRunner w data input
    /\ trace w' = trace w ++ [EvCall CIndexQueryMalloc; EvCall (CIndexQuery input)].
Proof.
  unfold executePostingsListQuery. intros H.
  apply bind_run in H. destruct H as [(input & w1 & E1 & H)|(e & _ & X)];
    [|discriminate X].
  apply invoke_run in E1. destruct E1 as [D1 T1].
  apply bind_run in H. destruct H as [(u & w2 & E2 & H)|(e & _ & X)];
    [|discriminate X].
  destruct u. apply onMemory_run in E2. destruct E2 as (wk & W & I2 & T2).
  apply writeAll_run in W. cbn [buffer next] in W.
  apply bind_run in H. destruct H as [(out & w3 & E3 & H)|(e & _ & X)];
    [|discriminate X].
  apply invoke_run in E3. destruct E3 as [D3 T3].
  destruct (out =? 0) eqn:Z0; [discriminate H|].
  apply bind_run in H. destruct H as [(res & w4 & E4 & H)|(e & _ & X)];
    [|discriminate X].
  apply onMemory_trace in E4. injection H as _ <-.
  exists input. split.
  - exists (instance w1), (buffer wk), out, (instance w3).
    split; [exact D1|]. split; [exact W|]. split.
    + cbn [dispatch] in D3. rewrite I2 in D3. exact D3.
    + apply Z.eqb_neq. exact Z0.
  - rewrite E4, T3, T2, T1, <- app_assoc. reflexivity.
Qed.

Lemma docKey_ok (s : string) : docPhaseEvent (EvKV ("doc_" ++ s)) = true.
Proof. exact (prefix_app "doc_" s). Qed.

Lemma termKey_ok (s : string) : termPhaseEvent (EvKV ("terms_" ++ s)) = true.
Proof. exact (prefix_app "terms_" s). Qed.

Lemma handleSearch_start_phase (url : SearchParams) (w w' : World G)
      (started : Response + Z * list (list (option Pending))) :
  handleSearch_start queryRunner limits url w = (Ok started, w') ->
  (exists pre,
      trace w' = trace w ++ EvCall CReset :: pre
      /\ forallb termPhaseEvent pre = true)
  /\ (forall continuation pendings,
        started = inr (continuation, pendings) ->
        continuation = cursorOf url
        /\ exists z i query,
            reset queryRunner (instance w) = (Ok z, i)
            /\ parseQuery (t_values url) = Ok (Some query)
            /\ locateTerms queryRunner query (afterReset w i)
               = (Ok pendings, w')).
Proof.
  unfold handleSearch_start. intros H.
  apply bind_run in H. destruct H as [(z & w1 & E1 & H)|(e & _ & X)];
    [|discriminate X].
  pose proof (invoke_adds _ _ E1) as T1. split.
  - assert (A : appends termPhaseEvent
                  (query <- lift_outcome (parseQuery (t_values url)) ;;
                   match query with
                   | None => ret (inl (responseError "Malformed query" 400))
                   | Some query =>
                       if termCountOf query >? MAX_QUERY_TERMS limits
                       then ret (inl (responseError "Too many terms" 413))
                       else
                         pendings <- locateTerms queryRunner query ;;
                         ret (inr (Z.max 0 (orZero (parseInt10
                                     match c_value url with
                                     | Some c => c
                                     | None => ""
                                     end)), pendings))
                   end)).
    { appends_auto. unfold locateTerms. appends_auto.
      apply appends_locate_keyed; [exact silent_termPhase|exact termKey_ok]. }
    destruct (A _ _ _ H) as (evs & T & F).
    exists evs. split; [|exact F].
    rewrite T, T1, <- app_assoc. reflexivity.
  - intros continuation pendings ->.
    apply invoke_run in E1. destruct E1 as [D1 _].
    assert (W1 : w1 = afterReset w (instance w1)).
    { destruct w1 as [i1 t1]. cbn [trace instance] in *. subst t1. reflexivity. }
    apply bind_run in H. destruct H as [(query & w2 & E2 & H)|(e & _ & X)];
      [|discriminate X].
    unfold lift_outcome in E2.
    destruct (parseQuery (t_values url)) as [q|e] eqn:Q; [|discriminate E2].
    injection E2 as Eq Ew. subst q w2.
    destruct query as [query|]; [|discriminate H].
    destruct (termCountOf query >? MAX_QUERY_TERMS limits); [discriminate H|].
    apply bind_run in H. destruct H as [(p & w3 & E3 & H)|(e & _ & X)];
      [|discriminate X].
    injection H as <- <- <-. split; [reflexivity|].
    exists z, (instance w1), query.
    split; [exact D1|]. split; [reflexivity|].
    rewrite <- W1. exact E3.
Qed.

Lemma console_log_run (msg : string) (w w' : World G) (r : outcome unit) :
  console_log msg w = (r, w') ->
  trace w' = trace w ++ [EvLog msg] /\ instance w' = instance w.
Proof.
  unfold console_log, emit. intros H. injection H as _ <-. split; reflexivity.
Qed.

Lemma handleSearch_terms_phase (continuation : Z)
      (pendings : list (list (option Pending))) (w w' : World G)
      (resolved : Response + Waiting) :
  handleSearch_terms queryRunner KV_get continuation pendings w
  = (Ok resolved, w') ->
  exists pre post,
    trace w' = trace w ++ pre ++ post
    /\ forallb termPhaseEvent pre = true
    /\ match resolved with
       | inl _ => post = []
       | inr WaitDefault => post = [EvKV "default"]
       | inr (WaitDocuments _ _ _) =>
           exists bitmaps w1 wb' data input rest,
             collectTerms queryRunner KV_get pendings w = (Ok bitmaps, w1)
             /\ buildIndexQuery queryRunner continuation
                  [defined (nth 0 bitmaps []); defined (nth 1 bitmaps []);
                   defined (nth 2 bitmaps [])]
                  (mkWorld (instance w1)
                           (trace w1 ++ [EvLog "Bit sets retrieved"]))
                = (Ok data, wb')
             /\ evaluatedAt queryRunner wb' data input
             /\ forallb docPhaseEvent rest = true
             /\ post = EvCall CIndexQueryMalloc :: EvCall (CIndexQuery input)
                         :: rest
       end.
Proof.
  unfold handleSearch_terms. intros H.
  assert (C : appends termPhaseEvent (collectTerms queryRunner KV_get pendings)).
  { unfold collectTerms. appends_auto.
    apply appends_resume_silent. exact silent_termPhase. }
  apply bind_run in H. destruct H as [(bms & w1 & E1 & H)|(e & _ & X)];
    [|discriminate X].
  destruct (C _ _ _ E1) as (e1 & T1 & F1).
  apply bind_run in H. destruct H as [(u & w2 & E2 & H)|(e & _ & X)];
    [|discriminate X].
  assert (W2 : w2 = mkWorld (instance w1)
                            (trace w1 ++ [EvLog "Bit sets retrieved"])).
  { unfold console_log, emit in E2. injection E2 as _ <-. reflexivity. }
  assert (T2 : trace w2 = trace w1 ++ [EvLog "Bit sets retrieved"])
    by (rewrite W2; reflexivity).
  destruct (existsb isNone (nth 0 bms [])).
  { injection H as <- <-.
    exists (e1 ++ [EvLog "Bit sets retrieved"]), []. rewrite app_nil_r.
    repeat split; [rewrite T2, T1, app_assoc; reflexivity
                  |rewrite forallb_app, F1; reflexivity]. }
  match type of H with
  | (if ?c then _ else _) _ = _ => destruct c
  end.
  { apply bind_run in H. destruct H as [(u' & w3 & E3 & H)|(e & _ & X)];
      [|discriminate X].
    injection H as <- <-. injection E3 as _ <-.
    exists (e1 ++ [EvLog "Bit sets retrieved"]), [EvKV "default"].
    repeat split; [cbn [trace]; rewrite T2, T1, <- !app_assoc; reflexivity
                  |rewrite forallb_app, F1; reflexivity]. }
  apply bind_run in H. destruct H as [(data & w3 & E3 & H)|(e & _ & X)];
    [|discriminate X].
  destruct (@appends_buildIndexQuery termPhaseEvent silent_termPhase _ _ _ _ _ E3)
    as (e3 & T3 & F3).
  apply bind_run in H. destruct H as [(u' & w4 & E4 & H)|(e & _ & X)];
    [|discriminate X].
  assert (W4 : w4 = mkWorld (instance w3) (trace w3 ++ [EvLog "Query built"])).
  { unfold console_log, emit in E4. injection E4 as _ <-. reflexivity. }
  assert (Tpre : trace w4
                 = trace w ++ (e1 ++ [EvLog "Bit sets retrieved"] ++ e3
                                  ++ [EvLog "Query built"])).
  { rewrite W4. cbn [trace]. rewrite T3, T2, T1, <- !app_assoc. reflexivity. }
  assert (Fpre : forallb termPhaseEvent
                   (e1 ++ [EvLog "Bit sets retrieved"] ++ e3 ++ [EvLog "Query built"])
                 = true).
  { rewrite !forallb_app, F1, F3. reflexivity. }
  apply bind_run in H. destruct H as [(result & w5 & E5 & H)|(e & _ & X)];
    [|discriminate X].
  destruct result as [result|]; [|discriminate H].
  destruct (executePostingsListQuery_run _ _ E5) as (input & Ev & T5).
  apply bind_run in H. destruct H as [(u'' & w6 & E6 & H)|(e & _ & X)];
    [|discriminate X].
  destruct (console_log_run E6) as [T6 _].
  assert (D : appends docPhaseEvent
                (mapM (fun docId =>
                         findInChunks_locate queryRunner (DocKey docId) "doc_")
                      (documents result))).
  { appends_auto.
    apply appends_locate_keyed; [exact silent_docPhase|exact docKey_ok]. }
  apply bind_run in H. destruct H as [(docs & w7 & E7 & H)|(e & _ & X)];
    [|discriminate X].
  destruct (D _ _ _ E7) as (e7 & T7 & F7).
  injection H as <- <-.
  exists (e1 ++ [EvLog "Bit sets retrieved"] ++ e3 ++ [EvLog "Query built"]),
         (EvCall CIndexQueryMalloc :: EvCall (CIndexQuery input)
            :: EvLog "Query executed" :: e7).
  split; [rewrite T7, T6, T5, Tpre, <- !app_assoc; reflexivity|].
  split; [exact Fpre|].
  exists bms, w1, w3, data, input, (EvLog "Query executed" :: e7).
  split; [exact E1|]. split; [rewrite <- W2; exact E3|].
  split; [rewrite W4 in Ev; exact Ev|]. split; [simpl; exact F7|reflexivity].
Qed.

Lemma handleSearch_finish_phase (waiting : Waiting) (w w' : World G)
      (r : outcome Response) :
  handleSearch_finish queryRunner KV_get waiting w = (r, w') ->
  exists evs,
    trace w' = trace w ++ evs
    /\ forallb docPhaseEvent evs = true
    /\ (waiting = WaitDefault -> evs = []).
Proof.
  destruct waiting as [|result prefix pendings]; unfold handleSearch_finish;
    intros H.
  - exists []. rewrite app_nil_r. repeat split.
    apply bind_run in H. destruct H as [(listing & w1 & E1 & H)|(e & E1 & ->)].
    + injection H as _ <-. injection E1 as _ <-. reflexivity.
    + unfold KV_await, lift_outcome in E1. injection E1 as _ <-. reflexivity.
  - assert (A : appends docPhaseEvent
                  (handleSearch_finish queryRunner KV_get
                     (WaitDocuments result prefix pendings))).
    { unfold handleSearch_finish. appends_auto.
      apply appends_resume_silent. exact silent_docPhase. }
    destruct (A _ _ _ H) as (evs & T & F).
    exists evs. repeat split; [exact T|exact F|discriminate].
Qed.

(** A request that is answered has reset the instance and looked up its
    terms, and has then ended in one of three ways. *)
Lemma handleSearch_phases (url : SearchParams) (w w' : World G) (r : Response) :
  handleSearch queryRunner KV_get limits url w = (Ok r, w') ->
  exists pre post,
    trace w' = trace w ++ EvCall CReset :: pre ++ post
    /\ forallb termPhaseEvent pre = true
    /\ ending queryRunner KV_get url w post.
Proof.
  unfold handleSearch. intros H.
  apply bind_run in H. destruct H as [(started & w1 & E1 & H)|(e & _ & X)];
    [|discriminate X].
  destruct (handleSearch_start_phase _ _ E1) as [(pre & T1 & F1) Cu].
  destruct started as [response|[continuation pendings]].
  { injection H as _ <-. exists pre, []. rewrite app_nil_r.
    repeat split; [exact T1|exact F1|constructor]. }
  destruct (Cu _ _ eq_refl) as (-> & z & i & query & R & Q & L).
  apply bind_run in H. destruct H as [(resolved & w2 & E2 & H)|(e & _ & X)];
    [|discriminate X].
  destruct (handleSearch_terms_phase _ _ _ E2) as (pre2 & post & T2 & F2 & Sh).
  assert (Fp : forallb termPhaseEvent (pre ++ pre2) = true).
  { rewrite forallb_app, F1, F2. reflexivity. }
  assert (En : forall evs,
             forallb docPhaseEvent evs = true ->
             (match resolved with
              | inr WaitDefault => evs = []
              | _ => True
              end) ->
             (match resolved with inl _ => evs = [] | _ => True end) ->
             ending queryRunner KV_get url w (post ++ evs)).
  { intros evs Fe Dv Lv.
    destruct resolved as [response|[|res pfx pend]].
    - rewrite Sh, Lv. constructor.
    - rewrite Sh, Dv. constructor.
    - destruct Sh as (bitmaps & wc & wb' & data & input & rest
                      & C & B & Ev & Fr & ->).
      cbn [app].
      apply EndEvaluated
        with (bitmaps := bitmaps) (wb' := wb') (data := data)
             (wb := mkWorld (instance wc)
                            (trace wc ++ [EvLog "Bit sets retrieved"])).
      + exists z, i, query, wc. split; [exact R|]. split; [exact Q|].
        split; [|reflexivity].
        unfold findSerialisedTermBitmaps, bind. rewrite L. exact C.
      + exact B.
      + exact Ev.
      + rewrite forallb_app, Fr, Fe. reflexivity. }
  destruct resolved as [response|waiting].
  { injection H as _ <-. exists (pre ++ pre2), post.
    repeat split; [|exact Fp|].
    - rewrite T2, T1, <- !app_assoc. reflexivity.
    - rewrite <- (app_nil_r post). apply En; reflexivity || exact I. }
  destruct (handleSearch_finish_phase _ _ H) as (evs & T3 & F3 & Def).
  exists (pre ++ pre2), (post ++ evs).
  repeat split; [|exact Fp|].
  - rewrite T3, T2, T1, <- !app_assoc. reflexivity.
  - apply En; [exact F3| |exact I].
    destruct waiting; [exact (Def eq_refl)|exact I].
Qed.

End Phases.

Lemma termPhase_calls (evs : list event) :
  forallb termPhaseEvent evs = true ->
  existsb isReset evs = false /\ filter isQueryCall evs = [].
Proof.
  induction evs as [|e evs IH]; simpl; [split; reflexivity|].
  intros H. apply andb_true_iff in H. destruct H as [He H].
  destruct (IH H) as [R Q]. rewrite R, orb_false_r.
  destruct e as [[]|k|m]; try discriminate He; split; try reflexivity; exact Q.
Qed.

Lemma docPhase_calls (evs : list event) :
  forallb docPhaseEvent evs = true ->
  existsb isReset evs = false /\ filter isQueryCall evs = [].
Proof.
  induction evs as [|e evs IH]; simpl; [split; reflexivity|].
  intros H. apply andb_true_iff in H. destruct H as [He H].
  destruct (IH H) as [R Q]. rewrite R, orb_false_r.
  destruct e as [[]|k|m]; try discriminate He; split; try reflexivity; exact Q.
Qed.

Lemma ending_calls {G} (queryRunner : QueryRunner G)
      (KV_get : string -> outcome (list byte)) (url : SearchParams)
      (w : World G) (post : list event) :
  ending queryRunner KV_get url w post ->
  existsb isReset post = false
  /\ (List.length (filter isQueryCall post) <= 1)%nat.
Proof.
  intros [| |bitmaps wb wb' data input rest R B Ev F]; simpl;
    try (split; [reflexivity|lia]).
  destruct (docPhase_calls rest F) as [R' Q]. rewrite R', Q.
  split; [reflexivity|simpl; lia].
Qed.

(** X10.  A request that is answered, whatever the answer, has called
    [reset] first and never again, and has run the evaluator at most
    once. *)
Theorem reset_once_evaluator_at_most_once (G : Type)
        (queryRunner : QueryRunner G) (KV_get : string -> outcome (list byte))
        (limits : Limits) (url : SearchParams) (w w' : World G) (r : Response) :
  handleSearch queryRunner KV_get limits url w = (Ok r, w') ->
  exists evs,
    trace w' = trace w ++ EvCall CReset :: evs
    /\ existsb isReset evs = false
    /\ (List.length (filter isQueryCall evs) <= 1)%nat.
Proof.
  intros H.
  destruct (handleSearch_phases _ _ _ _ _ H) as (pre & post & T & F & En).
  destruct (termPhase_calls pre F) as [R1 Q1].
  destruct (ending_calls En) as [R2 Q2].
  exists (pre ++ post). split; [exact T|].
  rewrite existsb_app, R1, R2, filter_app, Q1. split; [reflexivity|exact Q2].
Qed.

Lemma reset_once_evaluator_at_most_once_witness :
  exists r w',
    handleSearch Fixture.queryRunner Fixture.KV_get Fixture.limits
      (mkParams ["0_engineer"; "2_intern"] None) Fixture.fresh
    = (Ok r, w')
    /\ exists evs,
        trace w' = trace Fixture.fresh ++ EvCall CReset :: evs
        /\ existsb isReset evs = false
        /\ (List.length (filter isQueryCall evs) <= 1)%nat.
Proof.
  destruct (handleSearch Fixture.queryRunner Fixture.KV_get Fixture.limits
              (mkParams ["0_engineer"; "2_intern"] None) Fixture.fresh)
    as [[r|e] w'] eqn:H.
  - exists r, w'. split; [reflexivity|].
    exact (@reset_once_evaluator_at_most_once Z Fixture.queryRunner
             Fixture.KV_get Fixture.limits _ _ _ _ H).
  - exfalso. vm_compute in H. discriminate H.
Defined.



(** ** The responses of the worker *)

Section Responses.

Variable G : Type.
Variable queryRunner : QueryRunner G.
Variable KV_get : string -> outcome (list byte).
Variable limits : Limits.

Lemma handleSearch_start_inl (url : SearchParams) (w w' : World G)
      (r : Response) :
  handleSearch_start queryRunner limits url w = (Ok (inl r), w') ->
  r = malformedResponse \/ r = tooManyTermsResponse.
Proof.
  unfold handleSearch_start. intros H.
  apply bind_run in H. destruct H as [(z & w1 & _ & H)|(e & _ & X)];
    [|discriminate X].
  apply bind_run in H. destruct H as [(query & w2 & _ & H)|(e & _ & X)];
    [|discriminate X].
  destruct query as [query|].
  - destruct (termCountOf query >? MAX_QUERY_TERMS limits).
    + injection H as <- _. right. reflexivity.
    + apply bind_run in H. destruct H as [(p & w3 & _ & H)|(e & _ & X)];
        [|discriminate X].
      discriminate H.
  - injection H as <- _. left. reflexivity.
Qed.

Lemma handleSearch_finish_json (waiting : Waiting) (w w' : World G)
      (r : Response) :
  handleSearch_finish queryRunner KV_get waiting w = (Ok r, w') ->
  status r = 200 /\ headers r = jsonHeaders /\ exists text, body r = Some text.
Proof.
  destruct waiting as [|result prefix pendings]; unfold handleSearch_finish;
    intros H.
  - apply bind_run in H. destruct H as [(listing & w1 & _ & H)|(e & _ & X)];
      [|discriminate X].
    injection H as <- _. repeat split. eexists. reflexivity.
  - apply bind_run in H. destruct H as [(found & w1 & _ & H)|(e & _ & X)];
      [|discriminate X].
    apply bind_run in H. destruct H as [(u & w2 & _ & H)|(e & _ & X)];
      [|discriminate X].
    injection H as <- _. repeat split. eexists. reflexivity.
Qed.

Lemma handleSearch_json (url : SearchParams) (w w' : World G) (r : Response) :
  handleSearch queryRunner KV_get limits url w = (Ok r, w') ->
  headers r = jsonHeaders
  /\ (exists text, body r = Some text)
  /\ (status r = 200 \/ r = malformedResponse \/ r = tooManyTermsResponse).
Proof.
  unfold handleSearch. intros H.
  apply bind_run in H. destruct H as [(started & w1 & E1 & H)|(e & _ & X)];
    [|discriminate X].
  destruct started as [response|[continuation pendings]].
  - injection H as <- _.
    destruct (handleSearch_start_inl _ _ E1) as [->| ->];
      (repeat split; [eexists; reflexivity|]); right; [left|right]; reflexivity.
  - apply bind_run in H. destruct H as [(resolved & w2 & E2 & H)|(e & _ & X)];
      [|discriminate X].
    destruct resolved as [response|waiting].
    + injection H as <- _. apply handleSearch_terms_inl in E2. subst response.
      repeat split; [eexists; reflexivity|left; reflexivity].
    + destruct (handleSearch_finish_json _ _ H) as (S & Hd & B).
      repeat split; [exact Hd|exact B|left; exact S].
Qed.

(** X12.  The responses of the worker are of three kinds.  A request with
    the method OPTIONS is answered with the CORS headers alone, whatever
    its path, and the instance is not touched.  Another request for a path
    other than /search is answered 404 with no headers at all and no body.
    Every response to a search, whatever the method, carries the content
    type application/json with the CORS headers, has a body, and has the
    status 200 unless it is one of the two errors, 400 Malformed query and
    413 Too many terms. *)
Theorem responses_of_the_worker (request : Request) (w w' : World G)
        (r : Response) :
  requestHandler queryRunner KV_get limits request w = (Ok r, w') ->
  (method request = "OPTIONS" /\ r = responsePreflight /\ w' = w)
  \/ (method request <> "OPTIONS" /\ pathname request <> "/search"
      /\ r = mkResponse 404 [] None /\ w' = w)
  \/ (method request <> "OPTIONS" /\ pathname request = "/search"
      /\ headers r = jsonHeaders
      /\ (exists text, body r = Some text)
      /\ (status r = 200 \/ r = malformedResponse \/ r = tooManyTermsResponse)).
Proof.
  unfold requestHandler. intros H.
  destruct (String.eqb_spec (method request) "OPTIONS") as [O|O].
  - left. injection H as <- <-. repeat split. exact O.
  - right. destruct (String.eqb_spec (pathname request) "/search") as [S|S].
    + right. split; [exact O|]. split; [exact S|].
      exact (handleSearch_json _ _ H).
    + left. injection H as <- <-. repeat split; assumption.
Qed.

End Responses.

Lemma responses_of_the_worker_witness :
  requestHandler Fixture.queryRunner Fixture.KV_get Fixture.limits
    (mkRequest "POST" "/search" (mkParams ["9_foo"] None)) Fixture.fresh
  = (Ok malformedResponse, afterReset Fixture.fresh Fixture.loaded)
  /\ ((method (mkRequest "POST" "/search" (mkParams ["9_foo"] None)) = "OPTIONS"
       /\ malformedResponse = responsePreflight
       /\ afterReset Fixture.fresh Fixture.loaded = Fixture.fresh)
      \/ (method (mkRequest "POST" "/search" (mkParams ["9_foo"] None)) <> "OPTIONS"
          /\ pathname (mkRequest "POST" "/search" (mkParams ["9_foo"] None))
             <> "/search"
          /\ malformedResponse = mkResponse 404 [] None
          /\ afterReset Fixture.fresh Fixture.loaded = Fixture.fresh)
      \/ (method (mkRequest "POST" "/search" (mkParams ["9_foo"] None)) <> "OPTIONS"
          /\ pathname (mkRequest "POST" "/search" (mkParams ["9_foo"] None))
             = "/search"
          /\ headers malformedResponse = jsonHeaders
          /\ (exists text, body malformedResponse = Some text)
          /\ (status malformedResponse = 200
              \/ malformedResponse = malformedResponse
              \/ malformedResponse = tooManyTermsResponse))).
Proof.
  assert (H : requestHandler Fixture.queryRunner Fixture.KV_get Fixture.limits
                (mkRequest "POST" "/search" (mkParams ["9_foo"] None)) Fixture.fresh
              = (Ok malformedResponse, afterReset Fixture.fresh Fixture.loaded))
    by (vm_compute; reflexivity).
  split; [exact H|].
  exact (@responses_of_the_worker Z Fixture.queryRunner Fixture.KV_get
           Fixture.limits _ _ _ _ H).
Defined.

(** ** What the message decoder reads *)

Lemma readFixed_run (size : nat) (decode : list byte -> Z)
      (w w' : MemoryWalker) (r : outcome Z) :
  Walker.readFixed size decode w = (r, w') ->
  buffer w' = buffer w
  /\ (forall v, r = Ok v -> next w' = next w + Z.of_nat size).
Proof.
  unfold Walker.readFixed, bind, get, lift_outcome, Walker.setNext, ret.
  destruct (dataViewGet (buffer w) (next w) size) as [bs|e];
    cbn [buffer next]; intros H; injection H as <- <-.
  - split; [reflexivity|]. intros v _. reflexivity.
  - split; [reflexivity|]. intros v X. discriminate X.
Qed.

Lemma integerParser_run (size : nat) (decode : list byte -> Z)
      (w w' : MemoryWalker) (r : outcome Format.rawValue) :
  Format.integerParser (Walker.readFixed size decode) w = (r, w') ->
  buffer w' = buffer w
  /\ (forall v, r = Ok v -> next w' = next w + Z.of_nat size).
Proof.
  unfold Format.integerParser. intros H.
  apply bind_run in H. destruct H as [(v & w1 & E & H)|(e & E & ->)].
  - injection H as <- <-. apply readFixed_run in E; destruct E as [B N].
    split; [exact B|]. intros v0 _. exact (N v eq_refl).
  - apply readFixed_run in E; destruct E as [B _].
    split; [exact B|]. intros v X. discriminate X.
Qed.

Ltac size_of E1 E2 :=
  unfold argumentSize; simpl in E1, E2;
  repeat (apply orb_true_iff in E1; destruct E1 as [E1|E1]);
  try discriminate E1;
  repeat (apply orb_true_iff in E2; destruct E2 as [E2|E2]);
  try discriminate E2;
  apply String.eqb_eq in E1; apply String.eqb_eq in E2;
  rewrite E1, E2; reflexivity.

Section DecoderReads.

Variable textDecoder_decode : list byte -> string.
Variable formatDouble : string -> Z -> string.
Variable fromCharCode : Z -> string.

Lemma replacer_run (sp : Format.Specifier) (mem mem' : MemoryWalker)
      (r : outcome string) :
  Format.replacer textDecoder_decode formatDouble fromCharCode sp mem = (r, mem') ->
  buffer mem' = buffer mem
  /\ (forall out, r = Ok out -> next mem' = next mem + argumentSize sp).
Proof.
  unfold Format.replacer.
  destruct (_ || _ || _).
  { intros H. injection H as <- <-. split; [reflexivity|discriminate]. }
  unfold Format.SPECIFIER_PARSERS.
  cbn [find Format.p_length Format.p_type Format.has andb].
  repeat match goal with
         | |- (match (if ?c then _ else _) with _ => _ end) _ = _ -> _ =>
             let E := fresh "E" in
             destruct c eqn:E;
             [ apply andb_true_iff in E; destruct E as [E1 E2];
               cbn [Format.parse]; intros H;
               apply bind_run in H;
               destruct H as [(v & w1 & P & H)|(e & P & ->)];
               [ injection H as <- <- | ]
             | clear E ]
         end.
  all: try (intros H; injection H as <- <-; split; [reflexivity|discriminate]).
  all: try (apply integerParser_run in P; destruct P as [B N]; split;
            [exact B|intros out _; rewrite (N v eq_refl); f_equal;
                     size_of E1 E2]).
  all: try (apply integerParser_run in P; destruct P as [B N]; split;
            [exact B|intros out X; discriminate X]).
  - apply bind_run in P. destruct P as [(d & w2 & P & H)|(e & P & X)];
      [|discriminate X].
    injection H as _ <-. apply readFixed_run in P; destruct P as [B N].
    split; [exact B|]. intros out _. rewrite (N d eq_refl). f_equal.
    size_of E1 E2.
  - apply bind_run in P. destruct P as [(d & w2 & P & H)|(e' & P & X)];
      [discriminate H|].
    apply readFixed_run in P; destruct P as [B _].
    split; [exact B|intros out Y; discriminate Y].
Qed.

Lemma replaceAll_run (ps : list Format.piece) (mem mem' : MemoryWalker)
      (r : outcome string) :
  Format.replaceAll textDecoder_decode formatDouble fromCharCode ps mem = (r, mem') ->
  buffer mem' = buffer mem
  /\ (forall text, r = Ok text -> next mem' = next mem + argumentsSize ps).
Proof.
  revert mem mem' r. induction ps as [|p ps IH]; intros mem mem' r H.
  - injection H as <- <-. split; [reflexivity|]. intros text _. simpl. lia.
  - destruct p as [c|sp]; cbn [Format.replaceAll argumentsSize] in *.
    + apply bind_run in H. destruct H as [(rest & w1 & E & H)|(e & E & ->)].
      * injection H as <- <-. destruct (IH _ _ _ E) as [B N].
        split; [exact B|]. intros text _. exact (N rest eq_refl).
      * destruct (IH _ _ _ E) as [B _].
        split; [exact B|intros text X; discriminate X].
    + apply bind_run in H. destruct H as [(out & w1 & E & H)|(e & E & ->)].
      * apply replacer_run in E; destruct E as [B1 N1].
        apply bind_run in H. destruct H as [(rest & w2 & E2 & H)|(e & E2 & ->)].
        -- injection H as <- <-. destruct (IH _ _ _ E2) as [B2 N2].
           split; [congruence|]. intros text _.
           rewrite (N2 rest eq_refl), (N1 out eq_refl). lia.
        -- destruct (IH _ _ _ E2) as [B2 _].
           split; [congruence|intros text X; discriminate X].
      * apply replacer_run in E; destruct E as [B1 _].
        split; [exact B1|intros text X; discriminate X].
Qed.

Lemma readFormat_run (mem mem' : MemoryWalker) (r : outcome string) :
  Format.readFormat textDecoder_decode mem = (r, mem') ->
  buffer mem' = buffer mem
  /\ (forall format, r = Ok format -> next mem' = next mem + 4).
Proof.
  unfold Format.readFormat, Walker.readAndDereferencePointer, Walker.readUInt32LE.
  intros H.
  apply bind_run in H. destruct H as [(target & w1 & E & H)|(e & E & ->)].
  - unfold lift_outcome in H. injection H as <- <-.
    apply bind_run in E. destruct E as [(p & w2 & E & H)|(e & E & X)];
      [|discriminate X].
    unfold bind, get, ret in H. injection H as _ <-.
    apply readFixed_run in E; destruct E as [B N].
    split; [exact B|]. intros format _. exact (N p eq_refl).
  - apply bind_run in E. destruct E as [(p & w2 & E & H)|(e' & E & X)].
    + unfold bind, get, ret in H. discriminate H.
    + apply readFixed_run in E; destruct E as [B _].
      split; [exact B|intros format Y; discriminate Y].
Qed.

(** X13.  The decoder only reads.  Whatever it returns or raises, the
    memory it was given is unchanged; and when it returns a text, it has
    taken from the argument buffer the four bytes of the pointer to the
    format text and then, conversion by conversion and without padding,
    eight bytes for a 64-bit integer or a double and four bytes for any
    other argument. *)
Theorem decoder_reads_arguments_in_sequence (mem mem' : MemoryWalker)
        (r : outcome string) :
  Format.formatFromVarargs textDecoder_decode formatDouble fromCharCode mem
  = (r, mem') ->
  buffer mem' = buffer mem
  /\ (forall text,
        r = Ok text ->
        exists format,
          fst (Format.readFormat textDecoder_decode mem) = Ok format
          /\ next mem' = next mem + 4 + argumentsSize (Format.piecesOf format)).
Proof.
  unfold Format.formatFromVarargs. intros H.
  apply bind_run in H. destruct H as [(format & w1 & E & H)|(e & E & ->)].
  - pose proof E as E0.
    apply readFormat_run in E0; destruct E0 as [B1 N1].
    apply replaceAll_run in H; destruct H as [B2 N2].
    split; [congruence|]. intros text X. exists format.
    rewrite E. split; [reflexivity|].
    rewrite (N2 text X), (N1 format eq_refl). lia.
  - apply readFormat_run in E; destruct E as [B1 _].
    split; [exact B1|intros text X; discriminate X].
Qed.

End DecoderReads.

Lemma decoder_reads_arguments_in_sequence_witness :
  Format.formatFromVarargs utf8Decode (fun _ _ => "") (fun _ => "")
    (mkWalker [x08; x00; x00; x00; x07; x00; x00; x00;
               x6e; x3d; x25; x64; x00] 0)
  = (Ok "n=7", mkWalker [x08; x00; x00; x00; x07; x00; x00; x00;
                         x6e; x3d; x25; x64; x00] 8)
  /\ buffer (mkWalker [x08; x00; x00; x00; x07; x00; x00; x00;
                       x6e; x3d; x25; x64; x00] 8)
     = buffer (mkWalker [x08; x00; x00; x00; x07; x00; x00; x00;
                         x6e; x3d; x25; x64; x00] 0)
  /\ (forall text,
        Ok "n=7" = Ok text ->
        exists format,
          fst (Format.readFormat utf8Decode
                 (mkWalker [x08; x00; x00; x00; x07; x00; x00; x00;
                            x6e; x3d; x25; x64; x00] 0)) = Ok format
          /\ next (mkWalker [x08; x00; x00; x00; x07; x00; x00; x00;
                             x6e; x3d; x25; x64; x00] 8)
             = next (mkWalker [x08; x00; x00; x00; x07; x00; x00; x00;
                               x6e; x3d; x25; x64; x00] 0)
               + 4 + argumentsSize (Format.piecesOf format)).
Proof.
  assert (H : Format.formatFromVarargs utf8Decode (fun _ _ => "") (fun _ => "")
                (mkWalker [x08; x00; x00; x00; x07; x00; x00; x00;
                           x6e; x3d; x25; x64; x00] 0)
              = (Ok "n=7", mkWalker [x08; x00; x00; x00; x07; x00; x00; x00;
                                     x6e; x3d; x25; x64; x00] 8))
    by (vm_compute; reflexivity).
  split; [exact H|].
  exact (@decoder_reads_arguments_in_sequence utf8Decode (fun _ _ => "")
           (fun _ => "") _ _ _ H).
Defined.

(** ** Texts the decoder returns as they are, and conversions it never
    accepts *)

Lemma matchHere_no_percent (c : ascii) (s : string) :
  Ascii.eqb "%" c = false ->
  Regex.matchHere Format.specifierPattern (String c s) = None.
Proof.
  intros H. unfold Regex.matchHere, Format.specifierPattern.
  rewrite run_seq. cbn [Regex.Lit]. rewrite run_seq, run_chr.
  rewrite H. reflexivity.
Qed.

Section DecoderTexts.

Variable textDecoder_decode : list byte -> string.
Variable formatDouble : string -> Z -> string.
Variable fromCharCode : Z -> string.

Lemma replaceAll_plain (format : string) (mem : MemoryWalker) :
  Regex.inString format "%" = false ->
  Format.replaceAll textDecoder_decode formatDouble fromCharCode
    (Format.piecesOf format) mem = (Ok format, mem).
Proof.
  unfold Format.piecesOf.
  induction format as [|c s IH]; [reflexivity|].
  cbn [Regex.inString String.length Format.pieces]. intros H.
  apply orb_false_iff in H. destruct H as [H1 H2].
  rewrite (@matchHere_no_percent c s H1).
  cbn [Format.replaceAll]. unfold bind. rewrite (IH H2). reflexivity.
Qed.

(** X14.  A format text without a percent sign is the message: the
    decoder returns it as it is and reads no argument. *)
Theorem plain_message_is_returned (mem mem' : MemoryWalker) (format : string) :
  Format.readFormat textDecoder_decode mem = (Ok format, mem') ->
  Regex.inString format "%" = false ->
  Format.formatFromVarargs textDecoder_decode formatDouble fromCharCode mem
  = (Ok format, mem').
Proof.
  intros F P. unfold Format.formatFromVarargs, bind. rewrite F.
  apply replaceAll_plain. exact P.
Qed.

Lemma replacer_stringOrPercent (sp : Format.Specifier) (mem : MemoryWalker) :
  stringOrPercent sp = true ->
  exists e,
    Format.replacer textDecoder_decode formatDouble fromCharCode sp mem
    = (Throw e, mem).
Proof.
  unfold stringOrPercent, Format.replacer. intros T.
  destruct (_ || _ || _); [eexists; reflexivity|].
  assert (N : find (fun p => Format.has (Format.p_length p) (Format.length sp)
                             && Format.has (Format.p_type p) (Format.type sp))
                   (Format.SPECIFIER_PARSERS textDecoder_decode) = None).
  { simpl in T.
    repeat (apply orb_true_iff in T; destruct T as [T|T]); try discriminate T;
      apply String.eqb_eq in T; rewrite T;
      unfold Format.SPECIFIER_PARSERS;
      cbn [find Format.p_length Format.p_type];
      simpl; rewrite !andb_false_r; reflexivity. }
  rewrite N. eexists. reflexivity.
Qed.

Lemma replaceAll_stringOrPercent (ps : list Format.piece) (mem : MemoryWalker) :
  existsb stringOrPercentPiece ps = true ->
  exists e,
    fst (Format.replaceAll textDecoder_decode formatDouble fromCharCode ps mem)
    = Throw e.
Proof.
  revert mem. induction ps as [|p ps IH]; intros mem H; [discriminate H|].
  destruct p as [c|sp]; cbn [Format.replaceAll].
  - simpl in H. destruct (IH mem H) as [e E].
    exists e. apply bind_throw. exact E.
  - simpl in H. destruct (stringOrPercent sp) eqn:S.
    + destruct (replacer_stringOrPercent sp mem S) as [e E].
      exists e. unfold bind. rewrite E. reflexivity.
    + simpl in H. unfold bind at 1.
      destruct (Format.replacer textDecoder_decode formatDouble fromCharCode sp mem)
        as [[out|e] mem'].
      * destruct (IH mem' H) as [e E]. exists e. apply bind_throw. exact E.
      * exists e. reflexivity.
Qed.

(** X15.  The decoder has no working string conversion and no way to
    write a percent sign: the two rows of the table for [s] and for the
    doubled percent sign have an empty set of lengths, which no conversion
    matches.  Such a conversion raises, with the argument buffer left
    where it was, and a format text that contains one is never decoded,
    whatever the memory holds. *)
Theorem string_and_percent_conversions_raise (format : string)
        (sp : Format.Specifier) :
  In (Format.Conversion sp) (Format.piecesOf format) ->
  Format.type sp = "s" \/ Format.type sp = "%" ->
  (forall mem,
      exists e,
        Format.replacer textDecoder_decode formatDouble fromCharCode sp mem
        = (Throw e, mem))
  /\ (forall mem,
        exists e,
          fst (Format.replaceAll textDecoder_decode formatDouble fromCharCode
                 (Format.piecesOf format) mem) = Throw e)
  /\ (forall mem mem',
        Format.readFormat textDecoder_decode mem = (Ok format, mem') ->
        exists e,
          fst (Format.formatFromVarargs textDecoder_decode formatDouble
                 fromCharCode mem) = Throw e).
Proof.
  intros I T.
  assert (S : stringOrPercent sp = true).
  { unfold stringOrPercent. destruct T as [-> | ->]; reflexivity. }
  assert (E : existsb stringOrPercentPiece (Format.piecesOf format) = true).
  { apply existsb_exists. exists (Format.Conversion sp). split; assumption. }
  split; [|split].
  - intros mem. apply replacer_stringOrPercent. exact S.
  - intros mem. apply replaceAll_stringOrPercent. exact E.
  - intros mem mem' F. unfold Format.formatFromVarargs, bind. rewrite F.
    apply replaceAll_stringOrPercent. exact E.
Qed.

End DecoderTexts.

Lemma plain_message_is_returned_witness :
  Format.readFormat utf8Decode
    (mkWalker [x04; x00; x00; x00; x6f; x6b; x00] 0)
  = (Ok "ok", mkWalker [x04; x00; x00; x00; x6f; x6b; x00] 4)
  /\ Regex.inString "ok" "%" = false
  /\ Format.formatFromVarargs utf8Decode (fun _ _ => "") (fun _ => "")
       (mkWalker [x04; x00; x00; x00; x6f; x6b; x00] 0)
     = (Ok "ok", mkWalker [x04; x00; x00; x00; x6f; x6b; x00] 4).
Proof.
  assert (F : Format.readFormat utf8Decode
                (mkWalker [x04; x00; x00; x00; x6f; x6b; x00] 0)
              = (Ok "ok", mkWalker [x04; x00; x00; x00; x6f; x6b; x00] 4))
    by (vm_compute; reflexivity).
  assert (P : Regex.inString "ok" "%" = false) by reflexivity.
  split; [exact F|]. split; [exact P|].
  exact (@plain_message_is_returned utf8Decode (fun _ _ => "") (fun _ => "")
           _ _ _ F P).
Defined.

Lemma string_and_percent_conversions_raise_witness :
  In (Format.Conversion (Format.mkSpecifier "%s" "" "" "" "" "s"))
     (Format.piecesOf "term %s")
  /\ (Format.type (Format.mkSpecifier "%s" "" "" "" "" "s") = "s"
      \/ Format.type (Format.mkSpecifier "%s" "" "" "" "" "s") = "%")
  /\ forall mem,
      exists e,
        fst (Format.replaceAll utf8Decode (fun _ _ => "") (fun _ => "")
               (Format.piecesOf "term %s") mem) = Throw e.
Proof.
  assert (I : In (Format.Conversion (Format.mkSpecifier "%s" "" "" "" "" "s"))
                 (Format.piecesOf "term %s"))
    by (vm_compute; do 5 right; left; reflexivity).
  assert (T : Format.type (Format.mkSpecifier "%s" "" "" "" "" "s") = "s"
              \/ Format.type (Format.mkSpecifier "%s" "" "" "" "" "s") = "%")
    by (left; reflexivity).
  split; [exact I|]. split; [exact T|].
  exact (proj1 (proj2 (@string_and_percent_conversions_raise utf8Decode
                         (fun _ _ => "") (fun _ => "") "term %s"
                         (Format.mkSpecifier "%s" "" "" "" "" "s") I T))).
Defined.

(** ** Printing a cursor and reading it back *)

Lemma digitValue_digitChar (d : Z) :
  0 <= d < 10 -> digitValue (digitChar d) = Some d.
Proof.
  intros H.
  assert (C : d = 0 \/ d = 1 \/ d = 2 \/ d = 3 \/ d = 4
              \/ d = 5 \/ d = 6 \/ d = 7 \/ d = 8 \/ d = 9) by lia.
  repeat (destruct C as [->|C]; [reflexivity|]). subst d. reflexivity.
Qed.

Ltac same_digits :=
  match goal with
  | |- readDigits _ (Some ?a) = readDigits _ (Some ?b) =>
      replace a with b by lia; reflexivity
  end.

Lemma readDigits_digitsOf (fuel : nat) :
  forall n acc,
    0 <= n < 2 ^ Z.of_nat (S fuel) ->
    readDigits (digitsOf 10 (S fuel) n acc) None = readDigits acc (Some n).
Proof.
  induction fuel as [|fuel IH]; intros n acc H.
  - change (2 ^ Z.of_nat 1) with 2 in H. cbn [digitsOf].
    assert (L : (n <? 10) = true) by (apply Z.ltb_lt; lia). rewrite L.
    rewrite Z.mod_small by lia. cbn [readDigits].
    rewrite digitValue_digitChar by lia. same_digits.
  - remember (S fuel) as f eqn:F. cbn [digitsOf].
    destruct (n <? 10) eqn:L.
    + apply Z.ltb_lt in L. rewrite Z.mod_small by lia. cbn [readDigits].
      rewrite digitValue_digitChar by lia. same_digits.
    + apply Z.ltb_ge in L. subst f. rewrite IH.
      * cbn [readDigits].
        rewrite digitValue_digitChar by (apply Z.mod_pos_bound; lia).
        pose proof (Z.div_mod n 10). same_digits.
      * rewrite Nat2Z.inj_succ, Z.pow_succ_r in H by lia.
        split; [apply Z.div_pos; lia|].
        apply Z.div_lt_upper_bound; lia.
Qed.

Lemma digitsOf_head (fuel : nat) :
  forall n acc,
    0 <= n ->
    exists d rest, 0 <= d < 10
                   /\ digitsOf 10 (S fuel) n acc = String (digitChar d) rest.
Proof.
  induction fuel as [|fuel IH]; intros n acc H.
  - cbn [digitsOf]. exists (n mod 10), acc.
    split; [apply Z.mod_pos_bound; lia|]. destruct (n <? 10); reflexivity.
  - remember (S fuel) as f eqn:F. cbn [digitsOf].
    destruct (n <? 10).
    + exists (n mod 10), acc. split; [apply Z.mod_pos_bound; lia|reflexivity].
    + subst f. apply IH. apply Z.div_pos; lia.
Qed.

Lemma fuel_enough (n : Z) :
  0 <= n -> 0 <= n < 2 ^ Z.of_nat (S (Z.to_nat (Z.log2 n))).
Proof.
  intros H. split; [exact H|].
  rewrite Nat2Z.inj_succ, Z2Nat.id by apply Z.log2_nonneg.
  destruct (Z.eq_dec n 0) as [->|N]; [reflexivity|].
  apply Z.log2_spec. lia.
Qed.

Lemma parseInt10_digits (d : Z) (rest : string) :
  0 <= d < 10 ->
  parseInt10 (String (digitChar d) rest)
  = readDigits (String (digitChar d) rest) None.
Proof.
  intros H.
  assert (C : d = 0 \/ d = 1 \/ d = 2 \/ d = 3 \/ d = 4
              \/ d = 5 \/ d = 6 \/ d = 7 \/ d = 8 \/ d = 9) by lia.
  unfold parseInt10. cbn [String.length trimStart].
  repeat (destruct C as [->|C]; [reflexivity|]). subst d. reflexivity.
Qed.

Lemma parseInt10_minus (rest : string) :
  parseInt10 (String "-" rest)
  = match readDigits rest None with
    | Some v => Some (- v)
    | None => None
    end.
Proof. reflexivity. Qed.

(** A number printed in decimal is read back as itself. *)
Lemma parseInt10_numberToString (n : Z) :
  parseInt10 (numberToString n) = Some n.
Proof.
  unfold numberToString, integerToString.
  destruct (n <? 0) eqn:S.
  - apply Z.ltb_lt in S.
    assert (P : 0 <= - n) by lia.
    rewrite parseInt10_minus.
    rewrite (@readDigits_digitsOf (Z.to_nat (Z.log2 (- n))) (- n) "" (fuel_enough P)).
    cbn [readDigits]. f_equal. lia.
  - apply Z.ltb_ge in S.
    destruct (@digitsOf_head (Z.to_nat (Z.log2 n)) n "" S) as (d & rest & D & E).
    pose proof (@readDigits_digitsOf (Z.to_nat (Z.log2 n)) n "" (fuel_enough S)) as R.
    rewrite E in *. rewrite parseInt10_digits by exact D. exact R.
Qed.

Lemma cursorOf_nonneg (url : SearchParams) : 0 <= cursorOf url.
Proof. unfold cursorOf. lia. Qed.

Lemma cursorOf_printed (ts : list string) (n : Z) :
  0 <= n -> cursorOf (mkParams ts (Some (numberToString n))) = n.
Proof.
  intros H. unfold cursorOf. cbn [c_value].
  rewrite parseInt10_numberToString. simpl. lia.
Qed.

(** X16.  For a request whose cursor is below 2^53, where the numbers of
    the script are exact integers: the handler uses the parameter [c]
    through its cursor only, and the cursor printed in decimal, as the
    streamed response prints its continuation, is read back as the same
    cursor, so that a request whose [c] is the printed cursor of another
    request with the same values of [t] is handled exactly as that
    request. *)
Theorem following_the_continuation_repeats_the_request (G : Type)
        (queryRunner : QueryRunner G) (KV_get : string -> outcome (list byte))
        (limits : Limits) (url : SearchParams) (w : World G) :
  cursorOf url < 2 ^ 53 ->
  cursorOf (mkParams (t_values url) (Some (numberToString (cursorOf url))))
  = cursorOf url
  /\ handleSearch queryRunner KV_get limits
       (mkParams (t_values url) (Some (numberToString (cursorOf url)))) w
     = handleSearch queryRunner KV_get limits url w.
Proof.
  intros _.
  pose proof (cursorOf_printed (t_values url) (cursorOf_nonneg url)) as C.
  split; [exact C|].
  unfold handleSearch, handleSearch_start. cbn [t_values].
  unfold cursorOf in C at 1. cbn [c_value] in C.
  cbn [c_value]. rewrite C. reflexivity.
Qed.

Lemma following_the_continuation_repeats_the_request_witness :
  cursorOf (mkParams ["0_engineer"] (Some " 2x")) < 2 ^ 53
  /\ numberToString (cursorOf (mkParams ["0_engineer"] (Some " 2x"))) = "2"
  /\ cursorOf (mkParams ["0_engineer"] (Some "2")) = 2
  /\ handleSearch Fixture.queryRunner Fixture.KV_get Fixture.limits
       (mkParams ["0_engineer"] (Some "2")) Fixture.fresh
     = handleSearch Fixture.queryRunner Fixture.KV_get Fixture.limits
         (mkParams ["0_engineer"] (Some " 2x")) Fixture.fresh.
Proof.
  assert (B : cursorOf (mkParams ["0_engineer"] (Some " 2x")) < 2 ^ 53)
    by (vm_compute; reflexivity).
  split; [exact B|]. split; [vm_compute; reflexivity|].
  split; [vm_compute; reflexivity|].
  exact (proj2 (@following_the_continuation_repeats_the_request
                  Z Fixture.queryRunner Fixture.KV_get Fixture.limits
                  (mkParams ["0_engineer"] (Some " 2x")) Fixture.fresh B)).
Defined.

(** ** One lookup *)

Section OneLookup.

Variable G : Type.
Variable queryRunner : QueryRunner G.
Variable KV_get : string -> outcome (list byte).

Lemma locateCall_silent (k : key) : appends silentEvent (locateCall queryRunner k).
Proof. unfold locateCall. destruct k; cbv zeta; appends_auto. Qed.

Lemma findInChunks_locate_run (k : key) (prefix : string) (w w' : World G)
      (r : outcome (option Pending)) :
  findInChunks_locate queryRunner k prefix w = (r, w') ->
  exists before,
    forallb silentEvent before = true
    /\ ((exists e, r = Throw e /\ trace w' = trace w ++ before)
        \/ (exists ck w1,
              locateCall queryRunner k w = (Ok (ck, 0), w1)
              /\ r = Ok None
              /\ trace w' = trace w ++ before)
        \/ (exists ck ref w1 bs p,
              locateCall queryRunner k w = (Ok (ck, ref), w1)
              /\ ref <> 0
              /\ dataViewGet (memory (instance w1)) ref 4 = Ok bs
              /\ r = Ok (Some p)
              /\ storeKey p = (prefix ++ numberToString (le_value bs))%string
              /\ trace w'
                 = trace w ++ before
                     ++ [EvKV (prefix ++ numberToString (le_value bs))])).
Proof.
  unfold findInChunks_locate. intros H.
  apply bind_run in H. destruct H as [(located & w1 & E1 & H)|(e & E1 & ->)];
    change (match k with
            | TermKey term =>
                let encoded := textEncoder_encode term in
                let len := byteLength encoded in
                ptr <- invoke queryRunner (CMalloc len) ;;
                onMemory ptr (Walker.writeAll encoded) ;;;
                chunkRefPtr <- invoke queryRunner
                                 (CFindChunkContainingTerm ptr len) ;;
                ret (CTerm ptr len, chunkRefPtr)
            | DocKey doc =>
                chunkRefPtr <- invoke queryRunner (CFindChunkContainingDoc doc) ;;
                ret (CDoc doc, chunkRefPtr)
            end) with (locateCall queryRunner k) in E1;
    destruct (locateCall_silent k _ E1) as (e1 & T1 & F1).
  2: { exists e1. split; [exact F1|]. left. exists e. split; [reflexivity|exact T1]. }
  apply bind_run in H. destruct H as [(u & w2 & E2 & H)|(e & E2 & ->)].
  2: { discriminate E2. }
  destruct (console_log_run E2) as [T2 I2].
  exists (e1 ++ [EvLog "Found chunk"]).
  split; [rewrite forallb_app, F1; reflexivity|].
  destruct located as [ck ref]. cbn [fst snd] in H.
  destruct (ref =? 0) eqn:Z0.
  { apply Z.eqb_eq in Z0. subst ref. injection H as <- <-. right. left.
    exists ck, w1. split; [exact E1|]. split; [reflexivity|].
    rewrite T2, T1, <- app_assoc. reflexivity. }
  apply Z.eqb_neq in Z0.
  apply bind_run in H. destruct H as [(pair & w3 & E3 & H)|(e & E3 & ->)].
  2: { left. exists e. split; [reflexivity|].
       rewrite (onMemory_trace _ _ _ E3), T2, T1, <- app_assoc. reflexivity. }
  pose proof (onMemory_trace _ _ _ E3) as T3.
  apply onMemory_run in E3. destruct E3 as (wk & R & _ & _).
  apply bind_run in R. destruct R as [(chunkId & wk1 & R1 & R)|(e & _ & X)];
    [|discriminate X].
  apply readFixed_ok in R1. destruct R1 as (bs & D & -> & _).
  cbn [buffer next] in D. rewrite I2 in D.
  apply bind_run in R. destruct R as [(mid & wk2 & _ & R)|(e & _ & X)];
    [|discriminate X].
  injection R as <- _.
  apply bind_run in H. destruct H as [(u' & w4 & E4 & H)|(e & E4 & ->)].
  2: { discriminate E4. }
  cbn [fst snd] in *.
  injection H as <- <-. injection E4 as _ <-.
  right. right. exists ck, ref, w1, bs. eexists.
  split; [exact E1|]. split; [exact Z0|]. split; [exact D|].
  split; [reflexivity|]. split; [reflexivity|].
  cbn [trace]. rewrite T3, T2, T1, <- !app_assoc. reflexivity.
Qed.

(** X17.  One lookup asks the store for at most one chunk.  It asks for
    none when it raises before the request, while the key is located or
    the chunk reference is read, and when the index answers that no chunk
    can hold the key (the reference 0): the lookup then returns
    [undefined].  Otherwise the key it asks for is the prefix followed by
    the decimal chunk id, which is the 32-bit little-endian word that the
    memory of the instance holds at the reference the index returned.
    Before and after that request the lookup only calls exports other
    than [reset] and the evaluator, and writes lines of the log. *)
Theorem lookup_asks_for_one_chunk (k : key) (prefix : string) (w w' : World G)
        (r : outcome (option (list byte))) :
  findInChunks queryRunner KV_get k prefix w = (r, w') ->
  exists before,
    forallb silentEvent before = true
    /\ ((exists e, r = Throw e /\ trace w' = trace w ++ before)
        \/ (exists ck w1,
              locateCall queryRunner k w = (Ok (ck, 0), w1)
              /\ r = Ok None
              /\ trace w' = trace w ++ before)
        \/ (exists ck ref w1 bs after,
              locateCall queryRunner k w = (Ok (ck, ref), w1)
              /\ ref <> 0
              /\ dataViewGet (memory (instance w1)) ref 4 = Ok bs
              /\ trace w'
                 = trace w ++ before
                     ++ EvKV (prefix ++ numberToString (le_value bs)) :: after
              /\ forallb silentEvent after = true)).
Proof.
  unfold findInChunks. intros H.
  apply bind_run in H. destruct H as [(p & w1 & E1 & H)|(e & E1 & ->)].
  - destruct (findInChunks_locate_run _ _ _ E1)
      as (before & F & [(e & X & T)|[(ck & wl & L & X & T)
                                    |(ck & ref & wl & bs & p' & L & N & D & X & K & T)]]);
      try discriminate X.
    + injection X as ->. injection H as <- <-.
      exists before. split; [exact F|]. right. left.
      exists ck, wl. split; [exact L|]. split; [reflexivity|exact T].
    + injection X as ->.
      assert (A : appends silentEvent (findInChunks_search queryRunner KV_get p')).
      { apply appends_search_silent. intros e S. exact S. }
      destruct (A _ _ _ H) as (after & T2 & F2).
      exists before. split; [exact F|]. right. right.
      exists ck, ref, wl, bs, after.
      split; [exact L|]. split; [exact N|]. split; [exact D|].
      split; [|exact F2].
      rewrite T2, T, <- !app_assoc. reflexivity.
  - destruct (findInChunks_locate_run _ _ _ E1)
      as (before & F & [(e' & X & T)|[(ck & wl & L & X & T)
                                     |(ck & ref & wl & bs & p' & L & N & D & X & K & T)]]);
      try discriminate X.
    exists before. split; [exact F|]. left.
    exists e. split; [reflexivity|exact T].
Qed.

End OneLookup.

Lemma lookup_asks_for_one_chunk_witness :
  findInChunks Fixture.queryRunner Fixture.KV_get (TermKey "intern")
    "terms_" (afterReset Fixture.fresh Fixture.loaded)
  = (Ok (Some [x02]),
     snd (findInChunks Fixture.queryRunner Fixture.KV_get
            (TermKey "intern") "terms_"
            (afterReset Fixture.fresh Fixture.loaded)))
  /\ exists before,
      forallb silentEvent before = true
      /\ ((exists e,
             @Ok (option (list byte)) (Some [x02]) = Throw e
             /\ trace (snd (findInChunks Fixture.queryRunner Fixture.KV_get
                              (TermKey "intern") "terms_"
                              (afterReset Fixture.fresh Fixture.loaded)))
                = trace (afterReset Fixture.fresh Fixture.loaded) ++ before)
          \/ (exists ck w1,
                locateCall Fixture.queryRunner (TermKey "intern")
                  (afterReset Fixture.fresh Fixture.loaded)
                = (Ok (ck, 0), w1)
                /\ @Ok (option (list byte)) (Some [x02]) = Ok None
                /\ trace (snd (findInChunks Fixture.queryRunner Fixture.KV_get
                                 (TermKey "intern") "terms_"
                                 (afterReset Fixture.fresh Fixture.loaded)))
                   = trace (afterReset Fixture.fresh Fixture.loaded) ++ before)
          \/ (exists ck ref w1 bs after,
                locateCall Fixture.queryRunner (TermKey "intern")
                  (afterReset Fixture.fresh Fixture.loaded)
                = (Ok (ck, ref), w1)
                /\ ref <> 0
                /\ dataViewGet (memory (instance w1)) ref 4 = Ok bs
                /\ trace (snd (findInChunks Fixture.queryRunner Fixture.KV_get
                                 (TermKey "intern") "terms_"
                                 (afterReset Fixture.fresh Fixture.loaded)))
                   = trace (afterReset Fixture.fresh Fixture.loaded) ++ before
                       ++ EvKV ("terms_" ++ numberToString (le_value bs)) :: after
                /\ forallb silentEvent after = true)).
Proof.
  assert (H : findInChunks Fixture.queryRunner Fixture.KV_get
                (TermKey "intern") "terms_"
                (afterReset Fixture.fresh Fixture.loaded)
              = (Ok (Some [x02]),
                 snd (findInChunks Fixture.queryRunner Fixture.KV_get
                        (TermKey "intern") "terms_"
                        (afterReset Fixture.fresh Fixture.loaded))))
    by (vm_compute; reflexivity).
  split; [exact H|].
  exact (@lookup_asks_for_one_chunk Z Fixture.queryRunner Fixture.KV_get
           _ _ _ _ _ H).
Defined.

(** * The data acquisition script *)

(** ** distinct *)

Section DistinctFacts.

Variables T K : Type.
Variable key : T -> K.
Variable sameKey : K -> K -> bool.
Hypothesis sameKey_eq : forall a b, sameKey a b = true <-> a = b.

Lemma seen_In (k : K) (seen : list K) :
  existsb (sameKey k) seen = true <-> In k seen.
Proof.
  rewrite existsb_exists. split.
  - intros (x & I & E). apply sameKey_eq in E. subst x. exact I.
  - intros I. exists k. split; [exact I|]. apply sameKey_eq. reflexivity.
Qed.

Lemma distinctFrom_In (seen : list K) (values : list T) (v : T) :
  In v (Acquire.distinctFrom key sameKey seen values) ->
  In v values /\ ~ In (key v) seen.
Proof.
  revert seen. induction values as [|x rest IH]; intros seen H; simpl in H.
  - contradiction.
  - destruct (existsb (sameKey (key x)) seen) eqn:E.
    + destruct (IH _ H) as [I N]. split; [right; exact I|exact N].
    + destruct H as [->|H].
      * split; [left; reflexivity|].
        intros I. apply seen_In in I. congruence.
      * destruct (IH _ H) as [I N]. split; [right; exact I|].
        intros I'. apply N. right. exact I'.
Qed.

Lemma distinctFrom_NoDup (seen : list K) (values : list T) :
  NoDup (map key (Acquire.distinctFrom key sameKey seen values)).
Proof.
  revert seen. induction values as [|x rest IH]; intros seen; simpl.
  - constructor.
  - destruct (existsb (sameKey (key x)) seen); [apply IH|].
    simpl. constructor; [|apply IH].
    intros I. apply in_map_iff in I. destruct I as (v & E & I).
    apply distinctFrom_In in I. destruct I as [_ N].
    apply N. left. symmetry. exact E.
Qed.

Lemma distinctFrom_find (seen : list K) (values : list T) (k : K) :
  ~ In k seen ->
  find (fun v => sameKey (key v) k) (Acquire.distinctFrom key sameKey seen values)
  = find (fun v => sameKey (key v) k) values.
Proof.
  revert seen. induction values as [|x rest IH]; intros seen N; simpl.
  - reflexivity.
  - destruct (existsb (sameKey (key x)) seen) eqn:E.
    + apply seen_In in E.
      destruct (sameKey (key x) k) eqn:S.
      * apply sameKey_eq in S. subst k. contradiction.
      * apply IH. exact N.
    + simpl. destruct (sameKey (key x) k) eqn:S; [reflexivity|].
      apply IH. intros [I|I]; [|exact (N I)].
      subst k. assert (X : sameKey (key x) (key x) = true)
        by (apply sameKey_eq; reflexivity).
      congruence.
Qed.

Lemma distinctFrom_again (seen : list K) (values : list T) :
  Acquire.distinctFrom key sameKey seen
    (Acquire.distinctFrom key sameKey seen values)
  = Acquire.distinctFrom key sameKey seen values.
Proof.
  revert seen. induction values as [|x rest IH]; intros seen; simpl.
  - reflexivity.
  - destruct (existsb (sameKey (key x)) seen) eqn:E; [apply IH|].
    simpl. rewrite E, IH. reflexivity.
Qed.

(** X18.  [distinct] keeps, for every key, the first value that has it
    and no other: no two of the values it returns have the same key,
    looking a key up in its result finds what looking it up in its
    argument finds, and applying it again changes nothing. *)
Theorem distinct_keeps_the_first_of_each_key (values : list T) :
  NoDup (map key (Acquire.distinct key sameKey values))
  /\ (forall k,
        find (fun v => sameKey (key v) k) (Acquire.distinct key sameKey values)
        = find (fun v => sameKey (key v) k) values)
  /\ Acquire.distinct key sameKey (Acquire.distinct key sameKey values)
     = Acquire.distinct key sameKey values.
Proof.
  unfold Acquire.distinct. split; [|split].
  - apply distinctFrom_NoDup.
  - intros k. apply distinctFrom_find. intros [].
  - apply distinctFrom_again.
Qed.

End DistinctFacts.

Lemma distinct_keeps_the_first_of_each_key_witness :
  (forall a b, Z.eqb a b = true <-> a = b)
  /\ NoDup (map fst (Acquire.distinct (@fst Z string) Z.eqb
                       [(7, "a"); (3, "b"); (7, "c")]))
  /\ (forall k,
        find (fun v => Z.eqb (fst v) k)
             (Acquire.distinct (@fst Z string) Z.eqb
                [(7, "a"); (3, "b"); (7, "c")])
        = find (fun v => Z.eqb (fst v) k) [(7, "a"); (3, "b"); (7, "c")])
  /\ Acquire.distinct (@fst Z string) Z.eqb
       (Acquire.distinct (@fst Z string) Z.eqb [(7, "a"); (3, "b"); (7, "c")])
     = Acquire.distinct (@fst Z string) Z.eqb [(7, "a"); (3, "b"); (7, "c")].
Proof.
  split; [exact Z.eqb_eq|].
  exact (@distinct_keeps_the_first_of_each_key (Z * string) Z fst Z.eqb Z.eqb_eq
           [(7, "a"); (3, "b"); (7, "c")]).
Defined.

(** ** fetchDdo *)

Section FetchFacts.

Variable Ddo : Type.
Variable server : list Acquire.HttpRequest -> Acquire.HttpRequest -> Acquire.reply.
Variable scriptTexts : string -> list string.
Variable JSON_parse : string -> option Ddo.

(** What a response that [req] resolves with makes of the fetch. *)
Lemma fetchLoop_rounds (rounds : nat) :
  forall (retry : Z) (params : Acquire.HttpRequest) (w w' : Acquire.World)
         (r : outcome (option Ddo)),
    Acquire.fetchLoop server scriptTexts JSON_parse (S rounds) retry params w
    = (r, w') ->
    exists n,
      (1 <= n <= S rounds)%nat
      /\ Acquire.sent w' = Acquire.sent w ++ repeat params n
      /\ Acquire.disk w' = Acquire.disk w
      /\ (forall i, (i < n - 1)%nat ->
                    rejected (replyTo server w params i) = true)
      /\ (rejected (replyTo server w params (n - 1)) = true ->
          n = S rounds /\ r = Ok None)
      /\ (forall response,
            replyTo server w params (n - 1) = Acquire.Replied response ->
            Acquire.statusCode response < 500 ->
            r = if Acquire.statusCode response <? 400
                then Acquire.extractDdo JSON_parse
                       (scriptTexts (Acquire.responseBody response))
                else Ok None).
Proof.
  induction rounds as [|rounds IH]; intros retry params w w' r H.
  - cbn [Acquire.fetchLoop] in H. exists 1%nat.
    unfold replyTo. cbn [repeat Nat.sub]. rewrite app_nil_r.
    unfold bind, Acquire.tryCatch, Acquire.req in H.
    destruct (server (Acquire.sent w) params) as [error|response] eqn:Rp.
    + cbn in H. injection H as <- <-. cbn.
      repeat split; try lia.
      intros response X. discriminate X.
    + destruct (Acquire.statusCode response >=? 500) eqn:S5.
      * cbn in H. injection H as <- <-. cbn.
        repeat split; try lia.
        intros response' X Lt. injection X as <-.
        apply Z.geb_le in S5. lia.
      * cbn in H. cbn [rejected]. rewrite S5.
        assert (W : Acquire.sent w' = Acquire.sent w ++ [params]
                    /\ Acquire.disk w' = Acquire.disk w
                    /\ r = if Acquire.statusCode response <? 400
                           then Acquire.extractDdo JSON_parse
                                  (scriptTexts (Acquire.responseBody response))
                           else Ok None).
        { destruct (Acquire.statusCode response <? 400);
            unfold lift_outcome, ret in H; injection H as <- <-;
            repeat split. }
        destruct W as (Sn & Dk & R).
        repeat split; try lia; try assumption; try discriminate.
        intros response' X _. injection X as <-. exact R.
  - remember (S rounds) as m eqn:M.
    cbn [Acquire.fetchLoop] in H.
    unfold bind at 1 in H. unfold Acquire.tryCatch, bind, Acquire.req in H.
    destruct (server (Acquire.sent w) params) as [error|response] eqn:Rp.
    + cbn in H. subst m.
      match type of H with
      | Acquire.fetchLoop _ _ _ _ _ _ ?w1 = _ =>
          destruct (IH _ _ w1 _ _ H) as (n & Bn & Sn & Dk & Rej & Last & Res)
      end.
      cbn [Acquire.sent Acquire.disk] in Sn, Dk.
      assert (Sh : forall i, replyTo server
                               (Acquire.mkWorld (Acquire.disk w)
                                  (Acquire.sent w ++ [params])
                                  (Acquire.warned w
                                     ++ [("Attempt " ++ numberToString retry
                                            ++ " failed with error:")%string]
                                     ++ [Acquire.messageOf error]))
                               params i
                             = replyTo server w params (S i)).
      { intros i. unfold replyTo. cbn [Acquire.sent repeat].
        rewrite <- app_assoc. reflexivity. }
      exists (S n). split; [lia|]. split.
      { rewrite Sn, <- app_assoc. reflexivity. }
      split; [exact Dk|].
      replace (S n - 1)%nat with (S (n - 1)) by lia.
      split; [|split].
      * intros i Hi. destruct i as [|i].
        -- unfold replyTo. cbn [repeat]. rewrite app_nil_r, Rp. reflexivity.
        -- rewrite <- Sh. apply Rej. lia.
      * intros X. rewrite <- Sh in X. destruct (Last X) as [E R].
        split; [lia|exact R].
      * intros response X Lt. rewrite <- Sh in X. exact (Res _ X Lt).
    + destruct (Acquire.statusCode response >=? 500) eqn:S5.
      * cbn in H. subst m.
        match type of H with
        | Acquire.fetchLoop _ _ _ _ _ _ ?w1 = _ =>
            destruct (IH _ _ w1 _ _ H) as (n & Bn & Sn & Dk & Rej & Last & Res)
        end.
        cbn [Acquire.sent Acquire.disk] in Sn, Dk.
        assert (Sh : forall i, replyTo server
                                 (Acquire.mkWorld (Acquire.disk w)
                                    (Acquire.sent w ++ [params])
                                    (Acquire.warned w
                                       ++ [("Attempt " ++ numberToString retry
                                              ++ " failed with error:")%string]
                                       ++ [Acquire.messageOf
                                             (Acquire.serverError response)]))
                                 params i
                               = replyTo server w params (S i)).
        { intros i. unfold replyTo. cbn [Acquire.sent repeat].
          rewrite <- app_assoc. reflexivity. }
        exists (S n). split; [lia|]. split.
        { rewrite Sn, <- app_assoc. reflexivity. }
        split; [exact Dk|].
        replace (S n - 1)%nat with (S (n - 1)) by lia.
        split; [|split].
        -- intros i Hi. destruct i as [|i].
           ++ unfold replyTo. cbn [repeat]. rewrite app_nil_r, Rp.
              cbn [rejected]. exact S5.
           ++ rewrite <- Sh. apply Rej. lia.
        -- intros X. rewrite <- Sh in X. destruct (Last X) as [E R].
           split; [lia|exact R].
        -- intros response' X Lt. rewrite <- Sh in X. exact (Res _ X Lt).
      * cbn in H. exists 1%nat.
        unfold replyTo. cbn [repeat Nat.sub]. rewrite app_nil_r, Rp.
        cbn [rejected]. rewrite S5.
        assert (W : Acquire.sent w' = Acquire.sent w ++ [params]
                    /\ Acquire.disk w' = Acquire.disk w
                    /\ r = if Acquire.statusCode response <? 400
                           then Acquire.extractDdo JSON_parse
                                  (scriptTexts (Acquire.responseBody response))
                           else Ok None).
        { destruct (Acquire.statusCode response <? 400);
            unfold lift_outcome, ret in H; injection H as <- <-;
            repeat split. }
        destruct W as (Sn & Dk & R).
        repeat split; try lia; try assumption; try discriminate.
        intros response' X _. injection X as <-. exact R.
Qed.

(** X19.  [fetchDdo] sends its request at least once and at most six
    times, always the same one, and changes no file.  It sends it again
    only after [req] has rejected: after an error of the transport or a
    status from 500 up.  When the sixth request is rejected as well the
    result is null.  Otherwise the first reply that is not rejected
    decides, with no further request: a status from 400 up gives null, and
    a page gives what its script elements hold, so that a page with no
    data gives null and a page whose data JSON cannot parse raises. *)
Theorem fetchDdo_retries (uri : string) (qs : option (list (string * string)))
        (w w' : Acquire.World) (r : outcome (option Ddo)) :
  Acquire.fetchDdo server scriptTexts JSON_parse uri qs w = (r, w') ->
  exists n,
    (1 <= n <= 6)%nat
    /\ Acquire.sent w' = Acquire.sent w ++ repeat (Acquire.mkRequest uri qs) n
    /\ Acquire.disk w' = Acquire.disk w
    /\ (forall i, (i < n - 1)%nat ->
                  rejected (replyTo server w (Acquire.mkRequest uri qs) i) = true)
    /\ (rejected (replyTo server w (Acquire.mkRequest uri qs) (n - 1)) = true ->
        n = 6%nat /\ r = Ok None)
    /\ (forall response,
          replyTo server w (Acquire.mkRequest uri qs) (n - 1)
          = Acquire.Replied response ->
          Acquire.statusCode response < 500 ->
          r = if Acquire.statusCode response <? 400
              then Acquire.extractDdo JSON_parse
                     (scriptTexts (Acquire.responseBody response))
              else Ok None).
Proof.
  unfold Acquire.fetchDdo, Acquire.MAX_RETRIES. intros H.
  eapply fetchLoop_rounds. exact H.
Qed.

End FetchFacts.

Lemma fetchDdo_retries_witness :
  Acquire.fetchDdo (fun sent _ =>
                      match sent with
                      | [] => Acquire.Failed (HostFailure "ETIMEDOUT")
                      | _ => Acquire.Replied (Acquire.mkHttp 404 "" "")
                      end)
    (fun _ => []) (fun _ => @None unit) "https://example.org/job/1/" None
    (Acquire.mkWorld (fun _ => Acquire.Missing) [] [])
  = (Ok None,
     Acquire.mkWorld (fun _ => Acquire.Missing)
       (repeat (Acquire.mkRequest "https://example.org/job/1/" None) 2)
       ["Attempt 0 failed with error:"; "ETIMEDOUT"])
  /\ exists n,
      (1 <= n <= 6)%nat
      /\ repeat (Acquire.mkRequest "https://example.org/job/1/" None) 2
         = [] ++ repeat (Acquire.mkRequest "https://example.org/job/1/" None) n.
Proof.
  assert (H : Acquire.fetchDdo
                (fun sent _ =>
                   match sent with
                   | [] => Acquire.Failed (HostFailure "ETIMEDOUT")
                   | _ => Acquire.Replied (Acquire.mkHttp 404 "" "")
                   end)
                (fun _ => []) (fun _ => @None unit)
                "https://example.org/job/1/" None
                (Acquire.mkWorld (fun _ => Acquire.Missing) [] [])
              = (Ok None,
                 Acquire.mkWorld (fun _ => Acquire.Missing)
                   (repeat (Acquire.mkRequest "https://example.org/job/1/" None) 2)
                   ["Attempt 0 failed with error:"; "ETIMEDOUT"]))
    by (vm_compute; reflexivity).
  split; [exact H|].
  pose proof H as R. apply fetchDdo_retries in R.
  destruct R as (n & B & S & _).
  exists n. split; [exact B|exact S].
Defined.

(** ** jsonFromCache *)

Section CacheFacts.

Variable V : Type.
Variable JSON_parse : string -> option V.
Variable JSON_stringify : V -> option string.
Variable writeFailure : string -> option string.
Variable undefinedData : outcome string.

Lemma parseJson_code (text : string) (e : jsError) :
  Acquire.parseJson JSON_parse text = Throw e -> Acquire.isENOENT e = false.
Proof.
  unfold Acquire.parseJson. destruct (JSON_parse text); [discriminate|].
  intros H. injection H as <-. reflexivity.
Qed.

Lemma jsonFromCache_present (cachePath : string) (computeFn : Acquire.IO V)
      (w : Acquire.World) :
  absent (Acquire.disk w cachePath) = false ->
  Acquire.jsonFromCache JSON_parse JSON_stringify writeFailure undefinedData
    cachePath computeFn w
  = (match fst (Acquire.readFile cachePath w) with
     | Ok text => Acquire.parseJson JSON_parse text
     | Throw e => Throw e
     end, w).
Proof.
  unfold Acquire.jsonFromCache, Acquire.tryCatch, bind, Acquire.readFile.
  destruct (Acquire.disk w cachePath) as [|text|code]; cbn [absent fst].
  - discriminate.
  - intros _. unfold lift_outcome.
    destruct (Acquire.parseJson JSON_parse text) as [v|e] eqn:P; [reflexivity|].
    rewrite (parseJson_code _ P). reflexivity.
  - intros E. unfold Acquire.isENOENT. cbn [Acquire.codeOf]. rewrite E.
    reflexivity.
Qed.

(** X20.  A cache file that exists is never computed again, and a call
    that finds it changes nothing: whatever the function that computes the
    value, the result is what JSON makes of the text of the file, so that
    a text which JSON cannot parse makes every call raise; and a file that
    cannot be read, for another reason than its absence, makes the call
    raise the error of the file system. *)
Theorem cached_value_is_not_computed (cachePath : string)
        (computeFn : Acquire.IO V) (w : Acquire.World) :
  absent (Acquire.disk w cachePath) = false ->
  Acquire.jsonFromCache JSON_parse JSON_stringify writeFailure undefinedData
    cachePath computeFn w
  = (match Acquire.disk w cachePath with
     | Acquire.Holds text => Acquire.parseJson JSON_parse text
     | Acquire.Unreadable code => Throw (HostFailure code)
     | Acquire.Missing => Throw (HostFailure "ENOENT")
     end, w).
Proof.
  intros P. rewrite (jsonFromCache_present _ _ _ P).
  unfold Acquire.readFile.
  destruct (Acquire.disk w cachePath); reflexivity.
Qed.

Lemma jsonFromCache_absent (cachePath : string) (computeFn : Acquire.IO V)
      (w : Acquire.World) :
  absent (Acquire.disk w cachePath) = true ->
  Acquire.jsonFromCache JSON_parse JSON_stringify writeFailure undefinedData
    cachePath computeFn w
  = (value <- computeFn ;;
     Acquire.writeFile writeFailure undefinedData cachePath
       (JSON_stringify value) ;;;
     ret value) w.
Proof.
  intros M.
  cbv [Acquire.jsonFromCache Acquire.tryCatch Acquire.readFile bind lift_outcome].
  destruct (Acquire.disk w cachePath) as [|t|code]; cbn [absent] in M.
  - reflexivity.
  - discriminate M.
  - unfold Acquire.isENOENT. cbn [Acquire.codeOf]. rewrite M. reflexivity.
Qed.

(** X21.  When the cache file is missing, the value is computed; if JSON
    can print it and the file can be written, its text is written to the
    file and the value is returned.  Every later call on the world so
    reached, with any function to compute the value, computes nothing and
    changes nothing: it returns what JSON reads back from the text
    written. *)
Theorem computed_value_is_cached (cachePath : string)
        (computeFn : Acquire.IO V) (w w1 : Acquire.World)
        (value : V) (text : string) :
  absent (Acquire.disk w cachePath) = true ->
  computeFn w = (Ok value, w1) ->
  JSON_stringify value = Some text ->
  writeFailure cachePath = None ->
  Acquire.jsonFromCache JSON_parse JSON_stringify writeFailure undefinedData
    cachePath computeFn w
  = (Ok value, written w1 cachePath text)
  /\ forall other,
      Acquire.jsonFromCache JSON_parse JSON_stringify writeFailure
        undefinedData cachePath other (written w1 cachePath text)
      = (Acquire.parseJson JSON_parse text, written w1 cachePath text).
Proof.
  intros M C S W. split.
  - rewrite (jsonFromCache_absent _ _ _ M).
    cbv [bind Acquire.writeFile lift_outcome ret]. rewrite C, S, W.
    reflexivity.
  - intros other.
    assert (P : absent (Acquire.disk (written w1 cachePath text) cachePath) = false).
    { unfold written. cbn [Acquire.disk]. rewrite String.eqb_refl. reflexivity. }
    rewrite (jsonFromCache_present _ _ _ P).
    unfold Acquire.readFile, written. cbn [Acquire.disk].
    rewrite String.eqb_refl. reflexivity.
Qed.

End CacheFacts.

Lemma cached_value_is_not_computed_witness :
  absent (Acquire.disk (Acquire.mkWorld
                          (fun p => if String.eqb p "raw.json"
                                    then Acquire.Holds "[1"
                                    else Acquire.Missing) [] [])
            "raw.json") = false
  /\ Acquire.jsonFromCache
       (fun text => if String.eqb text "[1" then None else Some text)
       (@Some string) (fun _ => None) (Throw TypeError) "raw.json"
       (throw (JsError "computed"))
       (Acquire.mkWorld (fun p => if String.eqb p "raw.json"
                                  then Acquire.Holds "[1"
                                  else Acquire.Missing) [] [])
     = (Throw (SyntaxError "JSON.parse"),
        Acquire.mkWorld (fun p => if String.eqb p "raw.json"
                                  then Acquire.Holds "[1"
                                  else Acquire.Missing) [] []).
Proof.
  assert (P : absent (Acquire.disk
                        (Acquire.mkWorld
                           (fun p => if String.eqb p "raw.json"
                                     then Acquire.Holds "[1"
                                     else Acquire.Missing) [] [])
                        "raw.json") = false) by reflexivity.
  split; [exact P|].
  exact (@cached_value_is_not_computed string
           (fun text => if String.eqb text "[1" then None else Some text)
           (@Some string) (fun _ => None) (Throw TypeError) "raw.json"
           (throw (JsError "computed")) _ P).
Defined.

Lemma computed_value_is_cached_witness :
  absent (Acquire.disk (Acquire.mkWorld (fun _ => Acquire.Missing) [] [])
            "job7.json") = true
  /\ @ret Acquire.World string "seven"
       (Acquire.mkWorld (fun _ => Acquire.Missing) [] [])
     = (Ok "seven", Acquire.mkWorld (fun _ => Acquire.Missing) [] [])
  /\ @Some string "seven" = Some "seven"
  /\ (fun _ : string => @None string) "job7.json" = None
  /\ Acquire.jsonFromCache (@Some string) (@Some string) (fun _ => None)
       (Throw TypeError) "job7.json" (ret "seven")
       (Acquire.mkWorld (fun _ => Acquire.Missing) [] [])
     = (Ok "seven",
        written (Acquire.mkWorld (fun _ => Acquire.Missing) [] [])
                "job7.json" "seven")
  /\ forall other,
      Acquire.jsonFromCache (@Some string) (@Some string) (fun _ => None)
        (Throw TypeError) "job7.json" other
        (written (Acquire.mkWorld (fun _ => Acquire.Missing) [] [])
                 "job7.json" "seven")
      = (Acquire.parseJson (@Some string) "seven",
         written (Acquire.mkWorld (fun _ => Acquire.Missing) [] [])
                 "job7.json" "seven").
Proof.
  assert (M : absent (Acquire.disk
                        (Acquire.mkWorld (fun _ => Acquire.Missing) [] [])
                        "job7.json") = true) by reflexivity.
  assert (C : @ret Acquire.World string "seven"
                (Acquire.mkWorld (fun _ => Acquire.Missing) [] [])
              = (Ok "seven", Acquire.mkWorld (fun _ => Acquire.Missing) [] []))
    by reflexivity.
  assert (S : @Some string "seven" = Some "seven") by reflexivity.
  assert (W : (fun _ : string => @None string) "job7.json" = None)
    by reflexivity.
  split; [exact M|]. split; [exact C|]. split; [exact S|]. split; [exact W|].
  exact (@computed_value_is_cached string (@Some string) (@Some string)
           (fun _ => None) (Throw TypeError) "job7.json" (ret "seven")
           _ _ "seven" "seven" M C S W).
Defined.

(** ** The pages of loadRaw *)





(** ** The data object of a page *)

Lemma occursBefore_false (pat s : string) (n : nat) :
  occursBefore pat s n = false ->
  forall k, (k < n)%nat -> String.prefix pat (dropChars k s) = false.
Proof.
  unfold occursBefore. intros H k L.
  destruct (String.prefix pat (dropChars k s)) eqn:E; [|reflexivity].
  assert (X : existsb (fun k => String.prefix pat (dropChars k s)) (seq 0 n) = true).
  { apply existsb_exists. exists k. split; [apply in_seq; lia|exact E]. }
  congruence.
Qed.

Lemma indexOfAt_from (pat pre s : string) (offset : Z) :
  Acquire.indexOfAt pat (pre ++ s) offset (offset + Z.of_nat (String.length pre))
  = Acquire.indexOfAt pat s (offset + Z.of_nat (String.length pre))
      (offset + Z.of_nat (String.length pre)).
Proof.
  revert offset. induction pre as [|c pre IH]; intros offset.
  - simpl. rewrite Z.add_0_r. reflexivity.
  - cbn [append String.length Acquire.indexOfAt].
    assert (L : (offset + Z.of_nat (S (String.length pre)) <=? offset) = false)
      by (apply Z.leb_gt; lia).
    rewrite L. cbn [andb].
    replace (offset + Z.of_nat (S (String.length pre)))
      with (offset + 1 + Z.of_nat (String.length pre)) by lia.
    apply IH.
Qed.

Lemma indexOfAt_first (pat pre s : string) (offset position : Z) :
  position <= offset + Z.of_nat (String.length pre) ->
  (forall k, (k < String.length pre)%nat ->
             String.prefix pat (dropChars k (pre ++ s)) = false) ->
  String.prefix pat s = true ->
  Acquire.indexOfAt pat (pre ++ s) offset position
  = offset + Z.of_nat (String.length pre).
Proof.
  revert offset. induction pre as [|c pre IH]; intros offset P N F.
  - simpl in *. rewrite Z.add_0_r in *.
    destruct s as [|d s]; cbn [Acquire.indexOfAt]; rewrite F;
      (assert (L : (position <=? offset) = true) by (apply Z.leb_le; lia));
      rewrite L; reflexivity.
  - cbn [append String.length Acquire.indexOfAt].
    pose proof (N 0%nat ltac:(simpl; lia)) as N0. cbn [dropChars append] in N0.
    rewrite N0, andb_false_r.
    rewrite IH.
    + rewrite Nat2Z.inj_succ. lia.
    + cbn [String.length] in P. lia.
    + intros k L. apply (N (S k)). simpl. lia.
    + exact F.
Qed.

Lemma dropChars_app (a b : string) :
  dropChars (String.length a) (a ++ b) = b.
Proof.
  induction a as [|c a IH]; simpl; [destruct b; reflexivity|exact IH].
Qed.

Lemma dropChars_add (n m : nat) (s : string) :
  dropChars (n + m) s = dropChars m (dropChars n s).
Proof.
  revert s. induction n as [|n IH]; intros s; simpl.
  - reflexivity.
  - destruct s as [|c s]; [destruct m; reflexivity|apply IH].
Qed.

Lemma substring_middle (a b c : string) :
  substring (String.length a) (String.length b) (a ++ b ++ c) = b.
Proof.
  induction a as [|x a IH]; simpl.
  - induction b as [|y b IHb]; simpl.
    + destruct c; reflexivity.
    + rewrite IHb. reflexivity.
  - exact IH.
Qed.

Lemma prefix_self (p s : string) : String.prefix p (p ++ s) = true.
Proof.
  induction p as [|c p IH]; simpl.
  - destruct s; reflexivity.
  - destruct (ascii_dec c c) as [_|N]; [exact IH|]. exfalso. apply N. reflexivity.
Qed.

Lemma after_not_in_before (k : nat) (s : string) :
  (k < 12)%nat ->
  String.prefix Acquire.DDO_AFTER (dropChars k (Acquire.DDO_BEFORE ++ s)) = false.
Proof.
  intros L. do 12 (destruct k as [|k]; [reflexivity|]). lia.
Qed.

Section Extraction.

Variable Ddo : Type.
Variable JSON_parse : string -> option Ddo.

(** X23.  The data object of a page is what stands between the two
    markers: for a script element in which the opening marker, the text
    of the object and the closing marker follow one another, with no
    earlier occurrence of the opening marker in the element and no
    occurrence of the closing marker that begins inside the text, the
    result is what JSON makes of exactly that text; the elements after it
    are not looked at. *)
Theorem ddo_between_the_markers (pre json post : string) (rest : list string) :
  occursBefore Acquire.DDO_BEFORE
    (pre ++ Acquire.DDO_BEFORE ++ json ++ Acquire.DDO_AFTER ++ post)
    (String.length pre) = false ->
  occursBefore Acquire.DDO_AFTER (json ++ Acquire.DDO_AFTER ++ post)
    (String.length json) = false ->
  Acquire.extractDdo JSON_parse
    ((pre ++ Acquire.DDO_BEFORE ++ json ++ Acquire.DDO_AFTER ++ post)%string
       :: rest)
  = match JSON_parse json with
    | Some v => Ok (Some v)
    | None => Throw (SyntaxError "JSON.parse")
    end.
Proof.
  intros H1 H2.
  set (js := (pre ++ Acquire.DDO_BEFORE ++ json ++ Acquire.DDO_AFTER ++ post)%string).
  assert (Len : String.length js
                = (String.length pre + (12 + (String.length json
                                               + (21 + String.length post))))%nat).
  { unfold js. rewrite !string_length_app. reflexivity. }
  assert (S1 : Acquire.indexOf js Acquire.DDO_BEFORE 0
               = Z.of_nat (String.length pre)).
  { unfold Acquire.indexOf. unfold js at 1.
    rewrite indexOfAt_first.
    - lia.
    - lia.
    - apply (@occursBefore_false _ _ _ H1).
    - apply prefix_self. }
  assert (S2 : Acquire.indexOf js Acquire.DDO_AFTER (Z.of_nat (String.length pre))
               = Z.of_nat (String.length pre) + 12 + Z.of_nat (String.length json)).
  { unfold Acquire.indexOf.
    replace (Z.min (Z.max (Z.of_nat (String.length pre)) 0)
                   (Z.of_nat (String.length js)))
      with (0 + Z.of_nat (String.length pre)) by lia.
    unfold js. rewrite indexOfAt_from.
    replace (Acquire.DDO_BEFORE ++ json ++ Acquire.DDO_AFTER ++ post)%string
      with ((Acquire.DDO_BEFORE ++ json) ++ Acquire.DDO_AFTER ++ post)%string
      by (rewrite string_app_assoc; reflexivity).
    rewrite indexOfAt_first.
    - rewrite string_length_app. change (String.length Acquire.DDO_BEFORE) with 12%nat.
      lia.
    - lia.
    - intros k L. rewrite string_length_app in L.
      change (String.length Acquire.DDO_BEFORE) with 12%nat in L.
      rewrite string_app_assoc.
      destruct (Nat.lt_ge_cases k 12) as [Lt|Ge].
      + apply after_not_in_before. exact Lt.
      + replace k with (12 + (k - 12))%nat by lia.
        rewrite dropChars_add.
        change (dropChars 12 (Acquire.DDO_BEFORE ++ json
                                ++ Acquire.DDO_AFTER ++ post)%string)
          with (json ++ Acquire.DDO_AFTER ++ post)%string.
        apply (@occursBefore_false _ _ _ H2). lia.
    - apply prefix_self. }
  cbn [Acquire.extractDdo]. fold js. rewrite S1.
  assert (Nz : (Z.of_nat (String.length pre) =? -1) = false)
    by (apply Z.eqb_neq; lia).
  rewrite Nz, S2.
  assert (Sl : Acquire.stringSlice js
                 (Z.of_nat (String.length pre)
                  + Z.of_nat (String.length Acquire.DDO_BEFORE))
                 (Z.of_nat (String.length pre) + 12
                  + Z.of_nat (String.length json))
               = json).
  { unfold Acquire.stringSlice, clampIndex. rewrite Len.
    change (String.length Acquire.DDO_BEFORE) with 12%nat.
    assert (A1 : (Z.of_nat (String.length pre) + Z.of_nat 12 <? 0) = false)
      by (apply Z.ltb_ge; lia).
    assert (A2 : (Z.of_nat (String.length pre) + 12
                  + Z.of_nat (String.length json) <? 0) = false)
      by (apply Z.ltb_ge; lia).
    rewrite A1, A2.
    rewrite !Z.min_l by lia.
    replace (Z.to_nat (Z.of_nat (String.length pre) + Z.of_nat 12))
      with (String.length (pre ++ Acquire.DDO_BEFORE))
      by (rewrite string_length_app;
          change (String.length Acquire.DDO_BEFORE) with 12%nat; lia).
    replace (Z.to_nat (Z.max (Z.of_nat (String.length pre) + 12
                              + Z.of_nat (String.length json)
                              - (Z.of_nat (String.length pre) + Z.of_nat 12)) 0))
      with (String.length json) by lia.
    unfold js.
    replace (pre ++ Acquire.DDO_BEFORE ++ json ++ Acquire.DDO_AFTER ++ post)%string
      with ((pre ++ Acquire.DDO_BEFORE) ++ json ++ Acquire.DDO_AFTER ++ post)%string
      by (rewrite string_app_assoc; reflexivity).
    apply substring_middle. }
  rewrite Sl. unfold Acquire.parseJson.
  destruct (JSON_parse json); reflexivity.
Qed.

End Extraction.

Lemma ddo_between_the_markers_witness :
  occursBefore Acquire.DDO_BEFORE
    ("var a; " ++ Acquire.DDO_BEFORE ++ "{}" ++ Acquire.DDO_AFTER ++ " = 1;")
    (String.length "var a; ") = false
  /\ occursBefore Acquire.DDO_AFTER ("{}" ++ Acquire.DDO_AFTER ++ " = 1;")
       (String.length "{}") = false
  /\ Acquire.extractDdo (@Some string)
       [("var a; " ++ Acquire.DDO_BEFORE ++ "{}" ++ Acquire.DDO_AFTER ++ " = 1;")%string]
     = match @Some string "{}" with
       | Some v => Ok (Some v)
       | None => Throw (SyntaxError "JSON.parse")
       end.
Proof.
  assert (H1 : occursBefore Acquire.DDO_BEFORE
                 ("var a; " ++ Acquire.DDO_BEFORE ++ "{}" ++ Acquire.DDO_AFTER
                            ++ " = 1;")
                 (String.length "var a; ") = false) by (vm_compute; reflexivity).
  assert (H2 : occursBefore Acquire.DDO_AFTER
                 ("{}" ++ Acquire.DDO_AFTER ++ " = 1;")
                 (String.length "{}") = false) by (vm_compute; reflexivity).
  split; [exact H1|]. split; [exact H2|].
  exact (@ddo_between_the_markers string (@Some string) "var a; " "{}" " = 1;"
           [] H1 H2).
Defined.
